(** * A caching DNS resolver with background refresh: model and properties

    Shallow embedding of [name.go] (package [name]): the cache of resolved
    addresses with its fresh / stale / expired life cycle, the round-robin
    dialer over the configured DNS servers, the address-family selection of
    [resolveAddr], and the TTL accessors.

    Layout:
    - the functions of Go's standard library that the package calls
      ([strconv.Atoi], [net.SplitHostPort], [net.ParseIP], [IP.To4],
      [IP.To16], [time.Time]), modelled in the modules [strconv], [net]
      and [time];
    - the package itself: [cacheEntry], [Resolver], and every function of
      [name.go] written over an explicit [World] (resolver state, clock,
      network oracles, launched goroutines);
    - lemmas and the properties of the specification.

    Two choices of the model:
    - the platform: [int] has [IntSize] = 64 bits, as on amd64 and arm64.
      It matters in [strconv.Atoi] and in the index expression of [Dial],
      which is written for any width ([dialAttemptOn]); what happens
      where [int] has 32 bits is shown on an example;
    - other goroutines: only the operations of the [sync.Map] and
      [atomic.AddUint32] are atomic. A function whose outcome depends on
      what other goroutines do between two of its steps takes their steps
      as arguments ([dialLoopAmong], [resolveDNSAmong], [lookupHostAmong],
      [resolveAddrAmong]); the function of the same name without [Among]
      is the call that runs alone. *)

From Stdlib Require Import ZArith Lia Ascii String List Bool.
From stdpp Require Import base tactics option list gmap strings fin_maps.

Open Scope string_scope.
Open Scope list_scope.
Open Scope Z_scope.

(** ** Integers of fixed width *)

Definition maxInt64 : Z := 2 ^ 63 - 1.
Definition minInt64 : Z := - 2 ^ 63.
Definition maxUint64 : Z := 2 ^ 64 - 1.

(** Two's complement wrap-around of Go's signed 64-bit arithmetic. *)
Definition wrap64 (z : Z) : Z := (z + 2 ^ 63) mod 2 ^ 64 - 2 ^ 63.

(** Wrap-around of [uint32]. *)
Definition wrap32u (z : Z) : Z := z mod 2 ^ 32.

Definition uint32_range (z : Z) : Prop := 0 <= z < 2 ^ 32.

(** The width of [int] ([strconv.IntSize]). It depends on the platform; the
    package is modelled on a platform where it is 64 (amd64, arm64, ...).
    [maxInt] and [minInt] bound the values of [int]. *)
Definition IntSize : Z := 64.
Definition maxInt : Z := 2 ^ (IntSize - 1) - 1.
Definition minInt : Z := - 2 ^ (IntSize - 1).

(** The conversion [int(idx)] of a [uint32] on a platform whose [int] has
    [bits] bits: the value itself for 64 bits; for 32 bits the value taken
    as a signed number, negative from [2^31] on. *)
Definition toInt (bits : Z) (idx : Z) : Z :=
  (idx + 2 ^ (bits - 1)) mod 2 ^ bits - 2 ^ (bits - 1).

(** ** Results *)

(** A Go call that returns [(value, error)], or panics. *)
Inductive result (A E : Type) : Type :=
| Ok (a : A)
| Err (e : E)
| Panic.
Arguments Ok {A E} a.
Arguments Err {A E} e.
Arguments Panic {A E}.

(** ** Bytes of a string *)

Definition byte_of (c : ascii) : Z := Z.of_N (N_of_ascii c).

Definition is_digit (c : ascii) : bool :=
  (48 <=? byte_of c) && (byte_of c <=? 57).

Definition digit_val (c : ascii) : Z := byte_of c - 48.

(** [bytealg.IndexByteString]: position of the first occurrence. *)
Fixpoint IndexByte (s : string) (c : ascii) : option nat :=
  match s with
  | EmptyString => None
  | String d s' =>
      if Ascii.eqb d c then Some O
      else match IndexByte s' c with
           | Some i => Some (S i)
           | None => None
           end
  end.

(** [bytealg.LastIndexByteString]: position of the last occurrence. *)
Fixpoint LastIndexByte (s : string) (c : ascii) : option nat :=
  match s with
  | EmptyString => None
  | String d s' =>
      match LastIndexByte s' c with
      | Some i => Some (S i)
      | None => if Ascii.eqb d c then Some O else None
      end
  end.

(** The slices [s[:n]] and [s[n:]]. *)
Fixpoint str_take (n : nat) (s : string) : string :=
  match n, s with
  | S n', String c s' => String c (str_take n' s')
  | _, _ => EmptyString
  end.

Fixpoint str_drop (n : nat) (s : string) : string :=
  match n, s with
  | S n', String _ s' => str_drop n' s'
  | _, _ => s
  end.

Definition str_slice (i j : nat) (s : string) : string :=
  str_take (j - i) (str_drop i s).

Definition str_at (s : string) (i : nat) : option ascii := String.get i s.

(** ** [strconv] *)

Module strconv.

Inductive NumErrorKind := ErrSyntax | ErrRange.

(** [*strconv.NumError], with the offending input. *)
Record NumError := mkNumError { Num : string; Kind : NumErrorKind }.

(** The digit loop of [ParseUint(s, 10, 64)]: stops with a syntax error at
    the first byte that is no digit, with a range error as soon as the
    accumulator leaves [uint64]. *)
Fixpoint parseDigits (n : Z) (s : string) : result Z NumErrorKind :=
  match s with
  | EmptyString => Ok n
  | String c s' =>
      if is_digit c then
        if n >=? maxUint64 / 10 + 1 then Err ErrRange
        else
          let n1 := n * 10 + digit_val c in
          if n1 >? maxUint64 then Err ErrRange else parseDigits n1 s'
      else Err ErrSyntax
  end.

Definition ParseUint (s : string) : result Z NumErrorKind :=
  match s with
  | EmptyString => Err ErrSyntax
  | _ => parseDigits 0 s
  end.

(** [ParseInt(s, 10, 0)]: the bit size 0 stands for [IntSize]. *)
Definition ParseInt (s : string) : result Z NumErrorKind :=
  match s with
  | EmptyString => Err ErrSyntax
  | String c rest =>
      let neg := Ascii.eqb c "-" in
      let body := if Ascii.eqb c "+" || neg then rest else s in
      match ParseUint body with
      | Ok un =>
          if negb neg && (un >=? 2 ^ (IntSize - 1)) then Err ErrRange
          else if neg && (un >? 2 ^ (IntSize - 1)) then Err ErrRange
          else Ok (if neg then - un else un)
      | Err k => Err k
      | Panic => Panic
      end
  end.

(** [strconv.Atoi]: an optional sign followed by decimal digits, within
    the range of [int]. The fast path of the original (fewer than 19
    bytes) computes the same value as [ParseInt]. *)
Definition Atoi (s : string) : result Z NumError :=
  match ParseInt s with
  | Ok n => Ok n
  | Err k => Err (mkNumError s k)
  | Panic => Panic
  end.

End strconv.

(** ** [net] *)

Module net.

(** [net.IP] is a byte slice; a byte is a [Z] in [0, 256). *)
Definition IP : Type := list Z.

Definition isZeros (p : list Z) : bool := forallb (Z.eqb 0) p.

(** [IPv4(a, b, c, d)]: the 16-byte form of an IPv4 address. *)
Definition IPv4 (a b c d : Z) : IP :=
  [0; 0; 0; 0; 0; 0; 0; 0; 0; 0; 255; 255; a; b; c; d].

(** [ip.To4()]: [None] stands for the nil result. *)
Definition To4 (ip : IP) : option IP :=
  if (length ip =? 4)%nat then Some ip
  else if (length ip =? 16)%nat
          && isZeros (take 10 ip)
          && bool_decide (ip !! 10%nat = Some 255)
          && bool_decide (ip !! 11%nat = Some 255)
  then Some (drop 12 ip)
  else None.

(** [ip.To16()]. *)
Definition To16 (ip : IP) : option IP :=
  match ip with
  | [a; b; c; d] => Some (IPv4 a b c d)
  | _ => if (length ip =? 16)%nat then Some ip else None
  end.

(** [*net.AddrError]. *)
Record AddrError := mkAddrError { Why : string; Addr : string }.

Definition missingPort : string := "missing port in address".
Definition tooManyColons : string := "too many colons in address".

Definition has_byte (s : string) (c : ascii) : bool :=
  match IndexByte s c with Some _ => true | None => false end.

(** [net.SplitHostPort]. *)
Definition SplitHostPort (hostport : string)
  : result (string * string) AddrError :=
  let addrErr why := Err (mkAddrError why hostport) in
  match LastIndexByte hostport ":" with
  | None => addrErr missingPort
  | Some i =>
      let finish (host : string) (j k : nat) :=
        if has_byte (str_drop j hostport) "[" then
          addrErr "unexpected '[' in address"
        else if has_byte (str_drop k hostport) "]" then
          addrErr "unexpected ']' in address"
        else Ok (host, str_drop (S i) hostport) in
      if bool_decide (str_at hostport 0 = Some "["%char) then
        match IndexByte hostport "]" with
        | None => addrErr "missing ']' in address"
        | Some e =>
            if (S e =? String.length hostport)%nat then addrErr missingPort
            else if (S e =? i)%nat then
              finish (str_slice 1 e hostport) 1%nat (S e)
            else if bool_decide (str_at hostport (S e) = Some ":"%char)
            then addrErr tooManyColons
            else addrErr missingPort
        end
      else
        let host := str_take i hostport in
        if has_byte host ":" then addrErr tooManyColons
        else finish host 0%nat 0%nat
  end.

(** The field loop of [parseIPv4Fields]: four decimal fields in [0, 255],
    no leading zero, separated by single dots. [first] says that the
    current byte is the first one, [prevdot] that the previous byte was a
    dot; [fields] are the fields completed so far. *)
Fixpoint parseIPv4Loop (s : string) (first prevdot : bool)
    (val digLen : Z) (fields : list Z) : option (list Z) :=
  match s with
  | EmptyString =>
      if (length fields <? 3)%nat then None else Some (fields ++ [val])
  | String c rest =>
      if is_digit c then
        if (digLen =? 1) && (val =? 0) then None
        else
          let val' := val * 10 + digit_val c in
          if val' >? 255 then None
          else parseIPv4Loop rest false false val' (digLen + 1) fields
      else if Ascii.eqb c "." then
        if first || bool_decide (rest = EmptyString) || prevdot then None
        else if (length fields =? 3)%nat then None
        else parseIPv4Loop rest false true 0 0 (fields ++ [val])
      else None
  end.

Definition parseIPv4Fields (s : string) : option (list Z) :=
  parseIPv4Loop s true false 0 0 [].

Definition hex_val (c : ascii) : option Z :=
  let b := byte_of c in
  if (48 <=? b) && (b <=? 57) then Some (b - 48)
  else if (97 <=? b) && (b <=? 102) then Some (b - 97 + 10)
  else if (65 <=? b) && (b <=? 70) then Some (b - 65 + 10)
  else None.

(** One group of at most four hexadecimal digits: the number of digits
    read, their value and the rest of the string. *)
Fixpoint hexGroup (s : string) (off : nat) (acc : Z)
  : option (nat * Z * string) :=
  match s with
  | EmptyString => Some (off, acc, s)
  | String c s' =>
      match hex_val c with
      | Some d =>
          let acc' := acc * 16 + d in
          if (3 <? off)%nat then None
          else if acc' >? 65535 then None
          else hexGroup s' (S off) acc'
      | None => Some (off, acc, s)
      end
  end.

(** The main loop of [parseIPv6]. [ip] holds the bytes written so far (the
    index [i] of the original is its length), [ellipsis] the position of
    the double colon. The result is the state on leaving the loop. Each
    round writes at least two bytes, so nine rounds of fuel are never
    exhausted. *)
Fixpoint parseIPv6Loop (fuel : nat) (s : string) (ip : list Z)
    (ellipsis : option nat) : option (string * list Z * option nat) :=
  match fuel with
  | O => None
  | S fuel' =>
      if (16 <=? length ip)%nat then Some (s, ip, ellipsis)
      else
        match hexGroup s 0 0 with
        | None => None
        | Some (O, _, _) => None
        | Some (S _, acc, rest) =>
            if bool_decide (str_at rest 0 = Some "."%char) then
              if bool_decide (ellipsis = None)
                 && negb (length ip =? 12)%nat then None
              else if (16 <? length ip + 4)%nat then None
              else
                match parseIPv4Fields s with
                | Some f => Some (EmptyString, ip ++ f, ellipsis)
                | None => None
                end
            else
              let ip' := ip ++ [acc / 256; acc mod 256] in
              match rest with
              | EmptyString => Some (rest, ip', ellipsis)
              | String c1 r1 =>
                  if negb (Ascii.eqb c1 ":") then None
                  else
                    match r1 with
                    | EmptyString => None
                    | String c2 r2 =>
                        if Ascii.eqb c2 ":" then
                          match ellipsis with
                          | Some _ => None
                          | None =>
                              match r2 with
                              | EmptyString =>
                                  Some (r2, ip', Some (length ip'))
                              | _ =>
                                  parseIPv6Loop fuel' r2 ip'
                                    (Some (length ip'))
                              end
                          end
                        else parseIPv6Loop fuel' r1 ip' ellipsis
                    end
              end
        end
  end.

(** [parseIPv6] for a string without zone. *)
Definition parseIPv6 (s : string) : option IP :=
  let leading :=
    bool_decide (str_at s 0 = Some ":"%char)
    && bool_decide (str_at s 1 = Some ":"%char) in
  let s1 := if leading then str_drop 2 s else s in
  let ellipsis := if leading then Some 0%nat else None in
  if leading && bool_decide (s1 = EmptyString) then Some (replicate 16 0)
  else
    match parseIPv6Loop 9 s1 [] ellipsis with
    | None => None
    | Some (String _ _, _, _) => None
    | Some (EmptyString, ip, ell) =>
        if (length ip <? 16)%nat then
          match ell with
          | None => None
          | Some e =>
              Some (take e ip ++ replicate (16 - length ip) 0 ++ drop e ip)
          end
        else
          match ell with
          | Some _ => None
          | None => Some ip
          end
    end.

(** The first of the bytes ['.'], [':'] and ['%'] in [s], which decides
    how [netip.ParseAddr] reads it. *)
Fixpoint firstSeparator (s : string) : option ascii :=
  match s with
  | EmptyString => None
  | String c s' =>
      if Ascii.eqb c "." || Ascii.eqb c ":" || Ascii.eqb c "%" then Some c
      else firstSeparator s'
  end.

(** [net.ParseIP]: the 16-byte form of a textual IPv4 or IPv6 address;
    [None] stands for nil. An address with a zone is refused. *)
Definition ParseIP (s : string) : option IP :=
  match firstSeparator s with
  | Some c =>
      if Ascii.eqb c "." then
        match parseIPv4Fields s with
        | Some [a; b; c; d] => Some (IPv4 a b c d)
        | _ => None
        end
      else if Ascii.eqb c ":" then
        if has_byte s "%" then None else parseIPv6 s
      else None
  | None => None
  end.

End net.

(** ** [time] *)

Module time.

(** An instant of the clock read by [time.Now], in nanoseconds. Of
    [time.Time] only the order of instants and the addition of a duration
    are kept; the wall clock, the location and the bounds of the
    representation are left out. *)
Definition Time : Type := Z.

(** [time.Duration]: nanoseconds in an [int64]. *)
Definition Duration : Type := Z.

Definition Second : Duration := 1000000000.
Definition Minute : Duration := 60 * Second.

Definition Add (t : Time) (d : Duration) : Time := t + d.
Definition Before (t u : Time) : bool := t <? u.
Definition After (t u : Time) : bool := u <? t.

End time.

(** * The package *)

Definition dnsTimeout : time.Duration := 5 * time.Second.
Definition defaultTTL : time.Duration := 5 * time.Minute.
Definition defaultDNSPort : string := ":53".
Definition refreshThreshold : Z := 80.

(** Error values. Each constructor is one [fmt.Errorf] of the package; the
    argument [cause] is the error wrapped with [%w]. [External] is an error
    value handed over by the standard library (a failed lookup or dial).
    [AllServersFailedNil] is ["all DNS servers failed: %w"] formatted with a
    nil [lastErr], which takes a loop over no server at all. *)
Inductive error : Type :=
| External (msg : string)
| LookupFailed (host : string) (cause : error)
| NoRecordsFound (host : string)
| InvalidAddressFormat (address : string) (cause : net.AddrError)
| InvalidPort (port : string) (cause : strconv.NumError)
| NoIPv4Found (host : string)
| NoIPv6Found (host : string)
| AllServersFailed (lastErr : error)
| AllServersFailedNil.

Record cacheEntry : Type := mkEntry {
  ips : list net.IP;
  expires : time.Time;
  stale : time.Time
}.

Record Resolver : Type := mkResolver {
  cache : gmap string cacheEntry;
  ttl : time.Duration;
  dnsServers : list string;
  serverIndex : Z
}.

(** What [netResolver.LookupIP] hands back. *)
Inductive reply : Type :=
| Answer (addrs : list net.IP)
| Failure (err : error).

(** The resolver together with everything around it that its functions
    read or change:
    - [clock]: the instant [time.Now] returns;
    - [lookupIP host t]: the outcome of [LookupIP(ctx, "ip", host)] started
      at [t], and [lookupTook host t], the time it takes;
    - [dialUDP server]: the outcome of [DialContext(ctx, "udp", server)],
      [None] for a connection;
    - [dialLog]: the servers [DialContext] was called with, oldest first;
    - [spawned]: the hosts of the goroutines [go r.resolveDNS(host)] that
      were launched and have not run yet;
    - [lookupDials host t]: how many connections the standard library asks
      the [Dial] function of [netResolver] for during the lookup of [host]
      started at [t] (one for each query it sends). *)
Record World : Type := mkWorld {
  resolver : Resolver;
  clock : time.Time;
  lookupIP : string -> time.Time -> reply;
  lookupTook : string -> time.Time -> N;
  dialUDP : string -> option error;
  dialLog : list string;
  spawned : list string;
  lookupDials : string -> time.Time -> nat
}.

Definition set_resolver (f : Resolver -> Resolver) (w : World) : World :=
  mkWorld (f (resolver w)) (clock w) (lookupIP w) (lookupTook w)
          (dialUDP w) (dialLog w) (spawned w) (lookupDials w).

Definition set_cache (f : gmap string cacheEntry -> gmap string cacheEntry)
    (r : Resolver) : Resolver :=
  mkResolver (f (cache r)) (ttl r) (dnsServers r) (serverIndex r).

Definition set_ttl (d : time.Duration) (r : Resolver) : Resolver :=
  mkResolver (cache r) d (dnsServers r) (serverIndex r).

Definition set_serverIndex (i : Z) (r : Resolver) : Resolver :=
  mkResolver (cache r) (ttl r) (dnsServers r) i.

Definition set_clock (t : time.Time) (w : World) : World :=
  mkWorld (resolver w) t (lookupIP w) (lookupTook w)
          (dialUDP w) (dialLog w) (spawned w) (lookupDials w).

Definition set_dialLog (l : list string) (w : World) : World :=
  mkWorld (resolver w) (clock w) (lookupIP w) (lookupTook w)
          (dialUDP w) l (spawned w) (lookupDials w).

Definition set_spawned (l : list string) (w : World) : World :=
  mkWorld (resolver w) (clock w) (lookupIP w) (lookupTook w)
          (dialUDP w) (dialLog w) l (lookupDials w).

(** ** Computations over the world *)

Definition M (A : Type) : Type := World -> A * World.

Definition ret {A} (a : A) : M A := fun w => (a, w).

Definition bind {A B} (c : M A) (k : A -> M B) : M B :=
  fun w => let (a, w') := c w in k a w'.

Notation "x <-- c ; k" := (bind c (fun x => k))
  (at level 200, c at level 100, k at level 200, right associativity).
Notation "c ;;; k" := (bind c (fun _ => k))
  (at level 200, k at level 200, right associativity).

(** [time.Now()] *)
Definition Now : M time.Time := fun w => (clock w, w).

(** [r.cache.Load(host)] *)
Definition cacheLoad (host : string) : M (option cacheEntry) :=
  fun w => (cache (resolver w) !! host, w).

(** [r.cache.Store(host, e)] *)
Definition cacheStore (host : string) (e : cacheEntry) : M unit :=
  fun w => (tt, set_resolver (set_cache (insert host e)) w).

(** [r.cache.Delete(host)] *)
Definition cacheDelete (host : string) : M unit :=
  fun w => (tt, set_resolver (set_cache (delete host)) w).

(** [r.ttl] *)
Definition readTTL : M time.Duration := fun w => (ttl (resolver w), w).

(** [go r.resolveDNS(host)]: the goroutine is launched, the caller goes on. *)
Definition go_resolveDNS (host : string) : M unit :=
  fun w => (tt, set_spawned (spawned w ++ [host]) w).

(** [atomic.AddUint32(&resolver.serverIndex, 1)]: the new value. *)
Definition AddUint32_serverIndex : M Z :=
  fun w =>
    let new := wrap32u (serverIndex (resolver w) + 1) in
    (new, set_resolver (set_serverIndex new) w).

(** ** Other goroutines *)

(** The calls of the resolver may overlap: only the operations of the
    [sync.Map] and [atomic.AddUint32] are atomic, [r.ttl] is read and
    written without synchronisation. A step of another goroutine on the
    state the calls share is one of these: a [Store] or a [Delete] on the
    cache, the assignment of [SetTTL], an [AddUint32] on the counter. *)
Inductive other : Type :=
| OtherStore (host : string) (e : cacheEntry)
| OtherDelete (host : string)
| OtherSetTTL (d : time.Duration)
| OtherAddIndex.

Definition otherStep (o : other) : M unit :=
  match o with
  | OtherStore host e => cacheStore host e
  | OtherDelete host => cacheDelete host
  | OtherSetTTL d => fun w => (tt, set_resolver (set_ttl d) w)
  | OtherAddIndex => AddUint32_serverIndex ;;; ret tt
  end.

(** The steps of other goroutines that land between two steps of a call.
    A function whose outcome depends on them takes them as an argument
    ([dialLoopAmong], [resolveDNSAmong], [lookupHostAmong]); with no such
    steps it is the call running alone ([dialLoop], [resolveDNS],
    [lookupHost]). *)
Fixpoint interfere (l : list other) : M unit :=
  match l with
  | [] => ret tt
  | o :: l' => otherStep o ;;; interfere l'
  end.

(** ** [NewResolver] and its dialer *)

Definition NewResolver (ttl : time.Duration) (dnsServers : list string)
  : Resolver :=
  let ttl := if ttl <=? 0 then defaultTTL else ttl in
  mkResolver ∅ ttl dnsServers 0.

(** [dialer.DialContext(dialCtx, "udp", server)]; a connection is
    identified by the server it reaches. *)
Definition DialContext (server : string) : M (result string error) :=
  fun w =>
    (match dialUDP w server with
     | None => Ok server
     | Some err => Err err
     end,
     set_dialLog (dialLog w ++ [server]) w).

(** One dial attempt, the body of the loop of [Dial], on a platform whose
    [int] has [bits] bits. The index is [int(idx) % len(dnsServers)]: the
    remainder has the sign of [int(idx)], and a negative index (or one past
    the end) panics. *)
Definition dialAttemptOn (bits : Z) (servers : list string)
  : M (result string error) :=
  new <-- AddUint32_serverIndex;
  let idx := wrap32u (new - 1) in
  let i := Z.rem (toInt bits idx) (Z.of_nat (length servers)) in
  if i <? 0 then ret Panic
  else
    match servers !! Z.to_nat i with
    | None => ret Panic
    | Some s => DialContext (s ++ defaultDNSPort)%string
    end.

Definition dialAttempt (servers : list string) : M (result string error) :=
  dialAttemptOn IntSize servers.

(** [for range dnsServers { ... }] of [Dial]: one attempt per element of
    [rounds]; [lastErr] is the failure of the previous attempt. Nothing is
    held between two attempts: [sch] lists, for each attempt in turn, the
    steps of other goroutines that land just before it. *)
Fixpoint dialLoopAmong (bits : Z) (sch : list (list other))
    (servers rounds : list string) (lastErr : option error)
  : M (result string error) :=
  match rounds with
  | [] =>
      ret (Err (match lastErr with
                | Some err => AllServersFailed err
                | None => AllServersFailedNil
                end))
  | _ :: rounds' =>
      interfere (hd [] sch) ;;;
      r <-- dialAttemptOn bits servers;
      match r with
      | Ok conn => ret (Ok conn)
      | Err err => dialLoopAmong bits (tl sch) servers rounds' (Some err)
      | Panic => ret Panic
      end
  end.

(** The loop of a call of [Dial] that runs alone. *)
Definition dialLoop (servers rounds : list string) (lastErr : option error)
  : M (result string error) :=
  dialLoopAmong IntSize [] servers rounds lastErr.

(** The [Dial] function that [NewResolver] installs in [netResolver] when
    servers are configured; the standard library calls it whenever it needs
    a connection to a DNS server. [DialAmong] is a call among the steps
    [sch] of other goroutines, [Dial] a call that runs alone. *)
Definition DialAmong (bits : Z) (sch : list (list other))
  : M (result string error) :=
  fun w =>
    let servers := dnsServers (resolver w) in
    dialLoopAmong bits sch servers servers None w.

Definition Dial : M (result string error) :=
  fun w =>
    let servers := dnsServers (resolver w) in
    dialLoop servers servers None w.

(** ** Resolution and the cache *)

(** The standard library asking [n] times for a connection; [false] if a
    call of [Dial] panicked. *)
Fixpoint dialTimes (n : nat) : M bool :=
  match n with
  | O => ret true
  | S n' =>
      r <-- Dial;
      match r with
      | Panic => ret false
      | _ => dialTimes n'
      end
  end.

(** [r.netResolver.LookupIP(ctx, "ip", host)]. With servers configured the
    standard library gets its connections from [Dial], [lookupDials] of
    them, and a panic in [Dial] ends the lookup. Otherwise the lookup
    returns what the network answers ([lookupIP] stands for the outcome
    of the whole exchange, failed dials included), and the clock has
    moved on by the time the call took. *)
Definition LookupIP (host : string) : M (result (list net.IP) error) :=
  fun w =>
    let rp := lookupIP w host (clock w) in
    let done := clock w + Z.of_N (lookupTook w host (clock w)) in
    let (ok, w1) :=
      match dnsServers (resolver w) with
      | [] => (true, w)
      | _ :: _ => dialTimes (lookupDials w host (clock w)) w
      end in
    (if ok then
       match rp with
       | Answer addrs => Ok addrs
       | Failure err => Err err
       end
     else Panic,
     set_clock done w1).

(** [r.ttl * refreshThreshold / 100]: the product wraps around in [int64],
    the division truncates towards zero. *)
Definition staleAfter (ttl : time.Duration) : time.Duration :=
  Z.quot (wrap64 (ttl * refreshThreshold)) 100.

(** The entry [resolveDNS] stores when both its readings of [r.ttl] give
    [ttl]. *)
Definition newEntry (addrs : list net.IP) (now : time.Time)
    (ttl : time.Duration) : cacheEntry :=
  mkEntry addrs (time.Add now ttl) (time.Add now (staleAfter ttl)).

(** [resolveDNS]. The composite literal reads [r.ttl] twice, first for
    [expires], then for [stale]. [during] are the steps of other
    goroutines that land while the lookup is under way, [race] those that
    land between the two readings of [r.ttl]. *)
Definition resolveDNSAmong (during race : list other) (host : string)
  : M (result (list net.IP) error) :=
  r <-- LookupIP host;
  interfere during ;;;
  match r with
  | Panic => ret Panic
  | Err err => ret (Err (LookupFailed host err))
  | Ok addrs =>
      if (length addrs =? 0)%nat then ret (Err (NoRecordsFound host))
      else
        now <-- Now;
        d1 <-- readTTL;
        interfere race ;;;
        d2 <-- readTTL;
        cacheStore host
          (mkEntry addrs (time.Add now d1) (time.Add now (staleAfter d2))) ;;;
        ret (Ok addrs)
  end.

(** A call of [resolveDNS] that runs alone. *)
Definition resolveDNS (host : string) : M (result (list net.IP) error) :=
  resolveDNSAmong [] [] host.

(** [lookupHost]. [gap] are the steps of other goroutines that land between
    the [Load] of an expired entry and its [Delete], [during] and [race]
    those that land inside [resolveDNS]. *)
Definition lookupHostAmong (gap during race : list other) (host : string)
  : M (result (list net.IP) error) :=
  match net.ParseIP host with
  | Some ip => ret (Ok [ip])
  | None =>
      now <-- Now;
      entry <-- cacheLoad host;
      match entry with
      | Some ce =>
          if time.Before now (expires ce) then
            (if time.After now (stale ce) then go_resolveDNS host
             else ret tt) ;;;
            ret (Ok (ips ce))
          else
            interfere gap ;;;
            cacheDelete host ;;;
            resolveDNSAmong during race host
      | None => resolveDNSAmong during race host
      end
  end.

(** A call of [lookupHost] that runs alone. *)
Definition lookupHost (host : string) : M (result (list net.IP) error) :=
  lookupHostAmong [] [] [] host.

(** The loop of the ["tcp4", "udp4"] case: the first address with a 4-byte
    form; [None] is the nil [selectedIP]. *)
Fixpoint selectIPv4 (addrs : list net.IP) : option net.IP :=
  match addrs with
  | [] => None
  | ip :: rest =>
      match net.To4 ip with
      | Some _ => Some ip
      | None => selectIPv4 rest
      end
  end.

(** The loop of the ["tcp6", "udp6"] case. *)
Fixpoint selectIPv6 (addrs : list net.IP) : option net.IP :=
  match addrs with
  | [] => None
  | ip :: rest =>
      match net.To4 ip, net.To16 ip with
      | None, Some _ => Some ip
      | _, _ => selectIPv6 rest
      end
  end.

(** [resolveAddr], among the steps [gap], [during] and [race] of other
    goroutines that land inside its call of [lookupHost]. *)
Definition resolveAddrAmong (gap during race : list other)
    (network address : string)
  : M (result (net.IP * Z) error) :=
  match net.SplitHostPort address with
  | Err err => ret (Err (InvalidAddressFormat address err))
  | Panic => ret Panic
  | Ok (host, port) =>
      match strconv.Atoi port with
      | Err err => ret (Err (InvalidPort port err))
      | Panic => ret Panic
      | Ok portNum =>
          r <-- lookupHostAmong gap during race host;
          match r with
          | Err err => ret (Err err)
          | Panic => ret Panic
          | Ok addrs =>
              if String.eqb network "tcp4" || String.eqb network "udp4" then
                match selectIPv4 addrs with
                | Some selectedIP => ret (Ok (selectedIP, portNum))
                | None => ret (Err (NoIPv4Found host))
                end
              else if String.eqb network "tcp6" || String.eqb network "udp6"
              then
                match selectIPv6 addrs with
                | Some selectedIP => ret (Ok (selectedIP, portNum))
                | None => ret (Err (NoIPv6Found host))
                end
              else
                match addrs with
                | selectedIP :: _ => ret (Ok (selectedIP, portNum))
                | [] => ret Panic
                end
          end
      end
  end.

(** A call of [resolveAddr] that runs alone. *)
Definition resolveAddr (network address : string)
  : M (result (net.IP * Z) error) :=
  resolveAddrAmong [] [] [] network address.

(** [net.TCPAddr] and [net.UDPAddr], without the zone. *)
Record TCPAddr : Type := mkTCPAddr { tcpIP : net.IP; tcpPort : Z }.
Record UDPAddr : Type := mkUDPAddr { udpIP : net.IP; udpPort : Z }.

Definition ResolveTCPAddrAmong (gap during race : list other)
    (network address : string)
  : M (result TCPAddr error) :=
  r <-- resolveAddrAmong gap during race network address;
  match r with
  | Ok (ip, port) => ret (Ok (mkTCPAddr ip port))
  | Err err => ret (Err err)
  | Panic => ret Panic
  end.

Definition ResolveUDPAddrAmong (gap during race : list other)
    (network address : string)
  : M (result UDPAddr error) :=
  r <-- resolveAddrAmong gap during race network address;
  match r with
  | Ok (ip, port) => ret (Ok (mkUDPAddr ip port))
  | Err err => ret (Err err)
  | Panic => ret Panic
  end.

(** Calls of [ResolveTCPAddr] and [ResolveUDPAddr] that run alone. *)
Definition ResolveTCPAddr (network address : string)
  : M (result TCPAddr error) :=
  ResolveTCPAddrAmong [] [] [] network address.

Definition ResolveUDPAddr (network address : string)
  : M (result UDPAddr error) :=
  ResolveUDPAddrAmong [] [] [] network address.

(** The keys [r.cache.Range] visits. *)
Definition cacheKeys (m : gmap string cacheEntry) : list string :=
  (map_to_list m).*1.

Fixpoint forEach {A} (l : list A) (f : A -> M unit) : M unit :=
  match l with
  | [] => ret tt
  | x :: l' => f x ;;; forEach l' f
  end.

Definition ClearCache : M unit :=
  fun w => forEach (cacheKeys (cache (resolver w))) cacheDelete w.

Definition ClearHost (host : string) : M unit := cacheDelete host.

Definition GetCachedIPs (host : string) : M (list net.IP * bool) :=
  entry <-- cacheLoad host;
  match entry with
  | None => ret ([], false)
  | Some ce =>
      now <-- Now;
      if time.After now (expires ce) then
        cacheDelete host ;;;
        ret ([], false)
      else ret (ips ce, true)
  end.

Definition RefreshCache : M unit :=
  fun w => forEach (cacheKeys (cache (resolver w))) go_resolveDNS w.

Definition CacheCount : M Z :=
  fun w => (Z.of_nat (length (cacheKeys (cache (resolver w)))), w).

Definition SetTTL (ttl : time.Duration) : M unit :=
  fun w => (tt, set_resolver (set_ttl ttl) w).

Definition GetTTL : M time.Duration := readTTL.

(** ** Runs of the program *)

(** The scheduler runs the [i]-th launched goroutine; what [resolveDNS]
    returns there is dropped. *)
Definition runSpawned (i : nat) : M unit :=
  fun w =>
    match spawned w !! i with
    | None => (tt, w)
    | Some host =>
        (tt, snd (resolveDNS host (set_spawned (delete i (spawned w)) w)))
    end.

(** What can happen to a resolver: a call of one of its exported
    functions, the standard library asking for a connection ([netResolver]
    has a [Dial] function only if servers are configured), a launched
    goroutine running, time passing, the network changing its answers.
    Each call of a run is made alone, one after the other; what a call
    does among the steps of other goroutines is what [dialLoopAmong],
    [resolveDNSAmong] and [lookupHostAmong] say. *)
Inductive op : Type :=
| CallResolveTCPAddr (network address : string)
| CallResolveUDPAddr (network address : string)
| CallClearCache
| CallClearHost (host : string)
| CallGetCachedIPs (host : string)
| CallRefreshCache
| CallCacheCount
| CallSetTTL (d : time.Duration)
| CallGetTTL
| CallDial
| RunSpawned (i : nat)
| Tick (d : N)
| Network (lookup : string -> time.Time -> reply)
          (took : string -> time.Time -> N)
          (dial : string -> option error)
          (dials : string -> time.Time -> nat).

Definition exec (o : op) (w : World) : World :=
  match o with
  | CallResolveTCPAddr network address => snd (ResolveTCPAddr network address w)
  | CallResolveUDPAddr network address => snd (ResolveUDPAddr network address w)
  | CallClearCache => snd (ClearCache w)
  | CallClearHost host => snd (ClearHost host w)
  | CallGetCachedIPs host => snd (GetCachedIPs host w)
  | CallRefreshCache => snd (RefreshCache w)
  | CallCacheCount => snd (CacheCount w)
  | CallSetTTL d => snd (SetTTL d w)
  | CallGetTTL => snd (GetTTL w)
  | CallDial =>
      match dnsServers (resolver w) with
      | [] => w
      | _ :: _ => snd (Dial w)
      end
  | RunSpawned i => snd (runSpawned i w)
  | Tick d => set_clock (clock w + Z.of_N d) w
  | Network lookup took dial dials =>
      mkWorld (resolver w) (clock w) lookup took dial (dialLog w) (spawned w)
              dials
  end.

Definition run (os : list op) (w : World) : World :=
  fold_left (fun w o => exec o w) os w.

(** A resolver fresh from [NewResolver], at instant [t0]. *)
Definition initWorld (ttl : time.Duration) (servers : list string)
    (t0 : time.Time) (lookup : string -> time.Time -> reply)
    (took : string -> time.Time -> N) (dial : string -> option error)
    (dials : string -> time.Time -> nat)
  : World :=
  mkWorld (NewResolver ttl servers) t0 lookup took dial [] [] dials.

(** ** Sample data *)

Definition exampleIPs : list net.IP := [[93; 184; 216; 34]].

Definition unreachable : string -> time.Time -> reply :=
  fun _ _ => Failure (External "no such host").

Definition instantly : string -> time.Time -> N := fun _ _ => 0%N.

Definition allConnect : string -> option error := fun _ => None.

(** The standard library dialling twice for each lookup (one connection
    for the A query and one for the AAAA query). *)
Definition twoDials : string -> time.Time -> nat := fun _ _ => 2%nat.

(** A resolver holding one entry for ["example.com"], created at instant 0
    under a TTL of 100ns, read at instant [now]. *)
Definition cachedWorld (now : time.Time) : World :=
  mkWorld
    (mkResolver {[ "example.com" := newEntry exampleIPs 0 100 ]} 100 [] 0)
    now unreachable instantly allConnect [] [] twoDials.

(** A resolver with an empty cache and a TTL of [ttl], at instant 0, on a
    network that answers every lookup with [exampleIPs] at once. *)
Definition answeringWorld (ttl : time.Duration) : World :=
  mkWorld (mkResolver ∅ ttl [] 0) 0 (fun _ _ => Answer exampleIPs)
          instantly allConnect [] [] twoDials.

(** The instant at which a lookup of [host] started in [w] is over. *)
Definition lookupDone (w : World) (host : string) : time.Time :=
  clock w + Z.of_N (lookupTook w host (clock w)).

(** The world [w] with the counter at [i] and the dial log [l]. *)
Definition dialed (i : Z) (l : list string) (w : World) : World :=
  set_dialLog l (set_resolver (set_serverIndex i) w).

(** The world in which a lookup of [host] started in [w] ends: the standard
    library has made its calls of [Dial] (with servers configured), and the
    clock is at [lookupDone]. *)
Definition afterLookup (w : World) (host : string) : World :=
  set_clock (lookupDone w host)
    (match dnsServers (resolver w) with
     | [] => w
     | _ :: _ => snd (dialTimes (lookupDials w host (clock w)) w)
     end).

Arguments afterLookup : simpl never.

(** The error [resolveDNS] makes of a reply without addresses. *)
Definition failureOf (host : string) (rp : reply) : option error :=
  match rp with
  | Failure err => Some (LookupFailed host err)
  | Answer [] => Some (NoRecordsFound host)
  | Answer (_ :: _) => None
  end.

(** Vocabulary of the statements on [resolveAddr]. *)

Definition isV4Network (network : string) : bool :=
  String.eqb network "tcp4" || String.eqb network "udp4".

Definition isV6Network (network : string) : bool :=
  String.eqb network "tcp6" || String.eqb network "udp6".

(** The address has a 4-byte form. *)
Definition hasV4 (ip : net.IP) : Prop := net.To4 ip <> None.

(** The address has no 4-byte form but a 16-byte one. *)
Definition isV6 (ip : net.IP) : Prop :=
  net.To4 ip = None /\ net.To16 ip <> None.

(** [ip] is the first element of [addrs], in their order, that has [P]. *)
Definition firstWith (P : net.IP -> Prop) (addrs : list net.IP)
    (ip : net.IP) : Prop :=
  exists pre post,
    addrs = pre ++ ip :: post /\ Forall (fun a => ~ P a) pre /\ P ip.

Fixpoint allDigits (s : string) : bool :=
  match s with
  | EmptyString => true
  | String c s' => is_digit c && allDigits s'
  end.

(** An optional sign followed by at least one decimal digit. *)
Definition isDecimal (s : string) : bool :=
  match s with
  | EmptyString => false
  | String c rest =>
      let body := if Ascii.eqb c "+" || Ascii.eqb c "-" then rest else s in
      negb (String.eqb body "") && allDigits body
  end.

(** The number a string of decimal digits denotes, continuing from [acc]. *)
Fixpoint digitsValue (acc : Z) (s : string) : option Z :=
  match s with
  | EmptyString => Some acc
  | String c s' =>
      if is_digit c then digitsValue (acc * 10 + digit_val c) s' else None
  end.

(** The integer a string denotes when it is an optional sign followed by
    at least one decimal digit, however large. *)
Definition decimalValue (s : string) : option Z :=
  match s with
  | EmptyString => None
  | String c rest =>
      match (if Ascii.eqb c "+" || Ascii.eqb c "-" then rest else s) with
      | EmptyString => None
      | body =>
          option_map (fun v => if Ascii.eqb c "-" then - v else v)
                     (digitsValue 0 body)
      end
  end.

(** What [resolveAddr] makes of the result of [lookupHost] and the parsed
    port. *)
Definition selected (network host : string) (portNum : Z)
    (r : result (list net.IP) error) : result (net.IP * Z) error :=
  match r with
  | Err err => Err err
  | Panic => Panic
  | Ok addrs =>
      if isV4Network network then
        match selectIPv4 addrs with
        | Some ip => Ok (ip, portNum)
        | None => Err (NoIPv4Found host)
        end
      else if isV6Network network then
        match selectIPv6 addrs with
        | Some ip => Ok (ip, portNum)
        | None => Err (NoIPv6Found host)
        end
      else
        match addrs with
        | ip :: _ => Ok (ip, portNum)
        | [] => Panic
        end
  end.

(** The addresses of the example of the specification, the IPv6 one first:
    2606:2800:220:1:248:1893:25c8:1946 and 93.184.216.34. *)
Definition dualStackIPs : list net.IP :=
  [[38; 6; 40; 0; 2; 32; 0; 1; 2; 72; 24; 147; 37; 200; 25; 70];
   net.IPv4 93 184 216 34].

(** A resolver holding a fresh entry with both addresses. *)
Definition dualStackWorld : World :=
  mkWorld
    (mkResolver {[ "example.com" := newEntry dualStackIPs 0 100 ]} 100 [] 0)
    10 unreachable instantly allConnect [] [] twoDials.

(** Vocabulary of the statements on the dialer. *)

(** [list[counter mod N]], with the port [Dial] appends. *)
Definition dialTarget (servers : list string) (counter : Z) : string :=
  (default "" (servers !! Z.to_nat (counter mod Z.of_nat (length servers)))
   ++ defaultDNSPort)%string.

(** The targets of [n] dial attempts in a row that start at [counter]. *)
Definition dialTargets (servers : list string) (counter : Z) (n : nat)
  : list string :=
  map (fun i => dialTarget servers (wrap32u (counter + Z.of_nat i))) (seq 0 n).

(** The world [n] dial attempts later: the counter has advanced by [n],
    the targets are in the log, nothing else has changed. *)
Definition afterAttempts (n : nat) (w : World) : World :=
  set_dialLog
    (dialLog w
     ++ dialTargets (dnsServers (resolver w)) (serverIndex (resolver w)) n)
    (set_resolver
       (set_serverIndex (wrap32u (serverIndex (resolver w) + Z.of_nat n)))
       w).

(** A resolver made by [NewResolver] for the servers A, B and C. *)
Definition threeServers (dial : string -> option error) : World :=
  initWorld 0 ["10.0.0.1"; "10.0.0.2"; "10.0.0.3"] 0
            unreachable instantly dial twoDials.

Definition noneConnects : string -> option error :=
  fun server => Some (External ("connection refused: " ++ server)).

(** Vocabulary of the statements on the entries of the cache. *)

(** Every entry of [w'] is an entry of [w] or was made by [newEntry], under
    the TTL of [w], from a non-empty answer and a reading of the clock not
    before that of [w]. *)
Definition cacheStep (w w' : World) : Prop :=
  forall h e',
    cache (resolver w') !! h = Some e' ->
    cache (resolver w) !! h = Some e'
    \/ exists addrs now,
         addrs <> [] /\ clock w <= now
         /\ e' = newEntry addrs now (ttl (resolver w)).

(** No entry goes stale after it expires, and none is empty. *)
Definition entriesOrdered (w : World) : Prop :=
  forall h e,
    cache (resolver w) !! h = Some e -> stale e <= expires e /\ ips e <> [].

(** The TTLs under which [stale <= expires] holds for a new entry. *)
Definition goodTTL (d : time.Duration) : Prop := 0 <= d <= maxInt64.


Definition firstDown : string -> option error :=
  fun server =>
    if String.eqb server "10.0.0.1:53"
    then Some (External "i/o timeout") else None.

(** Vocabulary of the statements on whole runs. *)

(** No host in the cache, and no host a launched goroutine is to resolve,
    parses as a literal address. *)
Definition hostsNotLiteral (w : World) : Prop :=
  (forall h, is_Some (cache (resolver w) !! h) -> net.ParseIP h = None)
  /\ Forall (fun h => net.ParseIP h = None) (spawned w).

(** No entry of the cache holds an empty list. *)
Definition entriesNonEmpty (w : World) : Prop :=
  forall h e, cache (resolver w) !! h = Some e -> ips e <> [].

(** The world [cachedWorld now] on a network that answers every lookup
    with [dualStackIPs] at once. *)
Definition refreshingWorld (now : time.Time) : World :=
  mkWorld
    (mkResolver {[ "example.com" := newEntry exampleIPs 0 100 ]} 100 [] 0)
    now (fun _ _ => Answer dualStackIPs) instantly allConnect [] [] twoDials.

(** Three servers of which only the last one is up, with the counter at
    its last value before the wrap-around. *)
Definition onlyThirdUp : string -> option error :=
  fun server =>
    if String.eqb server "10.0.0.3:53"
    then None else Some (External "i/o timeout").

Definition wrappingWorld : World :=
  set_resolver (set_serverIndex (2 ^ 32 - 1)) (threeServers onlyThirdUp).


(** Three servers, with the counter at the first value whose conversion
    to a 32-bit [int] is negative. *)
Definition halfwayWorld : World :=
  set_resolver (set_serverIndex (2 ^ 31)) (threeServers allConnect).

(** The smallest TTL whose product with [refreshThreshold] leaves
    [int64]: a little over 3.65 years. *)
Definition overflowingTTL : time.Duration := 115292150460684698.

(** Vocabulary of the statements on overlapping calls. *)

(** The world as the steps [l] of other goroutines leave it. *)
Definition amid (l : list other) (w : World) : World := snd (interfere l w).

Arguments amid : simpl never.

(** Steps among which no other call of [Dial] advances the counter. *)
Definition quiet (l : list other) : Prop :=
  Forall (fun o => o <> OtherAddIndex) l.

(** The TTL in force after the steps [l], when it was [d] before. *)
Fixpoint ttlAfter (l : list other) (d : time.Duration) : time.Duration :=
  match l with
  | [] => d
  | OtherSetTTL d' :: l' => ttlAfter l' d'
  | _ :: l' => ttlAfter l' d
  end.

(** * Properties *)

Ltac unfold_resolveAddr :=
  unfold resolveAddr, resolveAddrAmong;
  change (lookupHostAmong [] [] []) with lookupHost.

Ltac unfold_resolveAddr_in H :=
  unfold resolveAddr, resolveAddrAmong in H;
  change (lookupHostAmong [] [] []) with lookupHost in H.

Ltac unfold_Resolve :=
  unfold ResolveTCPAddr, ResolveUDPAddr, ResolveTCPAddrAmong,
    ResolveUDPAddrAmong;
  change (resolveAddrAmong [] [] []) with resolveAddr.

Ltac unfold_m :=
  unfold bind, ret, Now, cacheLoad, cacheStore, cacheDelete, readTTL,
    go_resolveDNS in *.

Lemma time_Before_true (t u : time.Time) : time.Before t u = true <-> t < u.
Proof. unfold time.Before. apply Z.ltb_lt. Qed.

Lemma time_Before_false (t u : time.Time) : time.Before t u = false <-> u <= t.
Proof. unfold time.Before. rewrite Z.ltb_ge. reflexivity. Qed.

Lemma time_After_true (t u : time.Time) : time.After t u = true <-> u < t.
Proof. unfold time.After. apply Z.ltb_lt. Qed.

Lemma time_After_false (t u : time.Time) : time.After t u = false <-> t <= u.
Proof. unfold time.After. rewrite Z.ltb_ge. reflexivity. Qed.

(** *** The standard library functions on sample inputs *)

Example Atoi_samples :
  strconv.Atoi "53" = Ok 53
  /\ strconv.Atoi "+53" = Ok 53
  /\ strconv.Atoi "-53" = Ok (-53)
  /\ strconv.Atoi "9223372036854775807" = Ok maxInt64
  /\ strconv.Atoi "9223372036854775808"
     = Err (strconv.mkNumError "9223372036854775808" strconv.ErrRange)
  /\ strconv.Atoi "" = Err (strconv.mkNumError "" strconv.ErrSyntax)
  /\ strconv.Atoi "5 3" = Err (strconv.mkNumError "5 3" strconv.ErrSyntax).
Proof. repeat split; reflexivity. Qed.

Example SplitHostPort_samples :
  net.SplitHostPort "example.com:443" = Ok ("example.com", "443")
  /\ net.SplitHostPort "[2001:db8::1]:53" = Ok ("2001:db8::1", "53")
  /\ net.SplitHostPort ":53" = Ok ("", "53")
  /\ net.SplitHostPort "example.com"
     = Err (net.mkAddrError net.missingPort "example.com")
  /\ net.SplitHostPort "2001:db8::1:53"
     = Err (net.mkAddrError net.tooManyColons "2001:db8::1:53")
  /\ net.SplitHostPort "[2001:db8::1]"
     = Err (net.mkAddrError net.missingPort "[2001:db8::1]").
Proof. repeat split; reflexivity. Qed.

Example ParseIP_samples :
  net.ParseIP "93.184.216.34" = Some (net.IPv4 93 184 216 34)
  /\ net.ParseIP "2606:2800:220:1:248:1893:25c8:1946"
     = Some [38; 6; 40; 0; 2; 32; 0; 1; 2; 72; 24; 147; 37; 200; 25; 70]
  /\ net.ParseIP "::ffff:93.184.216.34" = Some (net.IPv4 93 184 216 34)
  /\ net.ParseIP "::" = Some (replicate 16 0)
  /\ net.ParseIP "093.184.216.34" = None
  /\ net.ParseIP "93.184.216" = None
  /\ net.ParseIP "fe80::1%eth0" = None
  /\ net.ParseIP "1:2:3:4:5:6:7:8:9" = None
  /\ net.ParseIP "example.com" = None.
Proof. repeat split; reflexivity. Qed.

Example To4_samples :
  net.To4 [93; 184; 216; 34] = Some [93; 184; 216; 34]
  /\ net.To4 (net.IPv4 93 184 216 34) = Some [93; 184; 216; 34]
  /\ net.To4 [38; 6; 40; 0; 2; 32; 0; 1; 2; 72; 24; 147; 37; 200; 25; 70]
     = None
  /\ net.To16 [93; 184; 216; 34] = Some (net.IPv4 93 184 216 34)
  /\ net.To16 [1; 2; 3] = None.
Proof. repeat split; reflexivity. Qed.

(** *** The dialer *)

Lemma wrap32u_range (z : Z) : uint32_range (wrap32u z).
Proof. unfold uint32_range, wrap32u. apply Z.mod_pos_bound. lia. Qed.

Lemma wrap32u_id (z : Z) : uint32_range z -> wrap32u z = z.
Proof. unfold uint32_range, wrap32u. intros H. apply Z.mod_small. exact H. Qed.

Lemma wrap32u_add_l (a b : Z) : wrap32u (wrap32u a + b) = wrap32u (a + b).
Proof. unfold wrap32u. apply Zplus_mod_idemp_l. Qed.

(** [atomic.AddUint32(&i, 1) - 1] is the value of the counter before the
    increment. *)
Lemma fetched_index (c : Z) :
  uint32_range c -> wrap32u (wrap32u (c + 1) - 1) = c.
Proof.
  intros H. unfold wrap32u. rewrite Zminus_mod_idemp_l.
  replace (c + 1 - 1) with c by lia. apply Z.mod_small. exact H.
Qed.

Lemma dialTargets_S (servers : list string) (c : Z) (n : nat) :
  dialTargets servers c (S n)
  = dialTarget servers (wrap32u c) :: dialTargets servers (wrap32u (c + 1)) n.
Proof.
  unfold dialTargets. cbn [seq map]. f_equal.
  - do 2 f_equal. change (Z.of_nat 0) with 0. lia.
  - rewrite <- seq_shift, map_map. apply map_ext. intros i.
    rewrite wrap32u_add_l. do 2 f_equal. lia.
Qed.

Lemma afterAttempts_S (n : nat) (w : World) :
  afterAttempts (S n) w = afterAttempts n (afterAttempts 1 w).
Proof.
  unfold afterAttempts. destruct w as [[c t srv i] ? ? ? ? ? ? ?]. simpl.
  unfold set_dialLog, set_resolver, set_serverIndex. simpl.
  rewrite !dialTargets_S, wrap32u_add_l, <- app_assoc.
  change (Z.of_nat 1) with 1.
  replace (i + 1 + Z.of_nat n) with (i + Z.of_nat (S n)) by lia.
  reflexivity.
Qed.

Lemma afterAttempts_0 (w : World) :
  uint32_range (serverIndex (resolver w)) -> afterAttempts 0 w = w.
Proof.
  intros H. unfold afterAttempts. destruct w as [[c t srv i] ? ? ? ? ? ? ?].
  simpl in *. unfold set_dialLog, set_resolver, set_serverIndex. simpl.
  rewrite Z.add_0_r, (wrap32u_id i H), app_nil_r. reflexivity.
Qed.

Lemma afterAttempts_range (n : nat) (w : World) :
  uint32_range (serverIndex (resolver (afterAttempts n w))).
Proof. simpl. apply wrap32u_range. Qed.

Lemma server_in_range (servers : list string) (c : Z) :
  servers <> [] ->
  exists s, servers !! Z.to_nat (c mod Z.of_nat (length servers)) = Some s.
Proof.
  intros Hne.
  assert (Hlen : 0 < Z.of_nat (length servers))
    by (destruct servers; [congruence|simpl; lia]).
  pose proof (Z.mod_pos_bound c _ Hlen) as Hb.
  destruct (servers !! Z.to_nat (c mod Z.of_nat (length servers))) eqn:E;
    [eauto|].
  apply lookup_ge_None in E. lia.
Qed.

(** On a platform whose [int] has 64 bits, [int(idx)] is [idx]. *)
Lemma toInt_id (idx : Z) : uint32_range idx -> toInt IntSize idx = idx.
Proof.
  unfold toInt, IntSize, uint32_range. intros H.
  rewrite Z.mod_small; lia.
Qed.

(** There the index [int(idx) % N] is [idx mod N], never negative. *)
Lemma dialIndex (servers : list string) (idx : Z) :
  servers <> [] ->
  uint32_range idx ->
  Z.rem (toInt IntSize idx) (Z.of_nat (length servers))
  = idx mod Z.of_nat (length servers)
  /\ (idx mod Z.of_nat (length servers) <? 0) = false.
Proof.
  intros Hne Hr.
  assert (Hlen : 0 < Z.of_nat (length servers))
    by (destruct servers; [congruence|simpl; lia]).
  rewrite (toInt_id idx Hr). split.
  - apply Z.rem_mod_nonneg; [apply Hr|exact Hlen].
  - apply Z.ltb_ge. apply Z.mod_pos_bound. exact Hlen.
Qed.

Lemma dialLoop_nil (servers : list string) (lastErr : option error)
    (w : World) :
  dialLoop servers [] lastErr w
  = (Err (match lastErr with
          | Some err => AllServersFailed err
          | None => AllServersFailedNil
          end), w).
Proof. reflexivity. Qed.

Lemma dialLoop_cons (servers : list string) (x : string)
    (rounds : list string) (lastErr : option error) (w : World) :
  dialLoop servers (x :: rounds) lastErr w
  = match dialAttempt servers w with
    | (Ok conn, w1) => (Ok conn, w1)
    | (Err err, w1) => dialLoop servers rounds (Some err) w1
    | (Panic, w1) => (Panic, w1)
    end.
Proof.
  unfold dialLoop, dialAttempt. cbn [dialLoopAmong hd tl interfere].
  unfold bind, ret.
  destruct (dialAttemptOn IntSize servers w) as [[conn|err|] w1]; reflexivity.
Qed.

(** One attempt dials [list[counter mod N]] and advances the counter. *)
Lemma dialAttempt_spec (w : World) :
  dnsServers (resolver w) <> [] ->
  uint32_range (serverIndex (resolver w)) ->
  dialAttempt (dnsServers (resolver w)) w =
    (match dialUDP w (dialTarget (dnsServers (resolver w))
                        (serverIndex (resolver w))) with
     | None => Ok (dialTarget (dnsServers (resolver w))
                     (serverIndex (resolver w)))
     | Some err => Err err
     end,
     afterAttempts 1 w).
Proof.
  intros Hne Hr.
  unfold dialAttempt, dialAttemptOn, bind, AddUint32_serverIndex.
  rewrite (fetched_index _ Hr).
  destruct (dialIndex _ _ Hne Hr) as [-> ->]. unfold dialTarget.
  destruct (server_in_range (dnsServers (resolver w))
              (serverIndex (resolver w)) Hne) as [s Hs].
  simpl. rewrite Hs. simpl. unfold DialContext. simpl. f_equal.
  unfold afterAttempts, dialTargets, dialTarget. simpl.
  rewrite Z.add_0_r, (wrap32u_id _ Hr), Hs. reflexivity.
Qed.




Lemma run_cons (o : op) (os : list op) (w : World) :
  run (o :: os) w = run os (exec o w).
Proof. reflexivity. Qed.



(** Failover on sample networks: with the first server down the second one
    is dialled and connects; with every server down all three are tried. *)
Example Dial_failover :
  fst (Dial (threeServers firstDown)) = Ok "10.0.0.2:53"
  /\ dialLog (snd (Dial (threeServers firstDown)))
     = ["10.0.0.1:53"; "10.0.0.2:53"]
  /\ fst (Dial (threeServers noneConnects))
     = Err (AllServersFailed (External "connection refused: 10.0.0.3:53"))
  /\ dialLog (snd (Dial (threeServers noneConnects)))
     = ["10.0.0.1:53"; "10.0.0.2:53"; "10.0.0.3:53"].
Proof. repeat split; reflexivity. Qed.

(** *** The dialer during a lookup *)

Lemma dialed_id (w : World) :
  dialed (serverIndex (resolver w)) (dialLog w) w = w.
Proof. destruct w as [[c t s i] ? ? ? ? ? ? ?]. reflexivity. Qed.

(** One attempt, whatever the counter holds: with an [int] of 64 bits it
    does not panic, and it changes nothing but the counter and the log. *)
Lemma dialAttempt_dialed (servers : list string) (w : World) :
  servers <> [] ->
  exists r i l,
    dialAttempt servers w = (r, dialed i l w)
    /\ r <> Panic /\ uint32_range i.
Proof.
  intros Hne. unfold dialAttempt, dialAttemptOn, bind, AddUint32_serverIndex.
  set (new := wrap32u (serverIndex (resolver w) + 1)).
  destruct (dialIndex servers (wrap32u (new - 1)) Hne (wrap32u_range _))
    as [-> ->].
  destruct (server_in_range servers (wrap32u (new - 1)) Hne) as [s Hs].
  rewrite Hs. unfold DialContext.
  eexists _, new, _. split; [reflexivity|].
  split; [|apply wrap32u_range].
  match goal with |- context [dialUDP ?w1 ?t] => destruct (dialUDP w1 t) end;
    discriminate.
Qed.

Lemma dialLoop_dialed (servers rounds : list string)
    (lastErr : option error) (w : World) :
  servers <> [] ->
  exists r i l,
    dialLoop servers rounds lastErr w = (r, dialed i l w)
    /\ r <> Panic
    /\ (uint32_range (serverIndex (resolver w)) -> uint32_range i).
Proof.
  intros Hne. revert lastErr w.
  induction rounds as [|x rounds IH]; intros lastErr w.
  - rewrite dialLoop_nil.
    eexists _, (serverIndex (resolver w)), (dialLog w).
    rewrite dialed_id. split; [reflexivity|]. split; [discriminate|tauto].
  - rewrite dialLoop_cons.
    destruct (dialAttempt_dialed servers w Hne) as (r & i & l & -> & Hr & Hi).
    destruct r as [conn|err|]; [| |congruence].
    + eexists _, i, l. split; [reflexivity|]. split; [discriminate|tauto].
    + destruct (IH (Some err) (dialed i l w))
        as (r' & i' & l' & -> & Hr' & Hi').
      exists r', i', l'. split; [reflexivity|]. split; [exact Hr'|].
      intros _. apply Hi'. exact Hi.
Qed.

(** A call of [Dial] that the standard library makes. *)
Lemma Dial_dialed (w : World) :
  dnsServers (resolver w) <> [] ->
  exists r i l,
    Dial w = (r, dialed i l w)
    /\ r <> Panic
    /\ (uint32_range (serverIndex (resolver w)) -> uint32_range i).
Proof. intros Hne. unfold Dial. apply dialLoop_dialed. exact Hne. Qed.

Lemma dialTimes_dialed (n : nat) (w : World) :
  dnsServers (resolver w) <> [] ->
  exists i l,
    dialTimes n w = (true, dialed i l w)
    /\ (uint32_range (serverIndex (resolver w)) -> uint32_range i).
Proof.
  revert w. induction n as [|n IH]; intros w Hne.
  - exists (serverIndex (resolver w)), (dialLog w). rewrite dialed_id.
    split; [reflexivity|tauto].
  - cbn [dialTimes]. unfold bind.
    destruct (Dial_dialed w Hne) as (r & i & l & -> & Hr & Hi).
    destruct (IH (dialed i l w) Hne) as (i' & l' & E & Hi').
    exists i', l'. split; [|intros H; apply Hi', Hi, H].
    destruct r as [conn|err|]; [exact E|exact E|congruence].
Qed.

(** A lookup changes nothing in the world but the clock and, through the
    calls of [Dial], the counter and the dial log. *)
Lemma afterLookup_dialed (w : World) (host : string) :
  exists i l,
    afterLookup w host = set_clock (lookupDone w host) (dialed i l w)
    /\ (uint32_range (serverIndex (resolver w)) -> uint32_range i).
Proof.
  unfold afterLookup.
  destruct (dnsServers (resolver w)) as [|x servers] eqn:Hsrv.
  - exists (serverIndex (resolver w)), (dialLog w). rewrite dialed_id.
    split; [reflexivity|tauto].
  - assert (Hne : dnsServers (resolver w) <> []) by congruence.
    destruct (dialTimes_dialed (lookupDials w host (clock w)) w Hne)
      as (i & l & -> & Hi).
    exists i, l. split; [reflexivity|exact Hi].
Qed.

(** Without servers the standard library has no [Dial] function to call. *)
Lemma afterLookup_no_servers (w : World) (host : string) :
  dnsServers (resolver w) = [] ->
  afterLookup w host = set_clock (lookupDone w host) w.
Proof. intros H. unfold afterLookup. rewrite H. reflexivity. Qed.

Lemma afterLookup_cache (w : World) (host : string) :
  cache (resolver (afterLookup w host)) = cache (resolver w).
Proof.
  destruct (afterLookup_dialed w host) as (i & l & -> & _). reflexivity.
Qed.

Lemma afterLookup_ttl (w : World) (host : string) :
  ttl (resolver (afterLookup w host)) = ttl (resolver w).
Proof.
  destruct (afterLookup_dialed w host) as (i & l & -> & _). reflexivity.
Qed.

Lemma afterLookup_dnsServers (w : World) (host : string) :
  dnsServers (resolver (afterLookup w host)) = dnsServers (resolver w).
Proof.
  destruct (afterLookup_dialed w host) as (i & l & -> & _). reflexivity.
Qed.

Lemma afterLookup_clock (w : World) (host : string) :
  clock (afterLookup w host) = lookupDone w host.
Proof. reflexivity. Qed.

Lemma afterLookup_spawned (w : World) (host : string) :
  spawned (afterLookup w host) = spawned w.
Proof.
  destruct (afterLookup_dialed w host) as (i & l & -> & _). reflexivity.
Qed.

Lemma afterLookup_network (w : World) (host : string) :
  lookupIP (afterLookup w host) = lookupIP w
  /\ lookupTook (afterLookup w host) = lookupTook w
  /\ dialUDP (afterLookup w host) = dialUDP w
  /\ lookupDials (afterLookup w host) = lookupDials w.
Proof.
  destruct (afterLookup_dialed w host) as (i & l & -> & _).
  repeat split; reflexivity.
Qed.

(** The lookup returns what the network answers; with an [int] of 64 bits
    no call of [Dial] on its way panics. *)
Lemma LookupIP_spec (w : World) (host : string) :
  LookupIP host w =
    (match lookupIP w host (clock w) with
     | Answer addrs => Ok addrs
     | Failure err => Err err
     end,
     afterLookup w host).
Proof.
  unfold LookupIP, afterLookup, lookupDone.
  destruct (dnsServers (resolver w)) as [|x servers] eqn:Hsrv; [reflexivity|].
  assert (Hne : dnsServers (resolver w) <> []) by congruence.
  destruct (dialTimes_dialed (lookupDials w host (clock w)) w Hne)
    as (i & l & -> & _).
  reflexivity.
Qed.

(** From here on the world after a lookup is known by these lemmas only. *)
Opaque afterLookup.

(** *** Reads of a cached host *)

(** A read before the entry expires is served from the cache; a refresh is
    launched exactly when the clock is past [stale]. *)
Lemma lookupHost_hit (w : World) (host : string) (ce : cacheEntry) :
  net.ParseIP host = None ->
  cache (resolver w) !! host = Some ce ->
  clock w < expires ce ->
  lookupHost host w =
    (Ok (ips ce),
     if time.After (clock w) (stale ce)
     then set_spawned (spawned w ++ [host]) w else w).
Proof.
  intros Hip Hce Hlt. unfold lookupHost, lookupHostAmong. rewrite Hip.
  unfold_m. rewrite Hce. apply time_Before_true in Hlt. rewrite Hlt.
  destruct (time.After (clock w) (stale ce)); reflexivity.
Qed.

(** C1, as the code has it: a read at an instant strictly after [stale] and
    before [expires] returns the cached addresses at once and launches
    exactly one refresh of that host; a read at or before [stale] (the
    instant [stale] included) returns them and launches nothing. *)
Theorem lookupHost_stale_hit (w : World) (host : string) (ce : cacheEntry) :
  net.ParseIP host = None ->
  cache (resolver w) !! host = Some ce ->
  clock w < expires ce ->
  (stale ce < clock w ->
   lookupHost host w = (Ok (ips ce), set_spawned (spawned w ++ [host]) w))
  /\ (clock w <= stale ce -> lookupHost host w = (Ok (ips ce), w)).
Proof.
  intros Hip Hce Hlt. rewrite (lookupHost_hit w host ce Hip Hce Hlt).
  split; intros H.
  - apply time_After_true in H. rewrite H. reflexivity.
  - apply time_After_false in H. rewrite H. reflexivity.
Qed.

Lemma lookupHost_stale_hit_witness :
  net.ParseIP "example.com" = None
  /\ cache (resolver (cachedWorld 90)) !! "example.com"
     = Some (newEntry exampleIPs 0 100)
  /\ stale (newEntry exampleIPs 0 100) < clock (cachedWorld 90)
     < expires (newEntry exampleIPs 0 100)
  /\ lookupHost "example.com" (cachedWorld 90)
     = (Ok exampleIPs, set_spawned ["example.com"] (cachedWorld 90)).
Proof.
  assert (Hip : net.ParseIP "example.com" = None) by reflexivity.
  assert (Hce : cache (resolver (cachedWorld 90)) !! "example.com"
                = Some (newEntry exampleIPs 0 100)) by reflexivity.
  assert (Hlt : clock (cachedWorld 90) < expires (newEntry exampleIPs 0 100))
    by (vm_compute; reflexivity).
  assert (Hst : stale (newEntry exampleIPs 0 100) < clock (cachedWorld 90))
    by (vm_compute; reflexivity).
  refine (conj Hip (conj Hce (conj (conj Hst Hlt) _))).
  exact (proj1 (lookupHost_stale_hit (cachedWorld 90) "example.com"
                  (newEntry exampleIPs 0 100) Hip Hce Hlt) Hst).
Defined.

(** C1 as stated fails at the instant [stale] itself: the entry of
    ["example.com"] has [stale = 80] and [expires = 100], the read at 80
    returns the addresses and launches no refresh. *)
Lemma lookupHost_at_stale_no_refresh :
  cache (resolver (cachedWorld 80)) !! "example.com"
    = Some (mkEntry exampleIPs 100 80)
  /\ net.ParseIP "example.com" = None
  /\ 80 <= clock (cachedWorld 80) < 100
  /\ lookupHost "example.com" (cachedWorld 80)
     = (Ok exampleIPs, cachedWorld 80)
  /\ spawned (snd (lookupHost "example.com" (cachedWorld 80))) = [].
Proof.
  repeat split; try reflexivity; vm_compute; congruence.
Qed.

(** *** Resolution *)

Lemma resolveDNS_success (w : World) (host : string) (addrs : list net.IP) :
  lookupIP w host (clock w) = Answer addrs ->
  addrs <> [] ->
  resolveDNS host w =
    (Ok addrs,
     set_resolver
       (set_cache
          (insert host
             (newEntry addrs (lookupDone w host) (ttl (resolver w)))))
       (afterLookup w host)).
Proof.
  intros Hrp Hne. unfold resolveDNS, resolveDNSAmong, bind.
  rewrite LookupIP_spec, Hrp.
  destruct addrs as [|a addrs]; [congruence|]. cbn [length Nat.eqb interfere].
  unfold_m. cbn [interfere]. unfold ret.
  rewrite afterLookup_ttl. reflexivity.
Qed.

Lemma resolveDNS_failure (w : World) (host : string) (err : error) :
  failureOf host (lookupIP w host (clock w)) = Some err ->
  resolveDNS host w = (Err err, afterLookup w host).
Proof.
  intros Hf. unfold resolveDNS, resolveDNSAmong, bind.
  rewrite LookupIP_spec. cbn [interfere]. unfold ret.
  destruct (lookupIP w host (clock w)) as [[|a addrs]|e]; simpl in *;
    inversion Hf; reflexivity.
Qed.

(** What a resolution returns is read off the answer of the network. *)
Lemma resolveDNS_result (w : World) (host : string) :
  fst (resolveDNS host w)
  = match lookupIP w host (clock w) with
    | Failure err => Err (LookupFailed host err)
    | Answer [] => Err (NoRecordsFound host)
    | Answer addrs => Ok addrs
    end.
Proof.
  destruct (lookupIP w host (clock w)) as [[|a addrs]|err] eqn:Hrp.
  - rewrite (resolveDNS_failure w host (NoRecordsFound host))
      by (rewrite Hrp; reflexivity). reflexivity.
  - rewrite (resolveDNS_success w host (a :: addrs) Hrp) by discriminate.
    reflexivity.
  - rewrite (resolveDNS_failure w host (LookupFailed host err))
      by (rewrite Hrp; reflexivity). reflexivity.
Qed.

(** A read at or after [expires] drops the entry and resolves afresh. *)
Lemma lookupHost_expired (w : World) (host : string) (ce : cacheEntry) :
  net.ParseIP host = None ->
  cache (resolver w) !! host = Some ce ->
  expires ce <= clock w ->
  lookupHost host w
    = resolveDNS host (set_resolver (set_cache (delete host)) w).
Proof.
  intros Hip Hce Hle. unfold lookupHost, lookupHostAmong. rewrite Hip.
  unfold_m. rewrite Hce. apply time_Before_false in Hle. rewrite Hle.
  reflexivity.
Qed.

Lemma lookupHost_miss (w : World) (host : string) :
  net.ParseIP host = None ->
  cache (resolver w) !! host = None ->
  lookupHost host w = resolveDNS host w.
Proof.
  intros Hip Hce. unfold lookupHost, lookupHostAmong. rewrite Hip.
  unfold_m. rewrite Hce. reflexivity.
Qed.

(** *** The cache probe *)

Lemma GetCachedIPs_cached (w : World) (host : string) (ce : cacheEntry) :
  cache (resolver w) !! host = Some ce ->
  GetCachedIPs host w =
    if time.After (clock w) (expires ce)
    then (([], false), set_resolver (set_cache (delete host)) w)
    else ((ips ce, true), w).
Proof.
  intros Hce. unfold GetCachedIPs. unfold_m. rewrite Hce.
  destruct (time.After (clock w) (expires ce)); reflexivity.
Qed.

(** After a successful resolution at [t0 = lookupDone w host] under TTL
    [ttl (resolver w)], the probe at instant [t] finds the entry as long as
    [t <= t0 + ttl], the instant [t0 + ttl] included; later it deletes the
    entry and reports nothing. It never resolves or launches anything. *)
Lemma GetCachedIPs_after_resolution
    (w : World) (host : string) (addrs : list net.IP) (t : time.Time) :
  lookupIP w host (clock w) = Answer addrs ->
  addrs <> [] ->
  let w1 := set_clock t (snd (resolveDNS host w)) in
  let T := ttl (resolver w) in
  (t <= lookupDone w host + T -> GetCachedIPs host w1 = ((addrs, true), w1))
  /\ (lookupDone w host + T < t ->
      GetCachedIPs host w1
      = (([], false), set_resolver (set_cache (delete host)) w1)).
Proof.
  intros Hrp Hne w1 T. subst w1 T.
  rewrite (resolveDNS_success w host addrs Hrp Hne). simpl.
  set (e := newEntry addrs (lookupDone w host) (ttl (resolver w))).
  match goal with |- context [GetCachedIPs host ?w1] =>
    assert (Hce : cache (resolver w1) !! host = Some e)
      by (simpl; apply lookup_insert_eq);
    rewrite (GetCachedIPs_cached w1 host e Hce)
  end.
  simpl. unfold time.Add. split; intros H.
  - apply time_After_false in H. rewrite H. reflexivity.
  - apply time_After_true in H. rewrite H. reflexivity.
Qed.

(** C2 at its failing instant: ["example.com"] is resolved at [t0 = 0]
    under a TTL of 100ns; the probe at [t = t0 + 100] still reports the
    entry as found and keeps it, while [lookupHost] at that same instant
    takes the entry for expired, drops it and resolves again. *)
Theorem GetCachedIPs_at_expiry_instant :
  let w1 := set_clock 100 (snd (resolveDNS "example.com" (answeringWorld 100))) in
  fst (resolveDNS "example.com" (answeringWorld 100)) = Ok exampleIPs
  /\ cache (resolver w1) !! "example.com" = Some (mkEntry exampleIPs 100 80)
  /\ GetCachedIPs "example.com" w1 = ((exampleIPs, true), w1)
  /\ lookupHost "example.com" w1
     = resolveDNS "example.com"
         (set_resolver (set_cache (delete "example.com")) w1).
Proof.
  repeat split; reflexivity.
Qed.

(** *** Errors on the way to the caller *)

Lemma resolveAddr_lookup_error (w w' : World)
    (network address host port : string) (portNum : Z) (err : error) :
  net.SplitHostPort address = Ok (host, port) ->
  strconv.Atoi port = Ok portNum ->
  lookupHost host w = (Err err, w') ->
  resolveAddr network address w = (Err err, w').
Proof.
  intros Hs Ha Hl. unfold_resolveAddr. rewrite Hs, Ha.
  unfold bind. rewrite Hl. reflexivity.
Qed.

Lemma ResolveTCPAddr_error (w w' : World) (network address : string)
    (err : error) :
  resolveAddr network address w = (Err err, w') ->
  ResolveTCPAddr network address w = (Err err, w').
Proof. intros H. unfold_Resolve. unfold bind. rewrite H. reflexivity. Qed.

Lemma ResolveUDPAddr_error (w w' : World) (network address : string)
    (err : error) :
  resolveAddr network address w = (Err err, w') ->
  ResolveUDPAddr network address w = (Err err, w').
Proof. intros H. unfold_Resolve. unfold bind. rewrite H. reflexivity. Qed.

(** The steps of other goroutines touch nothing but the resolver, and in
    it nothing but the cache, the TTL and the counter. *)
Lemma amid_frame (l : list other) (w : World) :
  exists r',
    amid l w = set_resolver (fun _ => r') w
    /\ dnsServers r' = dnsServers (resolver w)
    /\ ttl r' = ttlAfter l (ttl (resolver w)).
Proof.
  unfold amid. revert w. induction l as [|o l IH]; intros w.
  - exists (resolver w). destruct w as [[c t s i] ? ? ? ? ? ? ?].
    repeat split; reflexivity.
  - cbn [interfere]. unfold bind.
    assert (E : exists f,
               otherStep o w = (tt, set_resolver f w)
               /\ dnsServers (f (resolver w)) = dnsServers (resolver w)
               /\ ttlAfter (o :: l) (ttl (resolver w))
                  = ttlAfter l (ttl (f (resolver w)))).
    { destruct o as [h e|h|d|]; cbn [otherStep ttlAfter].
      - exists (set_cache (insert h e)). repeat split; reflexivity.
      - exists (set_cache (delete h)). repeat split; reflexivity.
      - exists (set_ttl d). repeat split; reflexivity.
      - exists (set_serverIndex (wrap32u (serverIndex (resolver w) + 1))).
        repeat split; reflexivity. }
    destruct E as (f & -> & Hs & Ht).
    destruct (IH (set_resolver f w)) as (r' & -> & Hs' & Ht').
    exists r'. split; [reflexivity|]. split; [exact (eq_trans Hs' Hs)|].
    rewrite Ht. exact Ht'.
Qed.

Lemma amid_nil (w : World) : amid [] w = w.
Proof. reflexivity. Qed.

Lemma delete_absent (w : World) (host : string) :
  cache (resolver w) !! host = None ->
  set_resolver (set_cache (delete host)) w = w.
Proof.
  intros H. destruct w as [[c t s i] ? ? ? ? ? ? ?]. simpl in *.
  unfold set_resolver, set_cache. simpl. rewrite (delete_id c host H).
  reflexivity.
Qed.

(** A failed resolution stores nothing: it leaves the world as the lookup
    and the other goroutines made it. *)
Lemma resolveDNSAmong_failure (during race : list other) (w : World)
    (host : string) (err : error) :
  failureOf host (lookupIP w host (clock w)) = Some err ->
  resolveDNSAmong during race host w
  = (Err err, amid during (afterLookup w host)).
Proof.
  intros Hf. unfold resolveDNSAmong, bind, amid. rewrite LookupIP_spec.
  destruct (interfere during (afterLookup w host)) as [[] w1].
  destruct (lookupIP w host (clock w)) as [[|a addrs]|e]; simpl in *;
    inversion Hf; reflexivity.
Qed.

Lemma lookupHostAmong_expired (gap during race : list other) (w : World)
    (host : string) (ce : cacheEntry) :
  net.ParseIP host = None ->
  cache (resolver w) !! host = Some ce ->
  expires ce <= clock w ->
  lookupHostAmong gap during race host w
  = resolveDNSAmong during race host
      (set_resolver (set_cache (delete host)) (amid gap w)).
Proof.
  intros Hip Hce Hle. unfold lookupHostAmong, amid. rewrite Hip.
  unfold_m. rewrite Hce. apply time_Before_false in Hle. rewrite Hle.
  destruct (interfere gap w) as [[] w1]. reflexivity.
Qed.

Lemma lookupHostAmong_miss (gap during race : list other) (w : World)
    (host : string) :
  net.ParseIP host = None ->
  cache (resolver w) !! host = None ->
  lookupHostAmong gap during race host w
  = resolveDNSAmong during race host w.
Proof.
  intros Hip Hce. unfold lookupHostAmong. rewrite Hip.
  unfold_m. rewrite Hce. reflexivity.
Qed.

(** A lookup that has to resolve, and whose resolution fails. The entry of
    [host], if there was one, had expired and was dropped before the
    resolution began. *)
Lemma lookupHostAmong_failure (gap during race : list other) (w : World)
    (host : string) (err : error) :
  net.ParseIP host = None ->
  (forall ce, cache (resolver w) !! host = Some ce -> expires ce <= clock w) ->
  failureOf host (lookupIP w host (clock w)) = Some err ->
  lookupHostAmong gap during race host w
  = (Err err,
     amid during
       (afterLookup
          (match cache (resolver w) !! host with
           | Some _ => set_resolver (set_cache (delete host)) (amid gap w)
           | None => w
           end) host)).
Proof.
  intros Hip Hexp Hf.
  destruct (cache (resolver w) !! host) as [ce|] eqn:Hce.
  - rewrite (lookupHostAmong_expired gap during race w host ce Hip Hce
               (Hexp ce eq_refl)).
    apply resolveDNSAmong_failure.
    destruct (amid_frame gap w) as (r' & -> & _). exact Hf.
  - rewrite (lookupHostAmong_miss gap during race w host Hip Hce).
    apply resolveDNSAmong_failure. exact Hf.
Qed.

Lemma lookupHost_failure (w : World) (host : string) (err : error) :
  net.ParseIP host = None ->
  (forall ce, cache (resolver w) !! host = Some ce -> expires ce <= clock w) ->
  failureOf host (lookupIP w host (clock w)) = Some err ->
  lookupHost host w
    = (Err err, afterLookup (set_resolver (set_cache (delete host)) w) host).
Proof.
  intros Hip Hexp Hf. unfold lookupHost.
  rewrite (lookupHostAmong_failure [] [] [] w host err Hip Hexp Hf).
  rewrite !amid_nil.
  destruct (cache (resolver w) !! host) as [ce|] eqn:Hce; [reflexivity|].
  rewrite (delete_absent w host Hce). reflexivity.
Qed.

Lemma resolveAddrAmong_lookup_error (gap during race : list other) (w w' : World)
    (network address host port : string) (portNum : Z) (err : error) :
  net.SplitHostPort address = Ok (host, port) ->
  strconv.Atoi port = Ok portNum ->
  lookupHostAmong gap during race host w = (Err err, w') ->
  resolveAddrAmong gap during race network address w = (Err err, w').
Proof.
  intros Hs Ha Hl. unfold resolveAddrAmong. rewrite Hs, Ha.
  unfold bind. rewrite Hl. reflexivity.
Qed.

(** C3: when the backend fails, or answers with no address, [resolveDNS]
    returns its error and stores nothing: it leaves the world as the
    lookup made it (the clock has advanced, and the calls of [Dial] have
    moved the counter and filled the dial log) and as the other goroutines
    changed it meanwhile; when it runs alone the cache is as before. That
    very error value reaches the caller of [lookupHost], [resolveAddr],
    [ResolveTCPAddr] and [ResolveUDPAddr], whatever other goroutines do to
    the resolver meanwhile. [lookupHost] gets to resolve only if the host
    had no entry, or if its entry had expired, and then it deletes the
    entry before the resolution begins, together with what other
    goroutines stored for the host since the entry was loaded; it creates
    no entry. A refresh running in the background that fails leaves the
    cache, with the entry it was to refresh, untouched. *)
Theorem failed_resolution_propagates (w : World) (host : string)
    (err : error) :
  (exists cause,
     lookupIP w host (clock w) = Failure cause
     /\ err = LookupFailed host cause)
  \/ (lookupIP w host (clock w) = Answer [] /\ err = NoRecordsFound host) ->
  (forall during race,
     resolveDNSAmong during race host w
     = (Err err, amid during (afterLookup w host)))
  /\ fst (resolveDNS host w) = Err err
  /\ cache (resolver (snd (resolveDNS host w))) = cache (resolver w)
  /\ (net.ParseIP host = None ->
      (forall ce, cache (resolver w) !! host = Some ce ->
                  expires ce <= clock w) ->
      (forall gap during race,
         lookupHostAmong gap during race host w
         = (Err err,
            amid during
              (afterLookup
                 (match cache (resolver w) !! host with
                  | Some _ =>
                      set_resolver (set_cache (delete host)) (amid gap w)
                  | None => w
                  end) host))
         /\ forall network address port portNum,
              net.SplitHostPort address = Ok (host, port) ->
              strconv.Atoi port = Ok portNum ->
              resolveAddrAmong gap during race network address w
              = (Err err, snd (lookupHostAmong gap during race host w))
              /\ fst (ResolveTCPAddrAmong gap during race network address w)
                 = Err err
              /\ fst (ResolveUDPAddrAmong gap during race network address w)
                 = Err err)
      /\ fst (lookupHost host w) = Err err
      /\ cache (resolver (snd (lookupHost host w)))
         = delete host (cache (resolver w))
      /\ forall network address port portNum,
           net.SplitHostPort address = Ok (host, port) ->
           strconv.Atoi port = Ok portNum ->
           resolveAddr network address w = (Err err, snd (lookupHost host w))
           /\ fst (ResolveTCPAddr network address w) = Err err
           /\ fst (ResolveUDPAddr network address w) = Err err)
  /\ (forall i, spawned w !! i = Some host ->
        cache (resolver (snd (runSpawned i w))) = cache (resolver w)
        /\ ttl (resolver (snd (runSpawned i w))) = ttl (resolver w)
        /\ spawned (snd (runSpawned i w)) = delete i (spawned w)).
Proof.
  intros Hfail.
  assert (Hf : failureOf host (lookupIP w host (clock w)) = Some err)
    by (destruct Hfail as [(cause & -> & ->) | [-> ->]]; reflexivity).
  pose proof (resolveDNS_failure w host err Hf) as Hr.
  split; [intros during race; apply resolveDNSAmong_failure; exact Hf|].
  split; [rewrite Hr; reflexivity|].
  split; [rewrite Hr; apply afterLookup_cache|].
  split.
  - intros Hip Hexp.
    assert (Hall : forall gap during race,
               lookupHostAmong gap during race host w
               = (Err err,
                  amid during
                    (afterLookup
                       (match cache (resolver w) !! host with
                        | Some _ =>
                            set_resolver (set_cache (delete host))
                              (amid gap w)
                        | None => w
                        end) host))
               /\ forall network address port portNum,
                    net.SplitHostPort address = Ok (host, port) ->
                    strconv.Atoi port = Ok portNum ->
                    resolveAddrAmong gap during race network address w
                    = (Err err, snd (lookupHostAmong gap during race host w))
                    /\ fst (ResolveTCPAddrAmong gap during race network
                              address w) = Err err
                    /\ fst (ResolveUDPAddrAmong gap during race network
                              address w) = Err err).
    { intros gap during race.
      pose proof (lookupHostAmong_failure gap during race w host err Hip
                    Hexp Hf) as Hl.
      split; [exact Hl|].
      intros network address port portNum Hs Ha.
      assert (Hra : resolveAddrAmong gap during race network address w
                    = (Err err,
                       snd (lookupHostAmong gap during race host w))).
      { apply (resolveAddrAmong_lookup_error gap during race w _ network
                 address host port portNum err Hs Ha).
        rewrite Hl. reflexivity. }
      split; [exact Hra|].
      unfold ResolveTCPAddrAmong, ResolveUDPAddrAmong, bind.
      rewrite Hra. split; reflexivity. }
    split; [exact Hall|].
    pose proof (lookupHost_failure w host err Hip Hexp Hf) as Hl.
    split; [rewrite Hl; reflexivity|].
    split; [rewrite Hl; cbn [snd]; apply afterLookup_cache|].
    intros network address port portNum Hs Ha.
    exact (proj2 (Hall [] [] []) network address port portNum Hs Ha).
  - intros i Hi. unfold runSpawned. rewrite Hi. cbn [snd].
    rewrite (resolveDNS_failure
               (set_spawned (delete i (spawned w)) w) host err Hf).
    cbn [snd].
    rewrite afterLookup_cache, afterLookup_ttl, afterLookup_spawned.
    repeat split; reflexivity.
Qed.

Lemma failed_resolution_propagates_witness :
  lookupIP (cachedWorld 100) "example.com" (clock (cachedWorld 100))
  = Failure (External "no such host")
  /\ fst (resolveDNS "example.com" (cachedWorld 100))
     = Err (LookupFailed "example.com" (External "no such host")).
Proof.
  assert (Hf : lookupIP (cachedWorld 100) "example.com"
                 (clock (cachedWorld 100))
               = Failure (External "no such host")) by reflexivity.
  exact (conj Hf
           (proj1 (proj2 (failed_resolution_propagates (cachedWorld 100)
                            "example.com" _
                            (or_introl
                               (ex_intro _ (External "no such host")
                                  (conj Hf eq_refl))))))).
Defined.

(** *** Literal addresses *)

Lemma lookupHost_literal (w : World) (host : string) (ip : net.IP) :
  net.ParseIP host = Some ip -> lookupHost host w = (Ok [ip], w).
Proof.
  intros H. unfold lookupHost, lookupHostAmong. rewrite H. reflexivity.
Qed.

(** What [resolveAddr] makes of the list [lookupHost] returned. *)
Lemma resolveAddr_after_lookup (w w' : World)
    (network address host port : string) (portNum : Z)
    (addrs : list net.IP) :
  net.SplitHostPort address = Ok (host, port) ->
  strconv.Atoi port = Ok portNum ->
  lookupHost host w = (Ok addrs, w') ->
  resolveAddr network address w =
    (if isV4Network network then
       match selectIPv4 addrs with
       | Some ip => Ok (ip, portNum)
       | None => Err (NoIPv4Found host)
       end
     else if isV6Network network then
       match selectIPv6 addrs with
       | Some ip => Ok (ip, portNum)
       | None => Err (NoIPv6Found host)
       end
     else
       match addrs with
       | ip :: _ => Ok (ip, portNum)
       | [] => Panic
       end,
     w').
Proof.
  intros Hs Ha Hl. unfold_resolveAddr. unfold isV4Network, isV6Network.
  rewrite Hs, Ha. unfold bind. rewrite Hl. unfold ret.
  destruct (String.eqb network "tcp4" || String.eqb network "udp4").
  { destruct (selectIPv4 addrs); reflexivity. }
  destruct (String.eqb network "tcp6" || String.eqb network "udp6").
  { destruct (selectIPv6 addrs); reflexivity. }
  destruct addrs; reflexivity.
Qed.

(** C4, as the code has it: a host that parses as a literal address is
    answered by [lookupHost] with that single address, whatever the cache
    holds, and the world, the cache and its count included, stays as it
    was. [resolveAddr] hands the address on when it passes the family filter
    of the network: always for the networks without a family, for
    ["tcp4"]/["udp4"] only if it has a 4-byte form, for ["tcp6"]/["udp6"]
    only if it has none; otherwise it fails with [NoIPv4Found] or
    [NoIPv6Found], the cache still untouched. *)
Theorem literal_IP_bypasses_cache (w : World) (host : string) (ip : net.IP) :
  net.ParseIP host = Some ip ->
  lookupHost host w = (Ok [ip], w)
  /\ forall network address port portNum,
       net.SplitHostPort address = Ok (host, port) ->
       strconv.Atoi port = Ok portNum ->
       snd (resolveAddr network address w) = w
       /\ fst (CacheCount (snd (resolveAddr network address w)))
          = fst (CacheCount w)
       /\ fst (resolveAddr network address w) =
            if isV4Network network then
              match net.To4 ip with
              | Some _ => Ok (ip, portNum)
              | None => Err (NoIPv4Found host)
              end
            else if isV6Network network then
              match net.To4 ip, net.To16 ip with
              | None, Some _ => Ok (ip, portNum)
              | _, _ => Err (NoIPv6Found host)
              end
            else Ok (ip, portNum).
Proof.
  intros Hip. pose proof (lookupHost_literal w host ip Hip) as Hl.
  split; [exact Hl|].
  intros network address port portNum Hs Ha.
  rewrite (resolveAddr_after_lookup w w network address host port portNum
             [ip] Hs Ha Hl).
  simpl. split; [reflexivity|]. split; [reflexivity|].
  destruct (isV4Network network).
  { destruct (net.To4 ip); reflexivity. }
  destruct (isV6Network network); [|reflexivity].
  destruct (net.To4 ip); [reflexivity|]. destruct (net.To16 ip); reflexivity.
Qed.

Lemma literal_IP_bypasses_cache_witness :
  net.ParseIP "93.184.216.34" = Some (net.IPv4 93 184 216 34)
  /\ lookupHost "93.184.216.34" (cachedWorld 0)
     = (Ok [net.IPv4 93 184 216 34], cachedWorld 0).
Proof.
  assert (Hip : net.ParseIP "93.184.216.34" = Some (net.IPv4 93 184 216 34))
    by reflexivity.
  exact (conj Hip (proj1 (literal_IP_bypasses_cache (cachedWorld 0)
                            "93.184.216.34" _ Hip))).
Defined.

(** C4 as stated fails when the literal is not of the family the network
    asks for: ["::1"] parses as an address, yet [resolveAddr] on ["tcp4"]
    returns no address but [NoIPv4Found]; likewise ["93.184.216.34"] on
    ["tcp6"]. *)
Lemma literal_IP_of_other_family_fails :
  net.ParseIP "::1" = Some [0; 0; 0; 0; 0; 0; 0; 0; 0; 0; 0; 0; 0; 0; 0; 1]
  /\ net.SplitHostPort "[::1]:80" = Ok ("::1", "80")
  /\ resolveAddr "tcp4" "[::1]:80" (cachedWorld 0)
     = (Err (NoIPv4Found "::1"), cachedWorld 0)
  /\ net.ParseIP "93.184.216.34" = Some (net.IPv4 93 184 216 34)
  /\ resolveAddr "tcp6" "93.184.216.34:80" (cachedWorld 0)
     = (Err (NoIPv6Found "93.184.216.34"), cachedWorld 0).
Proof.
  split; [reflexivity|]. split; [reflexivity|]. split; [reflexivity|].
  split; reflexivity.
Qed.

(** *** Selection by address family *)

Lemma selectIPv4_Some (addrs : list net.IP) (ip : net.IP) :
  selectIPv4 addrs = Some ip -> firstWith hasV4 addrs ip.
Proof.
  induction addrs as [|a addrs IH]; simpl; [discriminate|].
  destruct (net.To4 a) eqn:Ha; intros H.
  - inversion H; subst. exists [], addrs. split; [reflexivity|].
    split; [constructor|]. unfold hasV4. congruence.
  - destruct (IH H) as (pre & post & -> & Hpre & Hip).
    exists (a :: pre), post. split; [reflexivity|]. split; [|exact Hip].
    constructor; [|exact Hpre]. unfold hasV4. congruence.
Qed.

Lemma selectIPv4_None (addrs : list net.IP) :
  selectIPv4 addrs = None -> Forall (fun a => ~ hasV4 a) addrs.
Proof.
  induction addrs as [|a addrs IH]; simpl; intros H; [constructor|].
  destruct (net.To4 a) eqn:Ha; [discriminate|].
  constructor; [|exact (IH H)]. unfold hasV4. congruence.
Qed.

Lemma selectIPv6_Some (addrs : list net.IP) (ip : net.IP) :
  selectIPv6 addrs = Some ip -> firstWith isV6 addrs ip.
Proof.
  induction addrs as [|a addrs IH]; simpl; [discriminate|].
  destruct (net.To4 a) eqn:Ha4; [|destruct (net.To16 a) eqn:Ha16]; intros H.
  - destruct (IH H) as (pre & post & -> & Hpre & Hip).
    exists (a :: pre), post. split; [reflexivity|]. split; [|exact Hip].
    constructor; [|exact Hpre]. unfold isV6. intros [? _]. congruence.
  - inversion H; subst. exists [], addrs. split; [reflexivity|].
    split; [constructor|]. unfold isV6. split; congruence.
  - destruct (IH H) as (pre & post & -> & Hpre & Hip).
    exists (a :: pre), post. split; [reflexivity|]. split; [|exact Hip].
    constructor; [|exact Hpre]. unfold isV6. intros [_ ?]. congruence.
Qed.

Lemma selectIPv6_None (addrs : list net.IP) :
  selectIPv6 addrs = None -> Forall (fun a => ~ isV6 a) addrs.
Proof.
  induction addrs as [|a addrs IH]; simpl; intros H; [constructor|].
  destruct (net.To4 a) eqn:Ha4; [|destruct (net.To16 a) eqn:Ha16].
  - constructor; [|exact (IH H)]. unfold isV6. intros [? _]. congruence.
  - discriminate.
  - constructor; [|exact (IH H)]. unfold isV6. intros [_ ?]. congruence.
Qed.

(** C5: on a non-empty list of resolved addresses, ["tcp4"]/["udp4"] yield
    the first address, in the order of the list, that has a 4-byte form, or
    [NoIPv4Found] if no address has one; ["tcp6"]/["udp6"] yield the first
    address without a 4-byte but with a 16-byte form, or [NoIPv6Found];
    ["tcp"]/["udp"] yield the head of the list. The port is the parsed
    one, the world the one [lookupHost] left. *)
Theorem resolveAddr_family (w w' : World)
    (network address host port : string) (portNum : Z)
    (addrs : list net.IP) :
  net.SplitHostPort address = Ok (host, port) ->
  strconv.Atoi port = Ok portNum ->
  lookupHost host w = (Ok addrs, w') ->
  addrs <> [] ->
  (network = "tcp4" \/ network = "udp4" ->
   (exists ip, firstWith hasV4 addrs ip
               /\ resolveAddr network address w = (Ok (ip, portNum), w'))
   \/ (Forall (fun a => ~ hasV4 a) addrs
       /\ resolveAddr network address w = (Err (NoIPv4Found host), w')))
  /\ (network = "tcp6" \/ network = "udp6" ->
      (exists ip, firstWith isV6 addrs ip
                  /\ resolveAddr network address w = (Ok (ip, portNum), w'))
      \/ (Forall (fun a => ~ isV6 a) addrs
          /\ resolveAddr network address w = (Err (NoIPv6Found host), w')))
  /\ (network = "tcp" \/ network = "udp" ->
      exists ip rest,
        addrs = ip :: rest
        /\ resolveAddr network address w = (Ok (ip, portNum), w')).
Proof.
  intros Hs Ha Hl Hne.
  rewrite (resolveAddr_after_lookup w w' network address host port portNum
             addrs Hs Ha Hl).
  split; [|split].
  - intros Hn.
    assert (Hv4 : isV4Network network = true)
      by (destruct Hn as [-> | ->]; reflexivity).
    rewrite Hv4. destruct (selectIPv4 addrs) as [ip|] eqn:Hsel.
    + left. exists ip. split; [exact (selectIPv4_Some _ _ Hsel)|reflexivity].
    + right. split; [exact (selectIPv4_None _ Hsel)|reflexivity].
  - intros Hn.
    assert (Hv4 : isV4Network network = false)
      by (destruct Hn as [-> | ->]; reflexivity).
    assert (Hv6 : isV6Network network = true)
      by (destruct Hn as [-> | ->]; reflexivity).
    rewrite Hv4, Hv6. destruct (selectIPv6 addrs) as [ip|] eqn:Hsel.
    + left. exists ip. split; [exact (selectIPv6_Some _ _ Hsel)|reflexivity].
    + right. split; [exact (selectIPv6_None _ Hsel)|reflexivity].
  - intros Hn.
    assert (Hv4 : isV4Network network = false)
      by (destruct Hn as [-> | ->]; reflexivity).
    assert (Hv6 : isV6Network network = false)
      by (destruct Hn as [-> | ->]; reflexivity).
    rewrite Hv4, Hv6. destruct addrs as [|ip rest]; [congruence|].
    exists ip, rest. split; reflexivity.
Qed.

Lemma resolveAddr_family_witness :
  net.SplitHostPort "example.com:443" = Ok ("example.com", "443")
  /\ strconv.Atoi "443" = Ok 443
  /\ lookupHost "example.com" dualStackWorld = (Ok dualStackIPs, dualStackWorld)
  /\ dualStackIPs <> []
  /\ ((exists ip,
         firstWith hasV4 dualStackIPs ip
         /\ resolveAddr "tcp4" "example.com:443" dualStackWorld
            = (Ok (ip, 443), dualStackWorld))
      \/ (Forall (fun a => ~ hasV4 a) dualStackIPs
          /\ resolveAddr "tcp4" "example.com:443" dualStackWorld
             = (Err (NoIPv4Found "example.com"), dualStackWorld))).
Proof.
  assert (Hs : net.SplitHostPort "example.com:443"
               = Ok ("example.com", "443")) by reflexivity.
  assert (Ha : strconv.Atoi "443" = Ok 443) by reflexivity.
  assert (Hl : lookupHost "example.com" dualStackWorld
               = (Ok dualStackIPs, dualStackWorld)) by reflexivity.
  assert (Hne : dualStackIPs <> []) by discriminate.
  refine (conj Hs (conj Ha (conj Hl (conj Hne _)))).
  exact (proj1 (resolveAddr_family dualStackWorld dualStackWorld "tcp4"
                  "example.com:443" "example.com" "443" 443 dualStackIPs
                  Hs Ha Hl Hne) (or_introl eq_refl)).
Defined.

Lemma eqb_false_of_ne (a b : string) : a <> b -> String.eqb a b = false.
Proof. intros H. apply String.eqb_neq. exact H. Qed.

(** C9: the network is not validated. Every network other than ["tcp4"],
    ["udp4"], ["tcp6"] and ["udp6"], known or not, is treated as ["tcp"] and
    ["udp"] are: [resolveAddr] does on it exactly what it does on those, and
    returns the head of the list [lookupHost] resolved. *)
Theorem resolveAddr_unrecognized_network (w : World)
    (network address : string) :
  network <> "tcp4" -> network <> "udp4" ->
  network <> "tcp6" -> network <> "udp6" ->
  resolveAddr network address w = resolveAddr "tcp" address w
  /\ resolveAddr network address w = resolveAddr "udp" address w
  /\ forall host port portNum ip rest w',
       net.SplitHostPort address = Ok (host, port) ->
       strconv.Atoi port = Ok portNum ->
       lookupHost host w = (Ok (ip :: rest), w') ->
       resolveAddr network address w = (Ok (ip, portNum), w').
Proof.
  intros H1 H2 H3 H4.
  assert (E : forall n' : string,
             n' = "tcp" \/ n' = "udp" ->
             resolveAddr network address w = resolveAddr n' address w).
  { intros n' Hn'. unfold_resolveAddr.
    rewrite (eqb_false_of_ne _ _ H1), (eqb_false_of_ne _ _ H2),
      (eqb_false_of_ne _ _ H3), (eqb_false_of_ne _ _ H4).
    destruct Hn' as [-> | ->]; reflexivity. }
  split; [apply E; left; reflexivity|].
  split; [apply E; right; reflexivity|].
  intros host port portNum ip rest w' Hs Ha Hl.
  rewrite (resolveAddr_after_lookup w w' network address host port portNum
             (ip :: rest) Hs Ha Hl).
  unfold isV4Network, isV6Network.
  rewrite (eqb_false_of_ne _ _ H1), (eqb_false_of_ne _ _ H2),
    (eqb_false_of_ne _ _ H3), (eqb_false_of_ne _ _ H4).
  reflexivity.
Qed.

Lemma resolveAddr_unrecognized_network_witness :
  "carrier pigeon" <> "tcp4" /\ "carrier pigeon" <> "udp4"
  /\ "carrier pigeon" <> "tcp6" /\ "carrier pigeon" <> "udp6"
  /\ resolveAddr "carrier pigeon" "example.com:443" dualStackWorld
     = resolveAddr "tcp" "example.com:443" dualStackWorld.
Proof.
  assert (H1 : "carrier pigeon" <> "tcp4") by discriminate.
  assert (H2 : "carrier pigeon" <> "udp4") by discriminate.
  assert (H3 : "carrier pigeon" <> "tcp6") by discriminate.
  assert (H4 : "carrier pigeon" <> "udp6") by discriminate.
  refine (conj H1 (conj H2 (conj H3 (conj H4 _)))).
  exact (proj1 (resolveAddr_unrecognized_network dualStackWorld
                  "carrier pigeon" "example.com:443" H1 H2 H3 H4)).
Defined.

(** *** The port *)

Lemma digit_val_range (c : ascii) : is_digit c = true -> 0 <= digit_val c <= 9.
Proof.
  unfold is_digit, digit_val. intros H.
  apply andb_true_iff in H. destruct H as [H1 H2].
  apply Z.leb_le in H1. apply Z.leb_le in H2. lia.
Qed.

Lemma parseDigits_Ok (s : string) (acc n : Z) :
  0 <= acc <= maxUint64 ->
  strconv.parseDigits acc s = Ok n ->
  allDigits s = true /\ 0 <= n <= maxUint64.
Proof.
  revert acc. induction s as [|c s IH]; simpl; intros acc Hacc H.
  - inversion H; subst. split; [reflexivity|exact Hacc].
  - destruct (is_digit c) eqn:Hc; [|discriminate].
    destruct (acc >=? maxUint64 / 10 + 1); [discriminate|].
    destruct (acc * 10 + digit_val c >? maxUint64) eqn:Hov; [discriminate|].
    pose proof (digit_val_range c Hc) as Hd.
    assert (Hle : acc * 10 + digit_val c <= maxUint64)
      by (rewrite Z.gtb_ltb in Hov; apply Z.ltb_ge in Hov; exact Hov).
    apply IH in H; [|lia]. destruct H as [Hall Hn].
    split; [simpl; exact Hall|exact Hn].
Qed.

Lemma parseDigits_not_digits (s : string) (acc : Z) :
  allDigits s = false -> exists k, strconv.parseDigits acc s = Err k.
Proof.
  revert acc. induction s as [|c s IH]; simpl; intros acc H; [discriminate|].
  destruct (is_digit c); simpl in H.
  - destruct (acc >=? maxUint64 / 10 + 1); [eauto|].
    destruct (acc * 10 + digit_val c >? maxUint64); [eauto|].
    apply IH. exact H.
  - eauto.
Qed.

Lemma ParseUint_Ok (s : string) (n : Z) :
  strconv.ParseUint s = Ok n ->
  String.eqb s "" = false /\ allDigits s = true /\ 0 <= n <= maxUint64.
Proof.
  unfold strconv.ParseUint. destruct s as [|c s]; [discriminate|].
  intros H. split; [reflexivity|].
  apply (parseDigits_Ok _ 0 n); [unfold maxUint64; lia|exact H].
Qed.

Lemma ParseUint_not_decimal (s : string) :
  negb (String.eqb s "") && allDigits s = false ->
  exists k, strconv.ParseUint s = Err k.
Proof.
  unfold strconv.ParseUint. destruct s as [|c s]; [eauto|].
  intros H. apply parseDigits_not_digits. exact H.
Qed.

(** [Atoi] accepts nothing but an optional sign and decimal digits, and
    what it accepts lies in the range of [int]. *)
Lemma Atoi_Ok (s : string) (n : Z) :
  strconv.Atoi s = Ok n -> isDecimal s = true /\ minInt64 <= n <= maxInt64.
Proof.
  unfold strconv.Atoi, strconv.ParseInt, isDecimal.
  destruct s as [|c rest]; [discriminate|].
  set (body := if Ascii.eqb c "+" || Ascii.eqb c "-" then rest
               else String c rest).
  destruct (strconv.ParseUint body) as [un| |] eqn:Hu; [|discriminate..].
  apply ParseUint_Ok in Hu. destruct Hu as (Hne & Hall & Hun).
  rewrite Hne, Hall.
  change (2 ^ (IntSize - 1)) with (2 ^ 63).
  destruct (Ascii.eqb c "-") eqn:Hneg; simpl.
  - destruct (un >? 2 ^ 63) eqn:Hb; [discriminate|].
    intros H. inversion H; subst. split; [reflexivity|].
    rewrite Z.gtb_ltb in Hb. apply Z.ltb_ge in Hb.
    unfold minInt64, maxInt64. lia.
  - destruct (un >=? 2 ^ 63) eqn:Hb; [discriminate|].
    intros H. inversion H; subst. split; [reflexivity|].
    rewrite Z.geb_leb in Hb. apply Z.leb_gt in Hb.
    unfold minInt64, maxInt64. lia.
Qed.

Lemma Atoi_not_decimal (s : string) :
  isDecimal s = false -> exists err, strconv.Atoi s = Err err.
Proof.
  unfold strconv.Atoi, strconv.ParseInt, isDecimal.
  destruct s as [|c rest]; [eauto|].
  set (body := if Ascii.eqb c "+" || Ascii.eqb c "-" then rest
               else String c rest).
  intros H. destruct (ParseUint_not_decimal body H) as [k Hk].
  rewrite Hk. eauto.
Qed.

Lemma digitsValue_ge (s : string) (acc n : Z) :
  0 <= acc -> digitsValue acc s = Some n -> acc <= n.
Proof.
  revert acc. induction s as [|c s IH]; simpl; intros acc Hacc H.
  - inversion H. lia.
  - destruct (is_digit c) eqn:Hc; [|discriminate].
    pose proof (digit_val_range c Hc) as Hd.
    apply IH in H; lia.
Qed.

(** The digit loop succeeds exactly on the digit strings whose value fits
    [uint64], with that value. *)
Lemma parseDigits_value (s : string) (acc n : Z) :
  0 <= acc <= maxUint64 ->
  strconv.parseDigits acc s = Ok n
  <-> digitsValue acc s = Some n /\ n <= maxUint64.
Proof.
  revert acc. induction s as [|c s IH]; simpl; intros acc Hacc.
  - split.
    + intros H. inversion H; subst. split; [reflexivity|lia].
    + intros [H _]. inversion H. reflexivity.
  - destruct (is_digit c) eqn:Hc.
    + pose proof (digit_val_range c Hc) as Hd.
      destruct (acc >=? maxUint64 / 10 + 1) eqn:Hcut.
      * split; [discriminate|]. intros [H Hn]. exfalso.
        apply digitsValue_ge in H; [|lia].
        rewrite Z.geb_leb in Hcut. apply Z.leb_le in Hcut.
        change (maxUint64 / 10 + 1) with 1844674407370955162 in Hcut.
        change maxUint64 with 18446744073709551615 in *. lia.
      * destruct (acc * 10 + digit_val c >? maxUint64) eqn:Hov.
        -- split; [discriminate|]. intros [H Hn]. exfalso.
           apply digitsValue_ge in H; [|lia].
           rewrite Z.gtb_ltb in Hov. apply Z.ltb_lt in Hov. lia.
        -- apply IH. rewrite Z.gtb_ltb in Hov. apply Z.ltb_ge in Hov. lia.
    + split; [discriminate|]. intros [H _]. discriminate.
Qed.

(** On a digit string whose value leaves [uint64] it reports a range
    error; on anything but a digit string it reports some error. *)
Lemma parseDigits_too_large (s : string) (acc n : Z) :
  0 <= acc <= maxUint64 ->
  digitsValue acc s = Some n -> maxUint64 < n ->
  strconv.parseDigits acc s = Err strconv.ErrRange.
Proof.
  revert acc. induction s as [|c s IH]; simpl; intros acc Hacc H Hn.
  - inversion H. lia.
  - destruct (is_digit c) eqn:Hc; [|discriminate].
    pose proof (digit_val_range c Hc) as Hd.
    destruct (acc >=? maxUint64 / 10 + 1); [reflexivity|].
    destruct (acc * 10 + digit_val c >? maxUint64) eqn:Hov; [reflexivity|].
    apply IH; [|exact H|exact Hn].
    rewrite Z.gtb_ltb in Hov. apply Z.ltb_ge in Hov. lia.
Qed.

Lemma parseDigits_no_value (s : string) (acc : Z) :
  digitsValue acc s = None -> exists k, strconv.parseDigits acc s = Err k.
Proof.
  revert acc. induction s as [|c s IH]; simpl; intros acc H; [discriminate|].
  destruct (is_digit c); [|eauto].
  destruct (acc >=? maxUint64 / 10 + 1); [eauto|].
  destruct (acc * 10 + digit_val c >? maxUint64); [eauto|].
  apply IH. exact H.
Qed.

(** The shape of a port that [decimalValue] reads: the sign, if any, and
    the digits. *)
Lemma decimalValue_inv (s : string) (n : Z) :
  decimalValue s = Some n ->
  exists c rest body v,
    s = String c rest
    /\ body = (if Ascii.eqb c "+" || Ascii.eqb c "-" then rest else s)
    /\ body <> EmptyString
    /\ digitsValue 0 body = Some v
    /\ 0 <= v
    /\ n = (if Ascii.eqb c "-" then - v else v).
Proof.
  unfold decimalValue. destruct s as [|c rest]; [discriminate|].
  set (body := if Ascii.eqb c "+" || Ascii.eqb c "-" then rest
               else String c rest).
  intros H. destruct body as [|c' b'] eqn:Hb; [discriminate|].
  destruct (digitsValue 0 (String c' b')) as [v|] eqn:Hv; [|discriminate].
  inversion H. exists c, rest, (String c' b'), v.
  split; [reflexivity|]. split; [subst body; congruence|].
  split; [discriminate|]. split; [exact Hv|].
  split; [|reflexivity].
  apply (digitsValue_ge (String c' b') 0 v); [lia|exact Hv].
Qed.

(** [Atoi] accepts exactly the decimal numbers, signed or not, that lie in
    the range of [int], and returns their value. *)
Lemma Atoi_value (s : string) (n : Z) :
  strconv.Atoi s = Ok n
  <-> decimalValue s = Some n /\ minInt <= n <= maxInt.
Proof.
  unfold strconv.Atoi, strconv.ParseInt, strconv.ParseUint, decimalValue,
    minInt, maxInt.
  change (2 ^ (IntSize - 1)) with (2 ^ 63).
  destruct s as [|c rest]; [split; [discriminate|intros [H _]; discriminate]|].
  set (body := if Ascii.eqb c "+" || Ascii.eqb c "-" then rest
               else String c rest).
  destruct body as [|c' b'] eqn:Hb;
    [split; [discriminate|intros [H _]; discriminate]|].
  assert (H0 : 0 <= 0 <= maxUint64) by (unfold maxUint64; lia).
  pose proof (fun v => parseDigits_value (String c' b') 0 v H0) as Hpd.
  destruct (digitsValue 0 (String c' b')) as [v|] eqn:Hv.
  - pose proof (digitsValue_ge _ 0 v (Z.le_refl 0) Hv) as Hv0.
    destruct (Z.le_gt_cases v maxUint64) as [Hle|Hgt].
    + rewrite (proj2 (Hpd v) (conj eq_refl Hle)).
      destruct (Ascii.eqb c "-") eqn:Hneg; cbn [negb andb option_map].
      * destruct (v >? 2 ^ 63) eqn:Hc.
        -- rewrite Z.gtb_ltb in Hc. apply Z.ltb_lt in Hc.
           split; [discriminate|]. intros [H Hr]. inversion H. lia.
        -- rewrite Z.gtb_ltb in Hc. apply Z.ltb_ge in Hc.
           split.
           ++ intros H. inversion H. split; [reflexivity|lia].
           ++ intros [H _]. inversion H. reflexivity.
      * destruct (v >=? 2 ^ 63) eqn:Hc.
        -- rewrite Z.geb_leb in Hc. apply Z.leb_le in Hc.
           split; [discriminate|]. intros [H Hr]. inversion H. lia.
        -- rewrite Z.geb_leb in Hc. apply Z.leb_gt in Hc.
           split.
           ++ intros H. inversion H. split; [reflexivity|lia].
           ++ intros [H _]. inversion H. reflexivity.
    + rewrite (parseDigits_too_large _ 0 v H0 Hv Hgt).
      split; [discriminate|]. intros [H Hr]. exfalso.
      cbn [option_map] in H. inversion H.
      unfold maxUint64 in Hgt. destruct (Ascii.eqb c "-"); lia.
  - destruct (parseDigits_no_value _ 0 Hv) as [k ->].
    split; [discriminate|]. intros [H _]. discriminate.
Qed.

(** A decimal number outside the range of [int] is rejected with a range
    error. *)
Lemma Atoi_out_of_range (s : string) (n : Z) :
  decimalValue s = Some n -> ~ (minInt <= n <= maxInt) ->
  strconv.Atoi s = Err (strconv.mkNumError s strconv.ErrRange).
Proof.
  intros Hd Hr.
  destruct (decimalValue_inv s n Hd)
    as (c & rest & body & v & -> & Hb & Hne & Hv & Hv0 & ->).
  unfold strconv.Atoi, strconv.ParseInt. cbv zeta. rewrite <- Hb.
  unfold minInt, maxInt in Hr. change (2 ^ (IntSize - 1)) with (2 ^ 63) in *.
  assert (H0 : 0 <= 0 <= maxUint64) by (unfold maxUint64; lia).
  assert (Hbody : strconv.ParseUint body = strconv.parseDigits 0 body)
    by (unfold strconv.ParseUint; destruct body; [congruence|reflexivity]).
  rewrite Hbody.
  destruct (Z.le_gt_cases v maxUint64) as [Hle|Hgt].
  - rewrite (proj2 (parseDigits_value body 0 v H0) (conj Hv Hle)).
    destruct (Ascii.eqb c "-") eqn:Hneg; cbn [negb andb].
    + assert (Hc : (v >? 2 ^ 63) = true)
        by (rewrite Z.gtb_ltb; apply Z.ltb_lt; lia).
      rewrite Hc. reflexivity.
    + assert (Hc : (v >=? 2 ^ 63) = true)
        by (rewrite Z.geb_leb; apply Z.leb_le; lia).
      rewrite Hc. reflexivity.
  - rewrite (parseDigits_too_large body 0 v H0 Hv Hgt). reflexivity.
Qed.

(** Anything that is no decimal number is rejected. *)
Lemma Atoi_no_value (s : string) :
  decimalValue s = None ->
  exists k, strconv.Atoi s = Err (strconv.mkNumError s k).
Proof.
  unfold strconv.Atoi, strconv.ParseInt, strconv.ParseUint, decimalValue.
  destruct s as [|c rest]; [eauto|].
  set (body := if Ascii.eqb c "+" || Ascii.eqb c "-" then rest
               else String c rest).
  destruct body as [|c' b'] eqn:Hb; [eauto|].
  destruct (digitsValue 0 (String c' b')) as [v|] eqn:Hv; [discriminate|].
  intros _. destruct (parseDigits_no_value _ 0 Hv) as [k ->]. eauto.
Qed.

Lemma resolveAddrAmong_after_lookup (gap during race : list other) (w : World)
    (network address host port : string) (portNum : Z) :
  net.SplitHostPort address = Ok (host, port) ->
  strconv.Atoi port = Ok portNum ->
  resolveAddrAmong gap during race network address w
  = (selected network host portNum (fst (lookupHostAmong gap during race host w)),
     snd (lookupHostAmong gap during race host w)).
Proof.
  intros Hs Ha. unfold resolveAddrAmong, selected, isV4Network, isV6Network.
  rewrite Hs, Ha. unfold bind.
  destruct (lookupHostAmong gap during race host w) as [[addrs|err|] w'];
    cbn [fst snd]; unfold ret; [|reflexivity..].
  destruct (String.eqb network "tcp4" || String.eqb network "udp4").
  { destruct (selectIPv4 addrs); reflexivity. }
  destruct (String.eqb network "tcp6" || String.eqb network "udp6").
  { destruct (selectIPv6 addrs); reflexivity. }
  destruct addrs; reflexivity.
Qed.

(** C7, as the code has it: the port is parsed on its own by
    [strconv.Atoi], before the host is looked at. [Atoi] accepts exactly
    the decimal numbers, with an optional sign, that lie in the range of
    [int], and returns their value: there is no check that the number is
    not negative, or that it is a port number at all. A decimal number
    beyond the range of [int] is rejected with a range error, any other
    string with some error; a rejected port makes [resolveAddr] fail with
    [InvalidPort] around that error and leaves the world alone, without
    any lookup. An accepted port is handed on as it is: [resolveAddr]
    returns what the family selection makes of the result of [lookupHost],
    with the value of the port. *)
Theorem resolveAddr_port (w : World) (network address host port : string) :
  net.SplitHostPort address = Ok (host, port) ->
  (forall n, strconv.Atoi port = Ok n
             <-> decimalValue port = Some n /\ minInt <= n <= maxInt)
  /\ (forall n, decimalValue port = Some n -> ~ (minInt <= n <= maxInt) ->
        strconv.Atoi port
        = Err (strconv.mkNumError port strconv.ErrRange))
  /\ (decimalValue port = None ->
      exists k, strconv.Atoi port = Err (strconv.mkNumError port k))
  /\ (isDecimal port = false -> exists err, strconv.Atoi port = Err err)
  /\ (forall err, strconv.Atoi port = Err err ->
        forall gap during race,
          resolveAddrAmong gap during race network address w
          = (Err (InvalidPort port err), w))
  /\ (forall n, strconv.Atoi port = Ok n ->
        isDecimal port = true
        /\ minInt64 <= n <= maxInt64
        /\ (forall gap during race,
              resolveAddrAmong gap during race network address w
              = (selected network host n
                   (fst (lookupHostAmong gap during race host w)),
                 snd (lookupHostAmong gap during race host w)))
        /\ (forall gap during race ip rest w',
              lookupHostAmong gap during race host w = (Ok (ip :: rest), w') ->
              isV4Network network = false ->
              isV6Network network = false ->
              resolveAddrAmong gap during race network address w = (Ok (ip, n), w'))
        /\ forall ip p w',
             resolveAddr network address w = (Ok (ip, p), w') -> p = n).
Proof.
  intros Hs.
  split; [intros n; apply Atoi_value|].
  split; [intros n; apply Atoi_out_of_range|].
  split; [apply Atoi_no_value|].
  split; [apply Atoi_not_decimal|].
  split.
  - intros err Ha gap during race. unfold resolveAddrAmong. rewrite Hs, Ha.
    reflexivity.
  - intros n Ha. destruct (Atoi_Ok port n Ha) as [Hd Hr].
    split; [exact Hd|]. split; [exact Hr|].
    pose proof (fun gap during race =>
                  resolveAddrAmong_after_lookup gap during race w network
                    address
                    host port n Hs Ha) as Hsel.
    split; [exact Hsel|]. split.
    + intros gap during race ip rest w' Hl H4 H6. rewrite Hsel, Hl.
      unfold selected. cbn [fst snd]. rewrite H4, H6. reflexivity.
    + intros ip p w' H. unfold resolveAddr in H. rewrite Hsel in H.
      unfold selected in H.
      destruct (fst (lookupHostAmong [] [] [] host w)) as [addrs|err|];
        [|discriminate..].
      destruct (isV4Network network).
      { destruct (selectIPv4 addrs); inversion H; reflexivity. }
      destruct (isV6Network network).
      { destruct (selectIPv6 addrs); inversion H; reflexivity. }
      destruct addrs; inversion H; reflexivity.
Qed.

Lemma resolveAddr_port_witness :
  net.SplitHostPort "example.com:http" = Ok ("example.com", "http")
  /\ resolveAddr "tcp" "example.com:http" dualStackWorld
     = (Err (InvalidPort "http" (strconv.mkNumError "http" strconv.ErrSyntax)),
        dualStackWorld).
Proof.
  assert (Hs : net.SplitHostPort "example.com:http"
               = Ok ("example.com", "http")) by reflexivity.
  exact (conj Hs
           (proj1 (proj2 (proj2 (proj2 (proj2
              (resolveAddr_port dualStackWorld "tcp" "example.com:http"
                 "example.com" "http" Hs)))))
              _ eq_refl [] [] [])).
Defined.

(** C7 as stated fails on a signed port: ["-1"] is no decimal number >= 0,
    yet [resolveAddr] accepts it and returns the port -1 without error. *)
Lemma resolveAddr_negative_port :
  net.SplitHostPort "93.184.216.34:-1" = Ok ("93.184.216.34", "-1")
  /\ strconv.Atoi "-1" = Ok (-1)
  /\ resolveAddr "tcp" "93.184.216.34:-1" dualStackWorld
     = (Ok (net.IPv4 93 184 216 34, -1), dualStackWorld).
Proof.
  split; [reflexivity|]. split; reflexivity.
Qed.

(** *** The times of an entry *)

Lemma wrap64_id (z : Z) : minInt64 <= z <= maxInt64 -> wrap64 z = z.
Proof.
  unfold minInt64, maxInt64, wrap64. intros H.
  rewrite Z.mod_small; lia.
Qed.




(** Without overflow, [staleAfter] is 80% of the TTL rounded towards zero. *)
Lemma staleAfter_floor (T : time.Duration) :
  0 <= T -> T * 80 <= maxInt64 ->
  100 * staleAfter T <= 80 * T < 100 * staleAfter T + 100.
Proof.
  unfold staleAfter, refreshThreshold. intros H0 Hfit.
  rewrite wrap64_id by (unfold minInt64, maxInt64 in *; lia).
  pose proof (Z.quot_rem' (T * 80) 100) as E.
  pose proof (Z.rem_bound_pos (T * 80) 100 ltac:(lia) ltac:(lia)). lia.
Qed.


(** *** What the operations do to the cache *)

Lemma cacheStep_refl (w : World) : cacheStep w w.
Proof. intros h e' H. left. exact H. Qed.

Lemma cacheStep_same (w w' : World) :
  cache (resolver w') = cache (resolver w) -> cacheStep w w'.
Proof. intros E h e' H. left. rewrite <- E. exact H. Qed.

Lemma lookupDone_ge (w : World) (host : string) : clock w <= lookupDone w host.
Proof. unfold lookupDone. lia. Qed.

Lemma resolveDNS_cacheStep (w : World) (host : string) :
  cacheStep w (snd (resolveDNS host w))
  /\ ttl (resolver (snd (resolveDNS host w))) = ttl (resolver w).
Proof.
  destruct (lookupIP w host (clock w)) as [[|a addrs]|err] eqn:Hrp.
  - rewrite (resolveDNS_failure w host (NoRecordsFound host))
      by (rewrite Hrp; reflexivity).
    split; [apply cacheStep_same; apply afterLookup_cache|].
    apply afterLookup_ttl.
  - rewrite (resolveDNS_success w host (a :: addrs) Hrp) by discriminate.
    split; [|apply afterLookup_ttl]. intros h e' H.
    cbn [snd resolver cache set_resolver set_cache] in H.
    rewrite afterLookup_cache in H.
    destruct (decide (host = h)) as [->|Hne].
    + rewrite lookup_insert_eq in H. inversion H; subst. right.
      exists (a :: addrs), (lookupDone w h).
      split; [discriminate|]. split; [apply lookupDone_ge|reflexivity].
    + rewrite lookup_insert_ne in H by exact Hne. left. exact H.
  - rewrite (resolveDNS_failure w host (LookupFailed host err))
      by (rewrite Hrp; reflexivity).
    split; [apply cacheStep_same; apply afterLookup_cache|].
    apply afterLookup_ttl.
Qed.

(** A step from a world that has the TTL and clock of [w] and only entries
    of [w]. *)
Lemma cacheStep_from_sub (w w1 w' : World) :
  (forall h e, cache (resolver w1) !! h = Some e ->
               cache (resolver w) !! h = Some e) ->
  ttl (resolver w1) = ttl (resolver w) ->
  clock w1 = clock w ->
  cacheStep w1 w' -> cacheStep w w'.
Proof.
  intros Hsub Httl Hclk Hstep h e' H.
  destruct (Hstep h e' H) as [Hold | (addrs & now & Hne & Hnow & ->)].
  - left. apply Hsub. exact Hold.
  - right. exists addrs, now. rewrite <- Httl, <- Hclk. auto.
Qed.

Lemma delete_sub (m : gmap string cacheEntry) (host h : string)
    (e : cacheEntry) :
  delete host m !! h = Some e -> m !! h = Some e.
Proof.
  intros H. destruct (decide (host = h)) as [->|Hne].
  - rewrite lookup_delete_eq in H. discriminate.
  - rewrite lookup_delete_ne in H by exact Hne. exact H.
Qed.

Lemma lookupHost_cacheStep (w : World) (host : string) :
  cacheStep w (snd (lookupHost host w))
  /\ ttl (resolver (snd (lookupHost host w))) = ttl (resolver w).
Proof.
  destruct (net.ParseIP host) as [ip|] eqn:Hip.
  { rewrite (lookupHost_literal w host ip Hip).
    split; [apply cacheStep_refl|reflexivity]. }
  destruct (cache (resolver w) !! host) as [ce|] eqn:Hce.
  - destruct (Z_lt_le_dec (clock w) (expires ce)) as [Hlt|Hge].
    + rewrite (lookupHost_hit w host ce Hip Hce Hlt).
      destruct (time.After (clock w) (stale ce));
        (split; [apply cacheStep_same|]; reflexivity).
    + rewrite (lookupHost_expired w host ce Hip Hce Hge).
      destruct (resolveDNS_cacheStep
                  (set_resolver (set_cache (delete host)) w) host)
        as [Hstep Httl].
      split; [|exact Httl].
      apply (cacheStep_from_sub w
               (set_resolver (set_cache (delete host)) w) _
               (delete_sub (cache (resolver w)) host) eq_refl eq_refl Hstep).
  - rewrite (lookupHost_miss w host Hip Hce). apply resolveDNS_cacheStep.
Qed.

Lemma resolveAddr_world (w : World) (network address : string) :
  snd (resolveAddr network address w) = w
  \/ exists host,
       snd (resolveAddr network address w) = snd (lookupHost host w).
Proof.
  unfold_resolveAddr.
  destruct (net.SplitHostPort address) as [[host port]|err|]; [|left..];
    try reflexivity.
  destruct (strconv.Atoi port) as [portNum|err|]; [|left..]; try reflexivity.
  right. exists host. unfold bind.
  destruct (lookupHost host w) as [[addrs|err|] w']; try reflexivity.
  cbn [snd].
  destruct (String.eqb network "tcp4" || String.eqb network "udp4").
  { destruct (selectIPv4 addrs); reflexivity. }
  destruct (String.eqb network "tcp6" || String.eqb network "udp6").
  { destruct (selectIPv6 addrs); reflexivity. }
  destruct addrs; reflexivity.
Qed.

Lemma resolveAddr_cacheStep (w : World) (network address : string) :
  cacheStep w (snd (resolveAddr network address w))
  /\ ttl (resolver (snd (resolveAddr network address w))) = ttl (resolver w).
Proof.
  destruct (resolveAddr_world w network address) as [-> | [host ->]].
  - split; [apply cacheStep_refl|reflexivity].
  - apply lookupHost_cacheStep.
Qed.

Lemma ResolveTCPAddr_world (w : World) (network address : string) :
  snd (ResolveTCPAddr network address w)
  = snd (resolveAddr network address w).
Proof.
  unfold_Resolve. unfold bind.
  destruct (resolveAddr network address w) as [[[ip port]|err|] w'];
    reflexivity.
Qed.

Lemma ResolveUDPAddr_world (w : World) (network address : string) :
  snd (ResolveUDPAddr network address w)
  = snd (resolveAddr network address w).
Proof.
  unfold_Resolve. unfold bind.
  destruct (resolveAddr network address w) as [[[ip port]|err|] w'];
    reflexivity.
Qed.

Lemma forEach_delete_sub (l : list string) (w : World) :
  (forall h e, cache (resolver (snd (forEach l cacheDelete w))) !! h = Some e ->
               cache (resolver w) !! h = Some e)
  /\ ttl (resolver (snd (forEach l cacheDelete w))) = ttl (resolver w).
Proof.
  revert w. induction l as [|x l IH]; intros w.
  - split; [intros h e H; exact H|reflexivity].
  - cbn [forEach]. unfold bind, cacheDelete at 1.
    destruct (IH (set_resolver (set_cache (delete x)) w)) as [Hsub Httl].
    split; [|exact Httl].
    intros h e H. apply (delete_sub _ x). apply (Hsub h e H).
Qed.

Lemma forEach_go_resolver (l : list string) (w : World) :
  resolver (snd (forEach l go_resolveDNS w)) = resolver w.
Proof.
  revert w. induction l as [|x l IH]; intros w; [reflexivity|].
  cbn [forEach]. unfold bind, go_resolveDNS at 1.
  rewrite IH. reflexivity.
Qed.

(** A dial attempt, panic or not, touches nothing but the counter and the
    dial log. *)
Lemma dialAttempt_frame (servers : list string) (w : World) :
  exists i l, snd (dialAttempt servers w) = dialed i l w.
Proof.
  unfold dialAttempt, dialAttemptOn, bind, AddUint32_serverIndex, ret.
  destruct (_ <? 0).
  { exists (wrap32u (serverIndex (resolver w) + 1)), (dialLog w).
    reflexivity. }
  destruct (servers !! _) as [s|].
  - unfold DialContext. eexists _, _. reflexivity.
  - exists (wrap32u (serverIndex (resolver w) + 1)), (dialLog w).
    reflexivity.
Qed.

Lemma dialLoop_frame (servers rounds : list string) (lastErr : option error)
    (w : World) :
  exists i l, snd (dialLoop servers rounds lastErr w) = dialed i l w.
Proof.
  revert lastErr w. induction rounds as [|x rounds IH]; intros lastErr w.
  - rewrite dialLoop_nil. exists (serverIndex (resolver w)), (dialLog w).
    rewrite dialed_id. reflexivity.
  - rewrite dialLoop_cons.
    destruct (dialAttempt_frame servers w) as (i & l & E).
    destruct (dialAttempt servers w) as [[conn|err|] w1]; cbn [snd] in E;
      subst w1; [exists i, l; reflexivity| |exists i, l; reflexivity].
    destruct (IH (Some err) (dialed i l w)) as (i' & l' & ->).
    exists i', l'. reflexivity.
Qed.

Lemma dialLoop_cache (servers rounds : list string) (lastErr : option error)
    (w : World) :
  cache (resolver (snd (dialLoop servers rounds lastErr w)))
  = cache (resolver w)
  /\ ttl (resolver (snd (dialLoop servers rounds lastErr w)))
     = ttl (resolver w).
Proof.
  destruct (dialLoop_frame servers rounds lastErr w) as (i & l & ->).
  split; reflexivity.
Qed.

(** Every operation leaves an entry as it is, removes it, or puts a new
    entry in its place. *)
Lemma exec_cacheStep (o : op) (w : World) : cacheStep w (exec o w).
Proof.
  destruct o; cbn [exec].
  - rewrite ResolveTCPAddr_world. apply resolveAddr_cacheStep.
  - rewrite ResolveUDPAddr_world. apply resolveAddr_cacheStep.
  - intros h e' H. left. revert H. apply forEach_delete_sub.
  - intros h e' H. left. revert H. apply delete_sub.
  - destruct (cache (resolver w) !! host) as [ce|] eqn:Hce.
    + rewrite (GetCachedIPs_cached w host ce Hce).
      destruct (time.After (clock w) (expires ce)).
      * intros h e' H. left. revert H. apply delete_sub.
      * apply cacheStep_refl.
    + unfold GetCachedIPs. unfold_m. rewrite Hce. apply cacheStep_refl.
  - apply cacheStep_same. unfold RefreshCache.
    rewrite forEach_go_resolver. reflexivity.
  - apply cacheStep_refl.
  - apply cacheStep_same. reflexivity.
  - apply cacheStep_refl.
  - destruct (dnsServers (resolver w)) eqn:Hsrv; [apply cacheStep_refl|].
    apply cacheStep_same. unfold Dial. apply dialLoop_cache.
  - unfold runSpawned. destruct (spawned w !! i) as [host|];
      [|apply cacheStep_refl].
    cbn [snd].
    destruct (resolveDNS_cacheStep
                (set_spawned (delete i (spawned w)) w) host) as [Hstep _].
    exact Hstep.
  - apply cacheStep_same. reflexivity.
  - apply cacheStep_same. reflexivity.
Qed.





Lemma NewResolver_goodTTL (d : time.Duration) (servers : list string) :
  d <= maxInt64 -> goodTTL (ttl (NewResolver d servers)).
Proof.
  intros H. unfold NewResolver, goodTTL. cbn [ttl].
  destruct (d <=? 0) eqn:E.
  - unfold defaultTTL, time.Minute, time.Second, maxInt64. lia.
  - apply Z.leb_gt in E. lia.
Qed.




(** The two readings of the TTL are not one: under a TTL of 100ns, a
    [SetTTL(1000)] of another goroutine that lands between them makes the
    resolution store [expires = 100] and [stale = 800]. No TTL is negative,
    and [stale] is after [expires]. *)
Example SetTTL_between_the_readings :
  cache (resolver (snd (resolveDNSAmong [] [OtherSetTTL 1000] "example.com"
                          (answeringWorld 100))))
    !! "example.com"
  = Some (mkEntry exampleIPs 100 800)
  /\ expires (mkEntry exampleIPs 100 800) < stale (mkEntry exampleIPs 100 800).
Proof. split; [reflexivity|simpl; lia]. Qed.


(** *** Clearing and counting *)

Lemma forEach_delete_lookup (l : list string) (w : World) (h : string) :
  cache (resolver (snd (forEach l cacheDelete w))) !! h
  = if bool_decide (h ∈ l) then None else cache (resolver w) !! h.
Proof.
  revert w. induction l as [|x l IH]; intros w.
  - rewrite (bool_decide_eq_false_2 (h ∈ [])) by apply not_elem_of_nil.
    reflexivity.
  - cbn [forEach]. unfold bind, cacheDelete at 1. rewrite IH. simpl.
    destruct (decide (h = x)) as [->|Hne].
    + rewrite lookup_delete_eq.
      rewrite (bool_decide_eq_true_2 (x ∈ x :: l))
        by (apply elem_of_cons; left; reflexivity).
      destruct (bool_decide (x ∈ l)); reflexivity.
    + rewrite lookup_delete_ne by congruence.
      rewrite (bool_decide_ext (h ∈ x :: l) (h ∈ l)); [reflexivity|].
      rewrite elem_of_cons. tauto.
Qed.

Lemma cacheKeys_spec (m : gmap string cacheEntry) (h : string) :
  h ∈ cacheKeys m <-> is_Some (m !! h).
Proof.
  unfold cacheKeys. rewrite list_elem_of_fmap. split.
  - intros ([k e] & -> & Hin). apply elem_of_map_to_list in Hin.
    simpl. eauto.
  - intros [e He]. exists (h, e). split; [reflexivity|].
    apply elem_of_map_to_list. exact He.
Qed.

(** [ClearCache] leaves no entry, [ClearHost] removes the one of its host,
    and [CacheCount] counts the entries. *)
Lemma ClearCache_empties (w : World) :
  cache (resolver (snd (ClearCache w))) = ∅
  /\ fst (CacheCount (snd (ClearCache w))) = 0.
Proof.
  assert (E : cache (resolver (snd (ClearCache w))) = ∅).
  { apply map_eq. intros h. unfold ClearCache.
    rewrite forEach_delete_lookup, lookup_empty.
    destruct (cache (resolver w) !! h) as [e|] eqn:He.
    - rewrite bool_decide_eq_true_2; [reflexivity|].
      apply cacheKeys_spec. eauto.
    - destruct (bool_decide _); reflexivity. }
  split; [exact E|]. unfold CacheCount. cbn [fst snd]. rewrite E.
  reflexivity.
Qed.

Lemma ClearHost_only (w : World) (host h : string) :
  cache (resolver (snd (ClearHost host w))) !! host = None
  /\ (h <> host ->
      cache (resolver (snd (ClearHost host w))) !! h
      = cache (resolver w) !! h).
Proof.
  unfold ClearHost, cacheDelete. simpl. split.
  - apply lookup_delete_eq.
  - intros Hne. apply lookup_delete_ne. congruence.
Qed.

Lemma CacheCount_size (w : World) :
  fst (CacheCount w) = Z.of_nat (size (cache (resolver w))).
Proof.
  unfold CacheCount, cacheKeys. cbn [fst].
  rewrite length_fmap, length_map_to_list. reflexivity.
Qed.

(** *** No panic *)

Lemma SplitHostPort_no_panic (address : string) :
  net.SplitHostPort address <> Panic.
Proof.
  unfold net.SplitHostPort.
  repeat (match goal with
          | |- context [match ?x with _ => _ end] => destruct x
          end; try discriminate).
Qed.

Lemma Atoi_no_panic (port : string) : strconv.Atoi port <> Panic.
Proof.
  assert (P : forall s n, strconv.parseDigits n s <> Panic).
  { induction s as [|c s IH]; intros n; simpl; [discriminate|].
    repeat (match goal with
            | |- context [if ?x then _ else _] => destruct x
            end; try discriminate).
    apply IH. }
  unfold strconv.Atoi, strconv.ParseInt, strconv.ParseUint.
  destruct port as [|c rest]; [discriminate|].
  match goal with
  | |- context [match ?b with EmptyString => _ | String _ _ => _ end] =>
      destruct b as [|c' b'] eqn:Hb
  end; [discriminate|].
  destruct (strconv.parseDigits 0 (String c' b')) eqn:Hd;
    [|discriminate|exfalso; exact (P _ _ Hd)].
  repeat (match goal with
          | |- context [if ?x then _ else _] => destruct x
          end; try discriminate).
Qed.

(** What [lookupHost] returns is never an empty list, as long as no entry
    of the cache is empty. *)
Lemma lookupHost_nonempty (w : World) (host : string) :
  entriesOrdered w ->
  fst (lookupHost host w) <> Ok [] /\ fst (lookupHost host w) <> Panic.
Proof.
  intros Hw.
  assert (R : forall w1, fst (resolveDNS host w1) <> Ok []
                         /\ fst (resolveDNS host w1) <> Panic).
  { intros w1. rewrite resolveDNS_result.
    destruct (lookupIP w1 host (clock w1)) as [[|a addrs]|err];
      split; discriminate. }
  destruct (net.ParseIP host) as [ip|] eqn:Hip.
  { rewrite (lookupHost_literal w host ip Hip). split; discriminate. }
  destruct (cache (resolver w) !! host) as [ce|] eqn:Hce.
  - destruct (Z_lt_le_dec (clock w) (expires ce)) as [Hlt|Hge].
    + rewrite (lookupHost_hit w host ce Hip Hce Hlt). cbn [fst].
      destruct (Hw host ce Hce) as [_ Hne].
      split; [congruence|discriminate].
    + rewrite (lookupHost_expired w host ce Hip Hce Hge). apply R.
  - rewrite (lookupHost_miss w host Hip Hce). apply R.
Qed.

(** So [ips[0]] in [resolveAddr] is always within range. *)
Lemma resolveAddr_no_panic (w : World) (network address : string) :
  entriesOrdered w -> fst (resolveAddr network address w) <> Panic.
Proof.
  intros Hw. unfold_resolveAddr.
  pose proof (SplitHostPort_no_panic address) as Hs.
  destruct (net.SplitHostPort address) as [[host port]|err|];
    [|discriminate|congruence].
  pose proof (Atoi_no_panic port) as Ha.
  destruct (strconv.Atoi port) as [portNum|err|]; [|discriminate|congruence].
  unfold bind. destruct (lookupHost_nonempty w host Hw) as [H1 H2].
  destruct (lookupHost host w) as [[[|ip addrs]|err|] w']; cbn [fst] in *;
    try congruence; try discriminate.
  destruct (String.eqb network "tcp4" || String.eqb network "udp4").
  { destruct (selectIPv4 (ip :: addrs)); discriminate. }
  destruct (String.eqb network "tcp6" || String.eqb network "udp6").
  { destruct (selectIPv6 (ip :: addrs)); discriminate. }
  discriminate.
Qed.

(** *** The TTL *)

(** C10: [SetTTL] stores any duration as it is, and [GetTTL] returns it;
    the default that [NewResolver] puts in the place of a TTL that is not
    positive is not applied. After [SetTTL(d)] with [d <= 0], the entry of a
    successful resolution at [createdAt] has
    [expires = createdAt + d <= createdAt]: at no later instant is it before
    its expiry, and [lookupHost] drops it and resolves again. *)
Theorem SetTTL_stores_any_duration (d : time.Duration) (w : World) :
  snd (SetTTL d w) = set_resolver (set_ttl d) w
  /\ ttl (resolver (snd (SetTTL d w))) = d
  /\ fst (GetTTL (snd (SetTTL d w))) = d
  /\ (d <= 0 ->
      (forall servers, ttl (NewResolver d servers) = defaultTTL)
      /\ forall host addrs,
           lookupIP w host (clock w) = Answer addrs ->
           addrs <> [] ->
           exists e,
             cache (resolver (snd (resolveDNS host (snd (SetTTL d w)))))
               !! host = Some e
             /\ expires e = lookupDone w host + d
             /\ expires e <= lookupDone w host
             /\ forall t,
                  lookupDone w host <= t ->
                  time.Before t (expires e) = false
                  /\ (net.ParseIP host = None ->
                      lookupHost host
                        (set_clock t
                           (snd (resolveDNS host (snd (SetTTL d w)))))
                      = resolveDNS host
                          (set_resolver (set_cache (delete host))
                             (set_clock t
                                (snd (resolveDNS host
                                        (snd (SetTTL d w)))))))).
Proof.
  split; [reflexivity|]. split; [reflexivity|]. split; [reflexivity|].
  intros Hd. split.
  { intros servers. unfold NewResolver. cbn [ttl].
    apply Z.leb_le in Hd. rewrite Hd. reflexivity. }
  intros host addrs Hrp Hne.
  exists (newEntry addrs (lookupDone w host) d).
  assert (Hres : resolveDNS host (snd (SetTTL d w))
                 = (Ok addrs,
                    set_resolver
                      (set_cache
                         (insert host (newEntry addrs (lookupDone w host) d)))
                      (afterLookup (snd (SetTTL d w)) host)))
    by (apply (resolveDNS_success (snd (SetTTL d w)) host addrs Hrp Hne)).
  rewrite Hres. cbn [snd].
  assert (Hce : forall t,
             cache (resolver
                      (set_clock t
                         (set_resolver
                            (set_cache
                               (insert host
                                  (newEntry addrs (lookupDone w host) d)))
                            (afterLookup (snd (SetTTL d w)) host))))
               !! host
             = Some (newEntry addrs (lookupDone w host) d))
    by (intros t; cbn [resolver cache set_clock set_resolver set_cache];
        apply lookup_insert_eq).
  split; [exact (Hce 0)|]. split; [reflexivity|].
  cbn [expires newEntry]. unfold time.Add. split; [lia|].
  intros t Ht. split; [apply time_Before_false; lia|].
  intros Hip.
  apply (lookupHost_expired _ host _ Hip (Hce t)).
  cbn [expires newEntry clock set_clock]. unfold time.Add. lia.
Qed.

Lemma SetTTL_stores_any_duration_witness :
  -10 <= 0
  /\ ttl (NewResolver (-10) []) = defaultTTL
  /\ ttl (resolver (snd (SetTTL (-10) (answeringWorld 100)))) = -10.
Proof.
  assert (Hd : -10 <= 0) by lia.
  refine (conj Hd (conj _ _)).
  - exact (proj1 (proj2 (proj2 (proj2
             (SetTTL_stores_any_duration (-10) (answeringWorld 100)))) Hd) []).
  - exact (proj1 (proj2
             (SetTTL_stores_any_duration (-10) (answeringWorld 100)))).
Defined.

(** * Further properties of the package *)

(** *** Clearing, counting and refreshing *)

Lemma forEach_delete_frame (l : list string) (w : World) :
  snd (forEach l cacheDelete w)
  = set_resolver
      (set_cache (fun _ => cache (resolver (snd (forEach l cacheDelete w)))))
      w.
Proof.
  revert w. induction l as [|x l IH]; intros w.
  - destruct w as [[c t srv i] ? ? ? ? ? ? ?]. reflexivity.
  - cbn [forEach]. unfold bind, cacheDelete at 1 3.
    rewrite IH at 1. destruct w as [[c t srv i] ? ? ? ? ? ? ?]. reflexivity.
Qed.

(** X1. [ClearCache] changes nothing but the cache, which it leaves empty:
    the count is 0 afterwards and the probe finds no host. *)
Theorem ClearCache_clears_everything (w : World) (host : string) :
  snd (ClearCache w) = set_resolver (set_cache (fun _ => ∅)) w
  /\ fst (CacheCount (snd (ClearCache w))) = 0
  /\ GetCachedIPs host (snd (ClearCache w)) = (([], false), snd (ClearCache w)).
Proof.
  destruct (ClearCache_empties w) as [E C].
  assert (W : snd (ClearCache w) = set_resolver (set_cache (fun _ => ∅)) w).
  { unfold ClearCache in *. rewrite forEach_delete_frame, E. reflexivity. }
  split; [exact W|]. split; [exact C|].
  rewrite W. unfold GetCachedIPs. unfold_m. simpl.
  rewrite lookup_empty. reflexivity.
Qed.

(** X2. [ClearHost] removes the entry of its host and no other; the count goes
    down by one if the host was cached and stays as it is otherwise. *)
Theorem ClearHost_removes_one (w : World) (host : string) :
  cache (resolver (snd (ClearHost host w))) !! host = None
  /\ (forall h, h <> host ->
        cache (resolver (snd (ClearHost host w))) !! h
        = cache (resolver w) !! h)
  /\ fst (CacheCount (snd (ClearHost host w)))
     = fst (CacheCount w)
       - match cache (resolver w) !! host with Some _ => 1 | None => 0 end.
Proof.
  destruct (ClearHost_only w host host) as [Hnone _].
  split; [exact Hnone|]. split.
  { intros h Hne. apply (ClearHost_only w host h). exact Hne. }
  rewrite !CacheCount_size. unfold ClearHost, cacheDelete. simpl.
  rewrite map_size_delete.
  destruct (cache (resolver w) !! host) as [e|] eqn:He; simpl; [|lia].
  assert (size (cache (resolver w)) <> 0%nat).
  { intros Hz. apply map_size_empty_inv in Hz. rewrite Hz in He.
    rewrite lookup_empty in He. discriminate. }
  lia.
Qed.

(** X3. A successful resolution stores one entry: the count goes up by one if
    the host was not cached, and stays as it is if an entry is replaced. *)
Theorem resolveDNS_count (w : World) (host : string) (addrs : list net.IP) :
  lookupIP w host (clock w) = Answer addrs ->
  addrs <> [] ->
  fst (CacheCount (snd (resolveDNS host w)))
  = fst (CacheCount w)
    + match cache (resolver w) !! host with Some _ => 0 | None => 1 end.
Proof.
  intros Hrp Hne. rewrite (resolveDNS_success w host addrs Hrp Hne).
  rewrite !CacheCount_size. simpl. rewrite afterLookup_cache.
  rewrite map_size_insert.
  destruct (cache (resolver w) !! host); simpl; lia.
Qed.

Lemma resolveDNS_count_witness :
  lookupIP (answeringWorld 100) "example.com" (clock (answeringWorld 100))
  = Answer exampleIPs
  /\ exampleIPs <> []
  /\ fst (CacheCount (snd (resolveDNS "example.com" (answeringWorld 100))))
     = fst (CacheCount (answeringWorld 100)) + 1.
Proof.
  assert (Hrp : lookupIP (answeringWorld 100) "example.com"
                  (clock (answeringWorld 100)) = Answer exampleIPs)
    by reflexivity.
  assert (Hne : exampleIPs <> []) by discriminate.
  exact (conj Hrp (conj Hne
           (resolveDNS_count (answeringWorld 100) "example.com" exampleIPs
              Hrp Hne))).
Defined.

Lemma forEach_go_spawned (l : list string) (w : World) :
  snd (forEach l go_resolveDNS w) = set_spawned (spawned w ++ l) w.
Proof.
  revert w. induction l as [|x l IH]; intros w.
  - simpl. rewrite app_nil_r. destruct w. reflexivity.
  - cbn [forEach]. unfold bind, go_resolveDNS at 1. rewrite IH.
    destruct w. unfold set_spawned. simpl. rewrite <- app_assoc. reflexivity.
Qed.

(** X4. [RefreshCache] launches one goroutine for each cached host, expired or
    not, and none for any other host; it changes nothing else and does not
    wait for any of them. *)
Theorem RefreshCache_one_per_host (w : World) :
  let hosts := cacheKeys (cache (resolver w)) in
  snd (RefreshCache w) = set_spawned (spawned w ++ hosts) w
  /\ NoDup hosts
  /\ (forall h, h ∈ hosts <-> is_Some (cache (resolver w) !! h))
  /\ Z.of_nat (length hosts) = fst (CacheCount w).
Proof.
  intros hosts. subst hosts. split.
  { unfold RefreshCache. apply forEach_go_spawned. }
  split; [apply NoDup_fst_map_to_list|].
  split; [intros h; apply cacheKeys_spec|reflexivity].
Qed.

(** *** The probe *)

(** X5. [GetCachedIPs] resolves nothing and launches nothing: it leaves the
    world as it is, but for the entry of its host, which it may delete.
    When it reports the host as found, nothing at all has changed and the
    addresses are those of the entry; when it does not, it returns no
    address and the host is not in the cache afterwards. *)
Theorem GetCachedIPs_probe (w : World) (host : string) :
  (snd (GetCachedIPs host w) = w
   \/ snd (GetCachedIPs host w) = set_resolver (set_cache (delete host)) w)
  /\ (snd (fst (GetCachedIPs host w)) = true ->
      snd (GetCachedIPs host w) = w
      /\ exists ce,
           cache (resolver w) !! host = Some ce
           /\ fst (fst (GetCachedIPs host w)) = ips ce
           /\ clock w <= expires ce)
  /\ (snd (fst (GetCachedIPs host w)) = false ->
      fst (fst (GetCachedIPs host w)) = []
      /\ cache (resolver (snd (GetCachedIPs host w))) !! host = None).
Proof.
  destruct (cache (resolver w) !! host) as [ce|] eqn:Hce.
  - rewrite (GetCachedIPs_cached w host ce Hce).
    destruct (time.After (clock w) (expires ce)) eqn:Ha; cbn [fst snd].
    + split; [right; reflexivity|]. split; [discriminate|].
      intros _. split; [reflexivity|]. simpl. apply lookup_delete_eq.
    + split; [left; reflexivity|]. split; [|discriminate].
      intros _. split; [reflexivity|]. exists ce.
      split; [reflexivity|]. split; [reflexivity|].
      apply time_After_false. exact Ha.
  - unfold GetCachedIPs. unfold_m. rewrite Hce. cbn [fst snd].
    split; [left; reflexivity|]. split; [discriminate|].
    intros _. split; [reflexivity|exact Hce].
Qed.

(** *** Lookups *)

Lemma resolveDNS_Ok_inv (w w' : World) (host : string)
    (addrs : list net.IP) :
  resolveDNS host w = (Ok addrs, w') ->
  lookupIP w host (clock w) = Answer addrs /\ addrs <> [].
Proof.
  intros H.
  destruct (lookupIP w host (clock w)) as [[|a l]|err] eqn:Hrp.
  - rewrite (resolveDNS_failure w host (NoRecordsFound host)) in H
      by (rewrite Hrp; reflexivity). discriminate.
  - rewrite (resolveDNS_success w host (a :: l) Hrp) in H by discriminate.
    inversion H; subst. split; [reflexivity|discriminate].
  - rewrite (resolveDNS_failure w host (LookupFailed host err)) in H
      by (rewrite Hrp; reflexivity). discriminate.
Qed.

(** X6. Whatever a call of [lookupHost] that runs alone returns for a host
    name is what the cache then holds for it; the entries of the other
    hosts, the TTL and the list of servers are as before. *)
Theorem lookupHost_caches_what_it_returns (w w' : World) (host : string)
    (addrs : list net.IP) :
  net.ParseIP host = None ->
  lookupHost host w = (Ok addrs, w') ->
  (exists e, cache (resolver w') !! host = Some e /\ ips e = addrs)
  /\ (forall h, h <> host ->
        cache (resolver w') !! h = cache (resolver w) !! h)
  /\ ttl (resolver w') = ttl (resolver w)
  /\ dnsServers (resolver w') = dnsServers (resolver w).
Proof.
  intros Hip H.
  assert (R : forall w1,
             resolveDNS host w1 = (Ok addrs, w') ->
             (exists e, cache (resolver w') !! host = Some e /\ ips e = addrs)
             /\ (forall h, h <> host ->
                   cache (resolver w') !! h = cache (resolver w1) !! h)
             /\ ttl (resolver w') = ttl (resolver w1)
             /\ dnsServers (resolver w') = dnsServers (resolver w1)).
  { intros w1 H1. destruct (resolveDNS_Ok_inv w1 w' host addrs H1) as [Hrp Hne].
    rewrite (resolveDNS_success w1 host addrs Hrp Hne) in H1.
    inversion H1; subst.
    cbn [resolver cache ttl dnsServers set_resolver set_cache].
    rewrite afterLookup_cache, afterLookup_ttl, afterLookup_dnsServers.
    split.
    - eexists. split; [apply lookup_insert_eq|reflexivity].
    - split; [|split]; try reflexivity.
      intros h Hne'. apply lookup_insert_ne. congruence. }
  destruct (cache (resolver w) !! host) as [ce|] eqn:Hce.
  - destruct (Z_lt_le_dec (clock w) (expires ce)) as [Hlt|Hge].
    + rewrite (lookupHost_hit w host ce Hip Hce Hlt) in H.
      inversion H; subst.
      destruct (time.After (clock w) (stale ce)); simpl;
        (split; [exists ce; split; [exact Hce|reflexivity]|]);
        (split; [|split]); reflexivity.
    + rewrite (lookupHost_expired w host ce Hip Hce Hge) in H.
      destruct (R _ H) as (He & Hother & Httl & Hsrv).
      split; [exact He|]. split; [|split]; try assumption.
      intros h Hne'. rewrite (Hother h Hne'). simpl.
      apply lookup_delete_ne. congruence.
  - rewrite (lookupHost_miss w host Hip Hce) in H. apply R. exact H.
Qed.

Lemma lookupHost_caches_what_it_returns_witness :
  net.ParseIP "example.com" = None
  /\ lookupHost "example.com" dualStackWorld = (Ok dualStackIPs, dualStackWorld)
  /\ exists e,
       cache (resolver dualStackWorld) !! "example.com" = Some e
       /\ ips e = dualStackIPs.
Proof.
  assert (Hip : net.ParseIP "example.com" = None) by reflexivity.
  assert (Hl : lookupHost "example.com" dualStackWorld
               = (Ok dualStackIPs, dualStackWorld)) by reflexivity.
  exact (conj Hip (conj Hl
           (proj1 (lookupHost_caches_what_it_returns dualStackWorld
                     dualStackWorld "example.com" dualStackIPs Hip Hl)))).
Defined.

(** X7. An entry is never served at or after its expiry: the read resolves
    afresh and waits for the answer; it returns what the backend answers,
    and the cache then holds the new entry, or none if the resolution
    failed. *)
Theorem lookupHost_expired_not_served (w : World) (host : string)
    (ce : cacheEntry) :
  net.ParseIP host = None ->
  cache (resolver w) !! host = Some ce ->
  expires ce <= clock w ->
  fst (lookupHost host w)
  = match lookupIP w host (clock w) with
    | Failure err => Err (LookupFailed host err)
    | Answer [] => Err (NoRecordsFound host)
    | Answer (a :: l) => Ok (a :: l)
    end
  /\ clock (snd (lookupHost host w)) = lookupDone w host
  /\ cache (resolver (snd (lookupHost host w))) !! host
     = match lookupIP w host (clock w) with
       | Answer (a :: l) =>
           Some (newEntry (a :: l) (lookupDone w host) (ttl (resolver w)))
       | _ => None
       end.
Proof.
  intros Hip Hce Hge. rewrite (lookupHost_expired w host ce Hip Hce Hge).
  set (w1 := set_resolver (set_cache (delete host)) w).
  change (lookupIP w host (clock w)) with (lookupIP w1 host (clock w1)).
  destruct (lookupIP w1 host (clock w1)) as [[|a l]|err] eqn:Hrp.
  - rewrite (resolveDNS_failure w1 host (NoRecordsFound host))
      by (rewrite Hrp; reflexivity).
    split; [reflexivity|]. split; [apply (afterLookup_clock w1 host)|]. cbn [snd].
    rewrite afterLookup_cache. apply lookup_delete_eq.
  - rewrite (resolveDNS_success w1 host (a :: l) Hrp) by discriminate.
    split; [reflexivity|]. split; [apply (afterLookup_clock w1 host)|]. simpl.
    apply lookup_insert_eq.
  - rewrite (resolveDNS_failure w1 host (LookupFailed host err))
      by (rewrite Hrp; reflexivity).
    split; [reflexivity|]. split; [apply (afterLookup_clock w1 host)|]. cbn [snd].
    rewrite afterLookup_cache. apply lookup_delete_eq.
Qed.

Lemma lookupHost_expired_not_served_witness :
  net.ParseIP "example.com" = None
  /\ cache (resolver (refreshingWorld 100)) !! "example.com"
     = Some (newEntry exampleIPs 0 100)
  /\ expires (newEntry exampleIPs 0 100) <= clock (refreshingWorld 100)
  /\ fst (lookupHost "example.com" (refreshingWorld 100)) = Ok dualStackIPs.
Proof.
  assert (Hip : net.ParseIP "example.com" = None) by reflexivity.
  assert (Hce : cache (resolver (refreshingWorld 100)) !! "example.com"
                = Some (newEntry exampleIPs 0 100)) by reflexivity.
  assert (Hge : expires (newEntry exampleIPs 0 100)
                <= clock (refreshingWorld 100))
    by (vm_compute; discriminate).
  exact (conj Hip (conj Hce (conj Hge
           (proj1 (lookupHost_expired_not_served (refreshingWorld 100)
                     "example.com" _ Hip Hce Hge))))).
Defined.

(** *** From one read to the next *)

(** Up to 80% of a TTL that fits, nothing is stale. *)
Lemma fresh_window (T d : Z) :
  0 < T -> T * 80 <= maxInt64 -> 100 * d <= 80 * T ->
  d <= staleAfter T /\ d < T.
Proof.
  intros HT Hfit Hd.
  pose proof (staleAfter_floor T ltac:(lia) Hfit). lia.
Qed.

(** X8. A miss followed by a hit: the first lookup of a host resolves it and
    returns the answer; every further lookup during the first 80% of the
    TTL returns the same addresses and leaves the world alone: no second
    resolution, no refresh. *)
Theorem lookupHost_miss_then_hit (w : World) (host : string)
    (addrs : list net.IP) (t : time.Time) :
  net.ParseIP host = None ->
  cache (resolver w) !! host = None ->
  lookupIP w host (clock w) = Answer addrs ->
  addrs <> [] ->
  0 < ttl (resolver w) ->
  ttl (resolver w) * 80 <= maxInt64 ->
  lookupDone w host <= t ->
  100 * (t - lookupDone w host) <= 80 * ttl (resolver w) ->
  fst (lookupHost host w) = Ok addrs
  /\ lookupHost host (set_clock t (snd (lookupHost host w)))
     = (Ok addrs, set_clock t (snd (lookupHost host w))).
Proof.
  intros Hip Hce Hrp Hne HT Hfit Ht Hwin.
  rewrite (lookupHost_miss w host Hip Hce).
  rewrite (resolveDNS_success w host addrs Hrp Hne). cbn [fst snd].
  split; [reflexivity|].
  set (e := newEntry addrs (lookupDone w host) (ttl (resolver w))).
  set (w1 := set_clock t _).
  assert (He : cache (resolver w1) !! host = Some e)
    by (simpl; apply lookup_insert_eq).
  destruct (fresh_window (ttl (resolver w)) (t - lookupDone w host)
              HT Hfit Hwin) as [Hst Hex].
  assert (Hlt : clock w1 < expires e)
    by (subst e w1; cbn [clock set_clock expires newEntry];
        unfold time.Add; lia).
  rewrite (lookupHost_hit w1 host e Hip He Hlt).
  assert (Ha : time.After (clock w1) (stale e) = false)
    by (apply time_After_false; subst e w1;
        cbn [clock set_clock stale newEntry]; unfold time.Add; lia).
  rewrite Ha. reflexivity.
Qed.

Lemma lookupHost_miss_then_hit_witness :
  net.ParseIP "example.com" = None
  /\ cache (resolver (answeringWorld 100)) !! "example.com" = None
  /\ lookupIP (answeringWorld 100) "example.com" (clock (answeringWorld 100))
     = Answer exampleIPs
  /\ lookupHost "example.com"
       (set_clock 80 (snd (lookupHost "example.com" (answeringWorld 100))))
     = (Ok exampleIPs,
        set_clock 80 (snd (lookupHost "example.com" (answeringWorld 100)))).
Proof.
  assert (Hip : net.ParseIP "example.com" = None) by reflexivity.
  assert (Hce : cache (resolver (answeringWorld 100)) !! "example.com" = None)
    by reflexivity.
  assert (Hrp : lookupIP (answeringWorld 100) "example.com"
                  (clock (answeringWorld 100)) = Answer exampleIPs)
    by reflexivity.
  refine (conj Hip (conj Hce (conj Hrp _))).
  refine (proj2 (lookupHost_miss_then_hit (answeringWorld 100) "example.com"
                   exampleIPs 80 Hip Hce Hrp _ _ _ _ _)).
  - discriminate.
  - vm_compute. reflexivity.
  - vm_compute. discriminate.
  - vm_compute. discriminate.
  - vm_compute. discriminate.
Defined.

(** X9. Reads of a stale entry are not deduplicated: each of [n] calls of
    [ResolveTCPAddr] in the stale window launches a refresh of its own. *)
Theorem stale_reads_each_launch_a_refresh (w : World)
    (network address host port : string) (portNum : Z) (ce : cacheEntry)
    (n : nat) :
  net.SplitHostPort address = Ok (host, port) ->
  strconv.Atoi port = Ok portNum ->
  net.ParseIP host = None ->
  cache (resolver w) !! host = Some ce ->
  stale ce < clock w < expires ce ->
  run (repeat (CallResolveTCPAddr network address) n) w
  = set_spawned (spawned w ++ repeat host n) w.
Proof.
  intros Hs Ha Hip. revert w. induction n as [|n IH]; intros w Hce [Hst Hex].
  - simpl. rewrite app_nil_r. destruct w. reflexivity.
  - cbn [repeat]. rewrite run_cons. cbn [exec].
    rewrite ResolveTCPAddr_world.
    assert (Hl : lookupHost host w
                 = (Ok (ips ce), set_spawned (spawned w ++ [host]) w)).
    { rewrite (lookupHost_hit w host ce Hip Hce Hex).
      apply time_After_true in Hst. rewrite Hst. reflexivity. }
    rewrite (resolveAddr_after_lookup w _ network address host port portNum
               (ips ce) Hs Ha Hl). cbn [snd].
    rewrite (IH (set_spawned (spawned w ++ [host]) w) Hce (conj Hst Hex)).
    destruct w. unfold set_spawned. simpl. rewrite <- app_assoc.
    reflexivity.
Qed.

Lemma stale_reads_each_launch_a_refresh_witness :
  net.SplitHostPort "example.com:443" = Ok ("example.com", "443")
  /\ strconv.Atoi "443" = Ok 443
  /\ net.ParseIP "example.com" = None
  /\ cache (resolver (cachedWorld 90)) !! "example.com"
     = Some (newEntry exampleIPs 0 100)
  /\ stale (newEntry exampleIPs 0 100) < clock (cachedWorld 90)
     < expires (newEntry exampleIPs 0 100)
  /\ run (repeat (CallResolveTCPAddr "tcp" "example.com:443") 3)
       (cachedWorld 90)
     = set_spawned ["example.com"; "example.com"; "example.com"]
         (cachedWorld 90).
Proof.
  assert (Hs : net.SplitHostPort "example.com:443"
               = Ok ("example.com", "443")) by reflexivity.
  assert (Ha : strconv.Atoi "443" = Ok 443) by reflexivity.
  assert (Hip : net.ParseIP "example.com" = None) by reflexivity.
  assert (Hce : cache (resolver (cachedWorld 90)) !! "example.com"
                = Some (newEntry exampleIPs 0 100)) by reflexivity.
  assert (Hw : stale (newEntry exampleIPs 0 100) < clock (cachedWorld 90)
               < expires (newEntry exampleIPs 0 100))
    by (vm_compute; split; reflexivity).
  exact (conj Hs (conj Ha (conj Hip (conj Hce (conj Hw
           (stale_reads_each_launch_a_refresh (cachedWorld 90) "tcp"
              "example.com:443" "example.com" "443" 443 _ 3
              Hs Ha Hip Hce Hw)))))).
Defined.

(** X10. A stale read and its refresh: the read returns the old addresses at
    once; when the goroutine it launched has run and the backend has
    answered, the entry is replaced, and the next read returns the new
    addresses without launching anything. *)
Theorem stale_read_then_refresh (w : World) (host : string)
    (ce : cacheEntry) (addrs' : list net.IP) :
  net.ParseIP host = None ->
  cache (resolver w) !! host = Some ce ->
  stale ce < clock w < expires ce ->
  lookupIP w host (clock w) = Answer addrs' ->
  addrs' <> [] ->
  0 < ttl (resolver w) ->
  ttl (resolver w) * 80 <= maxInt64 ->
  let w1 := snd (lookupHost host w) in
  let w2 := exec (RunSpawned (length (spawned w))) w1 in
  fst (lookupHost host w) = Ok (ips ce)
  /\ spawned w2 = spawned w
  /\ cache (resolver w2) !! host
     = Some (newEntry addrs' (lookupDone w host) (ttl (resolver w)))
  /\ lookupHost host w2 = (Ok addrs', w2).
Proof.
  intros Hip Hce [Hst Hex] Hrp Hne HT Hfit w1 w2. subst w1 w2.
  rewrite (lookupHost_hit w host ce Hip Hce Hex).
  apply time_After_true in Hst. rewrite Hst. cbn [fst snd exec].
  split; [reflexivity|].
  unfold runSpawned. cbn [spawned set_spawned].
  rewrite list_lookup_middle by reflexivity.
  rewrite delete_middle, app_nil_r. cbn [snd].
  assert (Hw : set_spawned (spawned w)
                 (set_spawned (spawned w ++ [host]) w) = w)
    by (destruct w; reflexivity).
  rewrite Hw, (resolveDNS_success w host addrs' Hrp Hne). cbn [snd].
  split; [apply afterLookup_spawned|].
  set (e := newEntry addrs' (lookupDone w host) (ttl (resolver w))).
  set (w2 := set_resolver _ _).
  assert (He : cache (resolver w2) !! host = Some e)
    by (simpl; apply lookup_insert_eq).
  split; [exact He|].
  destruct (fresh_window (ttl (resolver w)) 0 HT Hfit ltac:(lia))
    as [Hs0 _].
  assert (Hlt : clock w2 < expires e)
    by (subst e w2; cbn [clock set_clock set_resolver expires newEntry];
        rewrite afterLookup_clock; unfold time.Add; lia).
  rewrite (lookupHost_hit w2 host e Hip He Hlt).
  assert (Ha : time.After (clock w2) (stale e) = false)
    by (apply time_After_false; subst e w2;
        cbn [clock set_clock set_resolver stale newEntry];
        rewrite afterLookup_clock; unfold time.Add; lia).
  rewrite Ha. reflexivity.
Qed.

Lemma stale_read_then_refresh_witness :
  net.ParseIP "example.com" = None
  /\ cache (resolver (refreshingWorld 90)) !! "example.com"
     = Some (newEntry exampleIPs 0 100)
  /\ stale (newEntry exampleIPs 0 100) < clock (refreshingWorld 90)
     < expires (newEntry exampleIPs 0 100)
  /\ fst (lookupHost "example.com" (refreshingWorld 90)) = Ok exampleIPs
  /\ fst (lookupHost "example.com"
            (exec (RunSpawned 0)
               (snd (lookupHost "example.com" (refreshingWorld 90)))))
     = Ok dualStackIPs.
Proof.
  assert (Hip : net.ParseIP "example.com" = None) by reflexivity.
  assert (Hce : cache (resolver (refreshingWorld 90)) !! "example.com"
                = Some (newEntry exampleIPs 0 100)) by reflexivity.
  assert (Hw : stale (newEntry exampleIPs 0 100) < clock (refreshingWorld 90)
               < expires (newEntry exampleIPs 0 100))
    by (vm_compute; split; reflexivity).
  assert (Hrp : lookupIP (refreshingWorld 90) "example.com"
                  (clock (refreshingWorld 90)) = Answer dualStackIPs)
    by reflexivity.
  assert (Hne : dualStackIPs <> []) by discriminate.
  assert (HT : 0 < ttl (resolver (refreshingWorld 90)))
    by (vm_compute; reflexivity).
  assert (Hfit : ttl (resolver (refreshingWorld 90)) * 80 <= maxInt64)
    by (vm_compute; discriminate).
  pose proof (stale_read_then_refresh (refreshingWorld 90) "example.com" _
                dualStackIPs Hip Hce Hw Hrp Hne HT Hfit) as H.
  cbv zeta in H. destruct H as (H1 & _ & _ & H4).
  refine (conj Hip (conj Hce (conj Hw (conj H1 _)))).
  exact (f_equal fst H4).
Defined.

(** *** Failover *)

(** The loop of [Dial] over any number of rounds. *)
Lemma dialLoop_attempts (rounds : list string) (w : World)
    (lastErr : option error) :
  dnsServers (resolver w) <> [] ->
  uint32_range (serverIndex (resolver w)) ->
  exists k : nat,
    (k <= length rounds)%nat
    /\ snd (dialLoop (dnsServers (resolver w)) rounds lastErr w)
       = afterAttempts k w
    /\ fst (dialLoop (dnsServers (resolver w)) rounds lastErr w) <> Panic
    /\ (forall conn,
          fst (dialLoop (dnsServers (resolver w)) rounds lastErr w) = Ok conn ->
          (1 <= k)%nat
          /\ conn = dialTarget (dnsServers (resolver w))
                      (wrap32u (serverIndex (resolver w) + Z.of_nat k - 1))
          /\ dialUDP w conn = None)
    /\ (forall err,
          fst (dialLoop (dnsServers (resolver w)) rounds lastErr w) = Err err ->
          k = length rounds).
Proof.
  revert w lastErr. induction rounds as [|x rounds IH];
    intros w lastErr Hne Hr.
  - exists 0%nat. split; [reflexivity|].
    rewrite dialLoop_nil. cbn [fst snd].
    split; [symmetry; apply afterAttempts_0; exact Hr|].
    split; [discriminate|]. split; [discriminate|reflexivity].
  - rewrite dialLoop_cons, (dialAttempt_spec w Hne Hr).
    destruct (dialUDP w (dialTarget (dnsServers (resolver w))
                           (serverIndex (resolver w)))) as [err|] eqn:Hd.
    + destruct (IH (afterAttempts 1 w) (Some err) Hne
                  (afterAttempts_range 1 w))
        as (k & Hk & Hsnd & Hnp & Hok & Herr).
      change (dnsServers (resolver (afterAttempts 1 w)))
        with (dnsServers (resolver w)) in *.
      exists (S k). split; [cbn [length]; lia|].
      split; [rewrite Hsnd; symmetry; apply afterAttempts_S|].
      split; [exact Hnp|]. split.
      * intros conn Hc. destruct (Hok conn Hc) as (Hk1 & Hconn & Hup).
        split; [lia|]. split; [|exact Hup].
        rewrite Hconn.
        change (serverIndex (resolver (afterAttempts 1 w)))
          with (wrap32u (serverIndex (resolver w) + 1)).
        rewrite <- Z.add_sub_assoc, wrap32u_add_l.
        replace (serverIndex (resolver w) + 1 + (Z.of_nat k - 1))
          with (serverIndex (resolver w) + Z.of_nat (S k) - 1) by lia.
        reflexivity.
      * intros e He. rewrite (Herr e He). reflexivity.
    + exists 1%nat. split; [cbn [length]; lia|].
      split; [reflexivity|]. split; [discriminate|]. split.
      * intros conn Hc. cbn [fst] in Hc. inversion Hc; subst.
        split; [lia|]. split; [|exact Hd].
        change (Z.of_nat 1) with 1.
        replace (serverIndex (resolver w) + 1 - 1)
          with (serverIndex (resolver w)) by lia.
        rewrite (wrap32u_id _ Hr). reflexivity.
      * discriminate.
Qed.

(** **** Calls of [Dial] that overlap *)

Lemma amid_cons (o : other) (l : list other) (w : World) :
  amid (o :: l) w = amid l (snd (otherStep o w)).
Proof.
  unfold amid. cbn [interfere]. unfold bind.
  destruct (otherStep o w) as [[] w1]. reflexivity.
Qed.

(** The steps of other goroutines leave the counter alone when no call of
    [Dial] is among them. *)
Lemma amid_quiet (l : list other) (w : World) :
  quiet l -> serverIndex (resolver (amid l w)) = serverIndex (resolver w).
Proof.
  revert w. induction l as [|o l IH]; intros w Hq; [reflexivity|].
  rewrite amid_cons. inversion Hq as [|? ? Ho Hl]; subst.
  rewrite (IH _ Hl). destruct o; try reflexivity. congruence.
Qed.

Lemma amid_dialer (l : list other) (w : World) :
  dialUDP (amid l w) = dialUDP w /\ dialLog (amid l w) = dialLog w.
Proof.
  destruct (amid_frame l w) as (r' & -> & _). split; reflexivity.
Qed.

Lemma dialTarget_server (servers : list string) (c : Z) :
  servers <> [] ->
  exists s, s ∈ servers /\ dialTarget servers c = (s ++ defaultDNSPort)%string.
Proof.
  intros Hne. destruct (server_in_range servers c Hne) as [s Hs].
  exists s. split; [eapply list_elem_of_lookup_2; exact Hs|].
  unfold dialTarget. rewrite Hs. reflexivity.
Qed.

(** One attempt, whatever the counter holds and whichever list is passed:
    it dials the target of the counter it fetched. *)
Lemma dialAttempt_any (servers : list string) (w : World) :
  servers <> [] ->
  exists c,
    (uint32_range (serverIndex (resolver w)) -> c = serverIndex (resolver w))
    /\ dialAttempt servers w =
       (match dialUDP w (dialTarget servers c) with
        | None => Ok (dialTarget servers c)
        | Some err => Err err
        end,
        dialed (wrap32u (serverIndex (resolver w) + 1))
          (dialLog w ++ [dialTarget servers c]) w).
Proof.
  intros Hne.
  exists (wrap32u (wrap32u (serverIndex (resolver w) + 1) - 1)).
  split; [intros Hr; apply fetched_index; exact Hr|].
  unfold dialAttempt, dialAttemptOn, bind, AddUint32_serverIndex.
  set (c := wrap32u (wrap32u (serverIndex (resolver w) + 1) - 1)).
  destruct (dialIndex servers c Hne (wrap32u_range _)) as [-> ->].
  unfold dialTarget.
  destruct (server_in_range servers c Hne) as [s Hs].
  rewrite Hs. reflexivity.
Qed.

Lemma dialLoopAmong_cons (sch : list (list other))
    (servers : list string) (x : string) (rounds : list string)
    (lastErr : option error) (w : World) :
  dialLoopAmong IntSize sch servers (x :: rounds) lastErr w
  = match dialAttempt servers (amid (hd [] sch) w) with
    | (Ok conn, w1) => (Ok conn, w1)
    | (Err err, w1) => dialLoopAmong IntSize (tl sch) servers rounds (Some err) w1
    | (Panic, w1) => (Panic, w1)
    end.
Proof.
  cbn [dialLoopAmong]. unfold bind, ret, amid, dialAttempt.
  destruct (interfere (hd [] sch) w) as [[] w0]. cbn [snd].
  destruct (dialAttemptOn IntSize servers w0) as [[conn|err|] w1];
    reflexivity.
Qed.

(** The loop of [Dial] among the steps of other goroutines: it makes at
    most one attempt per round, each on a configured server, and never
    indexes outside the list; it returns a connection only to the target
    of its last attempt, which has connected, and an error only after an
    attempt in every round, around the failure of the last one. *)
Lemma dialLoopAmong_attempts (sch : list (list other))
    (servers rounds : list string) (lastErr : option error) (w : World) :
  servers <> [] ->
  exists l : list string,
    (length l <= length rounds)%nat
    /\ dialLog (snd (dialLoopAmong IntSize sch servers rounds lastErr w))
       = dialLog w ++ l
    /\ Forall (fun t => exists s, s ∈ servers
                                  /\ t = (s ++ defaultDNSPort)%string) l
    /\ fst (dialLoopAmong IntSize sch servers rounds lastErr w) <> Panic
    /\ (forall conn,
          fst (dialLoopAmong IntSize sch servers rounds lastErr w) = Ok conn ->
          last l = Some conn /\ dialUDP w conn = None)
    /\ (forall err,
          fst (dialLoopAmong IntSize sch servers rounds lastErr w) = Err err ->
          length l = length rounds
          /\ match last l with
             | Some t =>
                 exists e, dialUDP w t = Some e /\ err = AllServersFailed e
             | None =>
                 err = match lastErr with
                       | Some e => AllServersFailed e
                       | None => AllServersFailedNil
                       end
             end).
Proof.
  intros Hne. revert sch lastErr w.
  induction rounds as [|x rounds IH]; intros sch lastErr w.
  - exists []. cbn [dialLoopAmong]. unfold ret. cbn [fst snd length last].
    split; [lia|]. split; [rewrite app_nil_r; reflexivity|].
    split; [constructor|]. split; [discriminate|].
    split; [discriminate|]. intros err H. inversion H. split; reflexivity.
  - rewrite dialLoopAmong_cons.
    destruct (amid_dialer (hd [] sch) w) as [Hu Hl].
    set (w0 := amid (hd [] sch) w) in *.
    destruct (dialAttempt_any servers w0 Hne) as (c & _ & ->).
    destruct (dialTarget_server servers c Hne) as (s & Hs & Ht).
    set (t := dialTarget servers c) in *.
    rewrite Hu, Hl.
    destruct (dialUDP w t) as [e|] eqn:Hd.
    + destruct (IH (tl sch) (Some e)
                  (dialed (wrap32u (serverIndex (resolver w0) + 1))
                     (dialLog w ++ [t]) w0))
        as (l & Hlen & Hlog & Hall & Hnp & Hok & Herr).
      exists (t :: l). cbn [length]. split; [lia|].
      split; [rewrite Hlog; cbn [dialLog dialed set_dialLog];
              rewrite <- app_assoc; reflexivity|].
      split; [constructor; [exists s; split; assumption|exact Hall]|].
      split; [exact Hnp|].
      cbn [dialUDP dialed set_dialLog set_resolver] in Hok, Herr.
      rewrite Hu in Hok, Herr. split.
      * intros conn Hc. destruct (Hok conn Hc) as [Hlast Hup].
        split; [|exact Hup]. rewrite last_cons, Hlast. reflexivity.
      * intros err Hc. destruct (Herr err Hc) as [Hn Hlast].
        split; [lia|]. rewrite last_cons.
        destruct (last l) as [t'|]; [exact Hlast|].
        exists e. split; [exact Hd|exact Hlast].
    + exists [t]. cbn [length fst snd last]. split; [lia|].
      split; [reflexivity|].
      split; [constructor; [exists s; split; assumption|constructor]|].
      split; [discriminate|]. split; [|discriminate].
      intros conn Hc. inversion Hc; subst. split; [reflexivity|exact Hd].
Qed.

(** With no other increment of the counter during the call, the loop
    reaches the first server that connects. *)
Lemma dialLoopAmong_first_connect (k : nat) (sch : list (list other))
    (servers rounds : list string) (w : World) (lastErr : option error) :
  servers <> [] ->
  uint32_range (serverIndex (resolver w)) ->
  Forall quiet sch ->
  (k < length rounds)%nat ->
  (forall i : nat,
     (i < k)%nat ->
     dialUDP w (dialTarget servers
                  (wrap32u (serverIndex (resolver w) + Z.of_nat i)))
     <> None) ->
  dialUDP w (dialTarget servers
               (wrap32u (serverIndex (resolver w) + Z.of_nat k)))
  = None ->
  fst (dialLoopAmong IntSize sch servers rounds lastErr w)
  = Ok (dialTarget servers (wrap32u (serverIndex (resolver w) + Z.of_nat k)))
  /\ dialLog (snd (dialLoopAmong IntSize sch servers rounds lastErr w))
     = dialLog w ++ dialTargets servers (serverIndex (resolver w)) (S k)
  /\ serverIndex (resolver
                    (snd (dialLoopAmong IntSize sch servers rounds lastErr w)))
     = wrap32u (serverIndex (resolver w) + Z.of_nat (S k)).
Proof.
  intros Hne. revert sch rounds w lastErr. induction k as [|k IH];
    intros sch rounds w lastErr Hr Hq Hk Hdown Hup;
    (destruct rounds as [|x rounds]; [cbn [length] in Hk; lia|]);
    rewrite dialLoopAmong_cons;
    assert (Hq0 : quiet (hd [] sch))
      by (destruct Hq; [constructor|assumption]);
    pose proof (amid_quiet (hd [] sch) w Hq0) as Hc;
    destruct (amid_dialer (hd [] sch) w) as [Hu Hl];
    set (w0 := amid (hd [] sch) w) in *;
    (assert (Hr0 : uint32_range (serverIndex (resolver w0)))
      by (rewrite Hc; exact Hr));
    destruct (dialAttempt_any servers w0 Hne) as (c & Hcc & ->);
    rewrite (Hcc Hr0), Hc, Hu, Hl.
  - change (Z.of_nat 0) with 0 in *. rewrite Z.add_0_r in *.
    rewrite (wrap32u_id _ Hr) in *. rewrite Hup. cbn [fst snd].
    split; [reflexivity|]. split.
    + cbn [dialLog dialed set_dialLog]. rewrite dialTargets_S.
      rewrite (wrap32u_id _ Hr). reflexivity.
    + cbn [serverIndex resolver dialed set_dialLog set_resolver
             set_serverIndex].
      reflexivity.
  - pose proof (Hdown 0%nat ltac:(lia)) as H0.
    change (Z.of_nat 0) with 0 in H0. rewrite Z.add_0_r in H0.
    rewrite (wrap32u_id _ Hr) in H0.
    destruct (dialUDP w (dialTarget servers (serverIndex (resolver w))))
      as [err|]; [|congruence].
    set (w1 := dialed (wrap32u (serverIndex (resolver w) + 1))
                 (dialLog w ++ [dialTarget servers (serverIndex (resolver w))])
                 w0).
    assert (E : forall i : nat,
               wrap32u (serverIndex (resolver w1) + Z.of_nat i)
               = wrap32u (serverIndex (resolver w) + Z.of_nat (S i))).
    { intros i.
      change (serverIndex (resolver w1))
        with (wrap32u (serverIndex (resolver w) + 1)).
      rewrite wrap32u_add_l. f_equal. lia. }
    assert (Hu1 : dialUDP w1 = dialUDP w) by exact Hu.
    destruct (IH (tl sch) rounds w1 (Some err)) as (H1 & H2 & H3).
    + apply wrap32u_range.
    + destruct Hq; [constructor|assumption].
    + cbn [length] in Hk. lia.
    + intros i Hi. rewrite Hu1, E. apply (Hdown (S i)). lia.
    + rewrite Hu1, E. exact Hup.
    + rewrite H1, H2, H3, !E. split; [reflexivity|]. split; [|reflexivity].
      change (dialLog w1)
        with (dialLog w ++ [dialTarget servers (serverIndex (resolver w))]).
      rewrite <- app_assoc. f_equal.
      rewrite (dialTargets_S servers (serverIndex (resolver w)) (S k)).
      rewrite (wrap32u_id _ Hr). reflexivity.
Qed.

(** The platform matters: where [int] has 32 bits, [int(idx)] is negative
    from the counter [2^31] on, the remainder is negative with it, and the
    index expression of [Dial] panics; with 64 bits the same attempt dials
    the third server. *)
Example dialAttempt_on_32_bits :
  toInt 32 (2 ^ 31) = - 2 ^ 31
  /\ Z.rem (toInt 32 (2 ^ 31)) 3 = -2
  /\ fst (dialAttemptOn 32 (dnsServers (resolver halfwayWorld)) halfwayWorld)
     = Panic
  /\ fst (dialAttemptOn IntSize (dnsServers (resolver halfwayWorld))
            halfwayWorld)
     = Ok "10.0.0.3:53".
Proof. repeat split; vm_compute; reflexivity. Qed.




(** X11. What one call of [Dial] does where [int] has 64 bits, whatever the
    servers answer: it never indexes outside the list; it makes at least
    one and at most [N] dial attempts, each on a configured server; it
    returns a connection only to a server that has connected, the target
    of its last attempt, and an error only after [N] attempts. This holds
    also among the steps of other goroutines. When the call runs alone,
    the attempts and the advance of the counter by their number are all
    it changes. *)
Theorem Dial_attempts (w : World) :
  dnsServers (resolver w) <> [] ->
  uint32_range (serverIndex (resolver w)) ->
  (exists k : nat,
     (1 <= k <= length (dnsServers (resolver w)))%nat
     /\ snd (Dial w) = afterAttempts k w
     /\ fst (Dial w) <> Panic
     /\ (forall conn,
           fst (Dial w) = Ok conn ->
           conn = dialTarget (dnsServers (resolver w))
                    (wrap32u (serverIndex (resolver w) + Z.of_nat k - 1))
           /\ dialUDP w conn = None)
     /\ (forall err,
           fst (Dial w) = Err err -> k = length (dnsServers (resolver w))))
  /\ forall sch, exists l : list string,
       (1 <= length l <= length (dnsServers (resolver w)))%nat
       /\ dialLog (snd (DialAmong IntSize sch w)) = dialLog w ++ l
       /\ Forall (fun t => exists s, s ∈ dnsServers (resolver w)
                                     /\ t = (s ++ defaultDNSPort)%string) l
       /\ fst (DialAmong IntSize sch w) <> Panic
       /\ (forall conn,
             fst (DialAmong IntSize sch w) = Ok conn ->
             last l = Some conn /\ dialUDP w conn = None)
       /\ (forall err,
             fst (DialAmong IntSize sch w) = Err err ->
             length l = length (dnsServers (resolver w))
             /\ exists t e,
                  last l = Some t /\ dialUDP w t = Some e
                  /\ err = AllServersFailed e).
Proof.
  intros Hne Hr. split.
  - unfold Dial.
    destruct (dialLoop_attempts (dnsServers (resolver w)) w None Hne Hr)
      as (k & Hk & Hsnd & Hnp & Hok & Herr).
    exists k. split.
    { split; [|exact Hk].
      destruct (fst (dialLoop (dnsServers (resolver w))
                       (dnsServers (resolver w)) None w))
        as [conn|err|] eqn:Hf.
      - apply (Hok conn eq_refl).
      - rewrite (Herr err eq_refl).
        destruct (dnsServers (resolver w)); [congruence|simpl; lia].
      - congruence. }
    split; [exact Hsnd|]. split; [exact Hnp|]. split.
    + intros conn Hc. destruct (Hok conn Hc) as (_ & H1 & H2). auto.
    + exact Herr.
  - intros sch. unfold DialAmong.
    destruct (dialLoopAmong_attempts sch (dnsServers (resolver w))
                (dnsServers (resolver w)) None w Hne)
      as (l & Hlen & Hlog & Hall & Hnp & Hok & Herr).
    assert (HN : (1 <= length (dnsServers (resolver w)))%nat)
      by (destruct (dnsServers (resolver w)); [congruence|simpl; lia]).
    assert (Herr' : forall err,
               fst (dialLoopAmong IntSize sch (dnsServers (resolver w))
                      (dnsServers (resolver w)) None w) = Err err ->
               length l = length (dnsServers (resolver w))
               /\ exists t e,
                    last l = Some t /\ dialUDP w t = Some e
                    /\ err = AllServersFailed e).
    { intros err He. destruct (Herr err He) as [Hn Hlast].
      split; [exact Hn|].
      destruct (last l) as [t|] eqn:El.
      - destruct Hlast as (e & Hd & ->). exists t, e. auto.
      - exfalso. apply last_None in El. subst l. cbn [length] in Hn. lia. }
    exists l. split.
    { split; [|exact Hlen].
      destruct (fst (dialLoopAmong IntSize sch (dnsServers (resolver w))
                       (dnsServers (resolver w)) None w))
        as [conn|err|] eqn:Hf.
      - destruct (Hok conn eq_refl) as [Hlast _].
        destruct l; [discriminate|simpl; lia].
      - destruct (Herr' err eq_refl) as [Hn _]. lia.
      - congruence. }
    split; [exact Hlog|]. split; [exact Hall|]. split; [exact Hnp|].
    split; [exact Hok|exact Herr'].
Qed.

Lemma Dial_attempts_witness :
  dnsServers (resolver (threeServers firstDown)) <> []
  /\ uint32_range (serverIndex (resolver (threeServers firstDown)))
  /\ exists k : nat,
       (1 <= k <= 3)%nat
       /\ snd (Dial (threeServers firstDown))
          = afterAttempts k (threeServers firstDown).
Proof.
  assert (Hne : dnsServers (resolver (threeServers firstDown)) <> [])
    by discriminate.
  assert (Hr : uint32_range (serverIndex (resolver (threeServers firstDown))))
    by (vm_compute; split; [discriminate|reflexivity]).
  refine (conj Hne (conj Hr _)).
  destruct (proj1 (Dial_attempts (threeServers firstDown) Hne Hr))
    as (k & Hk & Hsnd & _).
  exists k. split; [exact Hk|exact Hsnd].
Defined.

(** The loop up to the first server that connects. *)
Lemma dialLoop_first_connect (k : nat) (rounds : list string) (w : World)
    (lastErr : option error) :
  dnsServers (resolver w) <> [] ->
  uint32_range (serverIndex (resolver w)) ->
  (k < length rounds)%nat ->
  (forall i : nat,
     (i < k)%nat ->
     dialUDP w (dialTarget (dnsServers (resolver w))
                  (wrap32u (serverIndex (resolver w) + Z.of_nat i)))
     <> None) ->
  dialUDP w (dialTarget (dnsServers (resolver w))
               (wrap32u (serverIndex (resolver w) + Z.of_nat k)))
  = None ->
  dialLoop (dnsServers (resolver w)) rounds lastErr w
  = (Ok (dialTarget (dnsServers (resolver w))
           (wrap32u (serverIndex (resolver w) + Z.of_nat k))),
     afterAttempts (S k) w).
Proof.
  revert rounds w lastErr. induction k as [|k IH];
    intros rounds w lastErr Hne Hr Hk Hdown Hup;
    (destruct rounds as [|x rounds]; [cbn [length] in Hk; lia|]);
    rewrite dialLoop_cons, (dialAttempt_spec w Hne Hr).
  - change (Z.of_nat 0) with 0 in *. rewrite Z.add_0_r in *.
    rewrite (wrap32u_id _ Hr) in *. rewrite Hup. reflexivity.
  - pose proof (Hdown 0%nat ltac:(lia)) as H0.
    change (Z.of_nat 0) with 0 in H0. rewrite Z.add_0_r in H0.
    rewrite (wrap32u_id _ Hr) in H0.
    destruct (dialUDP w (dialTarget (dnsServers (resolver w))
                           (serverIndex (resolver w)))) as [err|];
      [|congruence].
    assert (E : forall i : nat,
               wrap32u (serverIndex (resolver (afterAttempts 1 w))
                        + Z.of_nat i)
               = wrap32u (serverIndex (resolver w) + Z.of_nat (S i))).
    { intros i.
      change (serverIndex (resolver (afterAttempts 1 w)))
        with (wrap32u (serverIndex (resolver w) + 1)).
      rewrite wrap32u_add_l. f_equal. lia. }
    change (dnsServers (resolver w))
      with (dnsServers (resolver (afterAttempts 1 w))) at 1.
    rewrite (IH rounds (afterAttempts 1 w) (Some err) Hne
               (afterAttempts_range 1 w)).
    + rewrite E, <- afterAttempts_S. reflexivity.
    + cbn [length] in Hk. lia.
    + intros i Hi. rewrite E. apply (Hdown (S i)). lia.
    + rewrite E. exact Hup.
Qed.

(** Among [N] counters in a row every index of the list occurs. *)
Lemma residue_covered (c : Z) (N j : nat) :
  (j < N)%nat ->
  exists i : nat,
    (i < N)%nat /\ Z.to_nat ((c + Z.of_nat i) mod Z.of_nat N) = j.
Proof.
  intros Hj.
  assert (HN : 0 < Z.of_nat N) by lia.
  pose proof (Z.mod_pos_bound (Z.of_nat j - c) (Z.of_nat N) HN) as Hb.
  exists (Z.to_nat ((Z.of_nat j - c) mod Z.of_nat N)).
  split; [lia|]. rewrite Z2Nat.id by lia.
  rewrite Zplus_mod_idemp_r.
  replace (c + (Z.of_nat j - c)) with (Z.of_nat j) by lia.
  rewrite Z.mod_small by lia. lia.
Qed.

Lemma first_or_none (P : nat -> bool) (n : nat) :
  (exists k, (k < n)%nat /\ P k = true
             /\ forall i, (i < k)%nat -> P i = false)
  \/ (forall i, (i < n)%nat -> P i = false).
Proof.
  induction n as [|n [(k & Hk & Hpk & Hmin) | Hnone]].
  - right. intros i Hi. lia.
  - left. exists k. split; [lia|]. split; assumption.
  - destruct (P n) eqn:Hn.
    + left. exists n. split; [lia|]. split; assumption.
    + right. intros i Hi.
      destruct (Nat.eq_dec i n) as [->|Hne]; [exact Hn|].
      apply Hnone. lia.
Qed.

(** With the counter at [c] and no wrap-around within the call, the first
    of the [N] targets in a row that connects, if one of the configured
    servers does. *)
Lemma first_server_up (w : World) (s : string) :
  dnsServers (resolver w) <> [] ->
  uint32_range (serverIndex (resolver w)) ->
  serverIndex (resolver w) + Z.of_nat (length (dnsServers (resolver w)))
  <= 2 ^ 32 ->
  s ∈ dnsServers (resolver w) ->
  dialUDP w (s ++ defaultDNSPort)%string = None ->
  exists k : nat,
    (k < length (dnsServers (resolver w)))%nat
    /\ wrap32u (serverIndex (resolver w) + Z.of_nat k)
       = serverIndex (resolver w) + Z.of_nat k
    /\ dialUDP w (dialTarget (dnsServers (resolver w))
                    (serverIndex (resolver w) + Z.of_nat k)) = None
    /\ (forall i : nat,
          (i < k)%nat ->
          wrap32u (serverIndex (resolver w) + Z.of_nat i)
          = serverIndex (resolver w) + Z.of_nat i)
    /\ forall i : nat,
         (i < k)%nat ->
         dialUDP w (dialTarget (dnsServers (resolver w))
                      (serverIndex (resolver w) + Z.of_nat i)) <> None.
Proof.
  intros Hne Hr Hnowrap Hin Hup.
  set (servers := dnsServers (resolver w)) in *.
  set (c := serverIndex (resolver w)) in *.
  set (P := fun i : nat =>
              match dialUDP w (dialTarget servers (c + Z.of_nat i)) with
              | None => true
              | Some _ => false
              end).
  apply list_elem_of_lookup_1 in Hin. destruct Hin as [j Hj].
  pose proof (lookup_lt_Some _ _ _ Hj) as Hjlt.
  destruct (residue_covered c (length servers) j Hjlt) as (i0 & Hi0 & Hres).
  assert (HP0 : P i0 = true).
  { unfold P, dialTarget. rewrite Hres, Hj. simpl. rewrite Hup. reflexivity. }
  destruct (first_or_none P (length servers))
    as [(k & Hk & Hpk & Hmin) | Hnone];
    [|rewrite (Hnone i0 Hi0) in HP0; discriminate].
  assert (W : forall i : nat,
             (i < length servers)%nat ->
             wrap32u (c + Z.of_nat i) = c + Z.of_nat i).
  { intros i Hi. apply wrap32u_id. unfold uint32_range in *. lia. }
  exists k. split; [exact Hk|]. split; [exact (W k Hk)|]. split; [|split].
  - unfold P in Hpk.
    destruct (dialUDP w (dialTarget servers (c + Z.of_nat k)));
      [discriminate|reflexivity].
  - intros i Hi. apply W. lia.
  - intros i Hi. pose proof (Hmin i Hi) as Hf. unfold P in Hf.
    destruct (dialUDP w (dialTarget servers (c + Z.of_nat i)));
      [discriminate|discriminate].
Qed.

(** X12. Failover reaches a server that is up, where [int] has 64 bits,
    in a call of [Dial] during which neither the counter wraps around
    ([c + N <= 2^32]) nor another call of [Dial] advances it. Such a call
    succeeds as soon as one configured server connects: it returns the
    connection to the first server that connects, in the order
    [list[c mod N]], [list[(c + 1) mod N]], ..., after one attempt on each
    server before it. This holds for a call that runs alone, and for a
    call among steps of other goroutines that leave the counter alone. *)
Theorem Dial_reaches_server_up (w : World) (s : string) :
  dnsServers (resolver w) <> [] ->
  uint32_range (serverIndex (resolver w)) ->
  serverIndex (resolver w) + Z.of_nat (length (dnsServers (resolver w)))
  <= 2 ^ 32 ->
  s ∈ dnsServers (resolver w) ->
  dialUDP w (s ++ defaultDNSPort)%string = None ->
  exists k : nat,
    (k < length (dnsServers (resolver w)))%nat
    /\ Dial w
       = (Ok (dialTarget (dnsServers (resolver w))
                (serverIndex (resolver w) + Z.of_nat k)),
          afterAttempts (S k) w)
    /\ dialUDP w (dialTarget (dnsServers (resolver w))
                    (serverIndex (resolver w) + Z.of_nat k)) = None
    /\ (forall i : nat,
          (i < k)%nat ->
          dialUDP w (dialTarget (dnsServers (resolver w))
                       (serverIndex (resolver w) + Z.of_nat i)) <> None)
    /\ forall sch,
         Forall quiet sch ->
         fst (DialAmong IntSize sch w)
         = Ok (dialTarget (dnsServers (resolver w))
                 (serverIndex (resolver w) + Z.of_nat k))
         /\ dialLog (snd (DialAmong IntSize sch w))
            = dialLog w
              ++ dialTargets (dnsServers (resolver w))
                   (serverIndex (resolver w)) (S k)
         /\ serverIndex (resolver (snd (DialAmong IntSize sch w)))
            = wrap32u (serverIndex (resolver w) + Z.of_nat (S k)).
Proof.
  intros Hne Hr Hnowrap Hin Hup.
  destruct (first_server_up w s Hne Hr Hnowrap Hin Hup)
    as (k & Hk & Wk & Hupk & W & Hdown).
  exists k. split; [exact Hk|]. split; [|split; [exact Hupk|split]].
  - unfold Dial. rewrite <- Wk.
    apply (dialLoop_first_connect k _ w None Hne Hr Hk).
    + intros i Hi. rewrite (W i Hi). apply Hdown. exact Hi.
    + rewrite Wk. exact Hupk.
  - exact Hdown.
  - intros sch Hq. unfold DialAmong. rewrite <- Wk.
    apply (dialLoopAmong_first_connect k sch _ _ w None Hne Hr Hq Hk).
    + intros i Hi. rewrite (W i Hi). apply Hdown. exact Hi.
    + rewrite Wk. exact Hupk.
Qed.

Lemma Dial_reaches_server_up_witness :
  dnsServers (resolver (threeServers firstDown)) <> []
  /\ uint32_range (serverIndex (resolver (threeServers firstDown)))
  /\ "10.0.0.3" ∈ dnsServers (resolver (threeServers firstDown))
  /\ dialUDP (threeServers firstDown) "10.0.0.3:53" = None
  /\ exists k : nat,
       (k < 3)%nat
       /\ Dial (threeServers firstDown)
          = (Ok (dialTarget ["10.0.0.1"; "10.0.0.2"; "10.0.0.3"]
                   (0 + Z.of_nat k)),
             afterAttempts (S k) (threeServers firstDown)).
Proof.
  assert (Hne : dnsServers (resolver (threeServers firstDown)) <> [])
    by discriminate.
  assert (Hr : uint32_range (serverIndex (resolver (threeServers firstDown))))
    by (vm_compute; split; [discriminate|reflexivity]).
  assert (Hw : serverIndex (resolver (threeServers firstDown))
               + Z.of_nat (length (dnsServers
                                     (resolver (threeServers firstDown))))
               <= 2 ^ 32)
    by (vm_compute; discriminate).
  assert (Hin : "10.0.0.3" ∈ dnsServers (resolver (threeServers firstDown)))
    by (apply (list_elem_of_lookup_2 _ 2%nat); reflexivity).
  assert (Hup : dialUDP (threeServers firstDown)
                  ("10.0.0.3" ++ defaultDNSPort)%string = None)
    by reflexivity.
  refine (conj Hne (conj Hr (conj Hin (conj Hup _)))).
  destruct (Dial_reaches_server_up (threeServers firstDown) "10.0.0.3"
              Hne Hr Hw Hin Hup) as (k & Hk & Hd & _).
  exists k. split; [exact Hk|exact Hd].
Defined.

(** Both bounds are needed. When another call of [Dial] takes a counter
    value in between, the attempts of this call need not reach every
    server: here the third server is up, another call takes the value 2
    after the second attempt, the three attempts dial the first server,
    the second and the first again, and [Dial] fails. *)
Example Dial_among_other_calls :
  dialUDP (threeServers onlyThirdUp) "10.0.0.3:53" = None
  /\ fst (DialAmong IntSize [[]; []; [OtherAddIndex]]
            (threeServers onlyThirdUp))
     = Err (AllServersFailed (External "i/o timeout"))
  /\ dialLog (snd (DialAmong IntSize [[]; []; [OtherAddIndex]]
                     (threeServers onlyThirdUp)))
     = ["10.0.0.1:53"; "10.0.0.2:53"; "10.0.0.1:53"].
Proof. repeat split; vm_compute; reflexivity. Qed.

(** When the counter wraps around within a call, the attempts need not
    reach every server either. Here the
    three attempts dial the first server twice and the second once, and
    [Dial] fails although the third server is up. *)
Example Dial_at_wrap_around :
  dialUDP wrappingWorld "10.0.0.3:53" = None
  /\ fst (Dial wrappingWorld) = Err (AllServersFailed (External "i/o timeout"))
  /\ dialLog (snd (Dial wrappingWorld))
     = ["10.0.0.1:53"; "10.0.0.1:53"; "10.0.0.2:53"]
  /\ serverIndex (resolver (snd (Dial wrappingWorld))) = 2.
Proof. repeat split; reflexivity. Qed.

(** *** What holds in every run *)

Lemma afterLookup_hosts (w : World) (host : string) :
  hostsNotLiteral w -> hostsNotLiteral (afterLookup w host).
Proof.
  unfold hostsNotLiteral. rewrite afterLookup_cache, afterLookup_spawned.
  tauto.
Qed.

Lemma resolveDNS_hosts (w : World) (host : string) :
  net.ParseIP host = None ->
  hostsNotLiteral w -> hostsNotLiteral (snd (resolveDNS host w)).
Proof.
  intros Hip Hw. pose proof (afterLookup_hosts w host Hw) as [Hk Hs].
  destruct (lookupIP w host (clock w)) as [[|a l]|err] eqn:Hrp.
  - rewrite (resolveDNS_failure w host (NoRecordsFound host))
      by (rewrite Hrp; reflexivity). split; assumption.
  - rewrite (resolveDNS_success w host (a :: l) Hrp) by discriminate.
    split; [|exact Hs]. intros h Hh. simpl in Hh.
    destruct (decide (host = h)) as [<-|Hne]; [exact Hip|].
    rewrite lookup_insert_ne in Hh by exact Hne. apply Hk. exact Hh.
  - rewrite (resolveDNS_failure w host (LookupFailed host err))
      by (rewrite Hrp; reflexivity). split; assumption.
Qed.

Lemma delete_hosts (w : World) (host : string) :
  hostsNotLiteral w ->
  hostsNotLiteral (set_resolver (set_cache (delete host)) w).
Proof.
  intros [Hk Hs]. split; [|exact Hs]. intros h [e Hh]. simpl in Hh.
  apply Hk. exists e. exact (delete_sub _ host h e Hh).
Qed.

Lemma lookupHost_hosts (w : World) (host : string) :
  hostsNotLiteral w -> hostsNotLiteral (snd (lookupHost host w)).
Proof.
  intros Hw. destruct (net.ParseIP host) as [ip|] eqn:Hip.
  { rewrite (lookupHost_literal w host ip Hip). exact Hw. }
  destruct (cache (resolver w) !! host) as [ce|] eqn:Hce.
  - destruct (Z_lt_le_dec (clock w) (expires ce)) as [Hlt|Hge].
    + rewrite (lookupHost_hit w host ce Hip Hce Hlt).
      destruct (time.After (clock w) (stale ce)); [|exact Hw].
      destruct Hw as [Hk Hs]. split; [exact Hk|]. simpl.
      apply Forall_app. split; [exact Hs|]. constructor; [exact Hip|constructor].
    + rewrite (lookupHost_expired w host ce Hip Hce Hge).
      apply resolveDNS_hosts; [exact Hip|]. apply delete_hosts. exact Hw.
  - rewrite (lookupHost_miss w host Hip Hce).
    apply resolveDNS_hosts; assumption.
Qed.

Lemma dialLoop_spawned (servers rounds : list string)
    (lastErr : option error) (w : World) :
  spawned (snd (dialLoop servers rounds lastErr w)) = spawned w
  /\ dnsServers (resolver (snd (dialLoop servers rounds lastErr w)))
     = dnsServers (resolver w).
Proof.
  destruct (dialLoop_frame servers rounds lastErr w) as (i & l & ->).
  split; reflexivity.
Qed.

Lemma GetCachedIPs_world (w : World) (host : string) :
  snd (GetCachedIPs host w) = w
  \/ snd (GetCachedIPs host w) = set_resolver (set_cache (delete host)) w.
Proof.
  destruct (cache (resolver w) !! host) as [ce|] eqn:Hce.
  - rewrite (GetCachedIPs_cached w host ce Hce).
    destruct (time.After (clock w) (expires ce)); [right|left]; reflexivity.
  - unfold GetCachedIPs. unfold_m. rewrite Hce. left. reflexivity.
Qed.

Lemma exec_hosts (o : op) (w : World) :
  hostsNotLiteral w -> hostsNotLiteral (exec o w).
Proof.
  intros Hw. destruct o; cbn [exec]; try exact Hw.
  - rewrite ResolveTCPAddr_world.
    destruct (resolveAddr_world w network address) as [-> | [host ->]];
      [exact Hw|apply lookupHost_hosts; exact Hw].
  - rewrite ResolveUDPAddr_world.
    destruct (resolveAddr_world w network address) as [-> | [host ->]];
      [exact Hw|apply lookupHost_hosts; exact Hw].
  - unfold ClearCache. rewrite forEach_delete_frame.
    destruct Hw as [Hk Hs]. split; [|exact Hs].
    intros h [e Hh]. simpl in Hh. apply Hk. exists e.
    exact (proj1 (forEach_delete_sub _ w) h e Hh).
  - apply delete_hosts. exact Hw.
  - destruct (GetCachedIPs_world w host) as [-> | ->];
      [exact Hw|apply delete_hosts; exact Hw].
  - unfold RefreshCache. rewrite forEach_go_spawned.
    destruct Hw as [Hk Hs]. split; [exact Hk|]. simpl.
    apply Forall_app. split; [exact Hs|].
    apply Forall_forall. intros h Hh. apply Hk. apply cacheKeys_spec.
    exact Hh.
  - destruct (dnsServers (resolver w)) eqn:Hsrv; [exact Hw|].
    destruct Hw as [Hk Hs]. unfold Dial.
    destruct (dialLoop_cache (dnsServers (resolver w))
                (dnsServers (resolver w)) None w) as [Ec _].
    destruct (dialLoop_spawned (dnsServers (resolver w))
                (dnsServers (resolver w)) None w) as [Es _].
    split; [rewrite Ec; exact Hk|rewrite Es; exact Hs].
  - unfold runSpawned. destruct (spawned w !! i) as [host|] eqn:Hi;
      [|exact Hw].
    cbn [snd]. destruct Hw as [Hk Hs]. apply resolveDNS_hosts.
    + rewrite Forall_forall in Hs. apply Hs.
      eapply list_elem_of_lookup_2. exact Hi.
    + split; [exact Hk|]. simpl. apply Forall_delete. exact Hs.
Qed.

Lemma exec_entriesNonEmpty (o : op) (w : World) :
  entriesNonEmpty w -> entriesNonEmpty (exec o w).
Proof.
  intros Hw h e H.
  destruct (exec_cacheStep o w h e H) as [Hold | (addrs & now & Hne & _ & ->)].
  - exact (Hw h e Hold).
  - exact Hne.
Qed.

Lemma afterLookup_config (w : World) (host : string) :
  uint32_range (serverIndex (resolver w)) ->
  uint32_range (serverIndex (resolver (afterLookup w host))).
Proof.
  intros Hr. destruct (afterLookup_dialed w host) as (i & l & -> & Hi).
  apply Hi. exact Hr.
Qed.

(** A resolution may advance the counter, through the calls of [Dial]
    during the lookup, and leaves it within [uint32]. *)
Lemma resolveDNS_config (w : World) (host : string) :
  uint32_range (serverIndex (resolver w)) ->
  dnsServers (resolver (snd (resolveDNS host w))) = dnsServers (resolver w)
  /\ uint32_range (serverIndex (resolver (snd (resolveDNS host w)))).
Proof.
  intros Hr. pose proof (afterLookup_config w host Hr) as Hr'.
  destruct (lookupIP w host (clock w)) as [[|a l]|err] eqn:Hrp.
  - rewrite (resolveDNS_failure w host (NoRecordsFound host))
      by (rewrite Hrp; reflexivity).
    split; [apply afterLookup_dnsServers|exact Hr'].
  - rewrite (resolveDNS_success w host (a :: l) Hrp) by discriminate.
    split; [apply afterLookup_dnsServers|exact Hr'].
  - rewrite (resolveDNS_failure w host (LookupFailed host err))
      by (rewrite Hrp; reflexivity).
    split; [apply afterLookup_dnsServers|exact Hr'].
Qed.

Lemma lookupHost_config (w : World) (host : string) :
  uint32_range (serverIndex (resolver w)) ->
  dnsServers (resolver (snd (lookupHost host w))) = dnsServers (resolver w)
  /\ uint32_range (serverIndex (resolver (snd (lookupHost host w)))).
Proof.
  intros Hr. destruct (net.ParseIP host) as [ip|] eqn:Hip.
  { rewrite (lookupHost_literal w host ip Hip). split; [reflexivity|exact Hr]. }
  destruct (cache (resolver w) !! host) as [ce|] eqn:Hce.
  - destruct (Z_lt_le_dec (clock w) (expires ce)) as [Hlt|Hge].
    + rewrite (lookupHost_hit w host ce Hip Hce Hlt).
      destruct (time.After (clock w) (stale ce));
        (split; [reflexivity|exact Hr]).
    + rewrite (lookupHost_expired w host ce Hip Hce Hge).
      apply (resolveDNS_config (set_resolver (set_cache (delete host)) w)).
      exact Hr.
  - rewrite (lookupHost_miss w host Hip Hce). apply resolveDNS_config.
    exact Hr.
Qed.

(** No operation changes the list of servers, and the counter stays
    within [uint32]. *)
Lemma exec_config (o : op) (w : World) :
  uint32_range (serverIndex (resolver w)) ->
  dnsServers (resolver (exec o w)) = dnsServers (resolver w)
  /\ uint32_range (serverIndex (resolver (exec o w))).
Proof.
  intros Hr. destruct o; cbn [exec]; try (split; [reflexivity|exact Hr]).
  - rewrite ResolveTCPAddr_world.
    destruct (resolveAddr_world w network address) as [-> | [host ->]];
      [split; [reflexivity|exact Hr]|].
    apply lookupHost_config. exact Hr.
  - rewrite ResolveUDPAddr_world.
    destruct (resolveAddr_world w network address) as [-> | [host ->]];
      [split; [reflexivity|exact Hr]|].
    apply lookupHost_config. exact Hr.
  - unfold ClearCache. rewrite forEach_delete_frame.
    split; [reflexivity|exact Hr].
  - destruct (GetCachedIPs_world w host) as [-> | ->];
      split; try reflexivity; exact Hr.
  - unfold RefreshCache. rewrite forEach_go_spawned.
    split; [reflexivity|exact Hr].
  - destruct (dnsServers (resolver w)) as [|x l] eqn:Hsrv;
      [split; [exact Hsrv|exact Hr]|].
    rewrite <- Hsrv.
    assert (Hne : dnsServers (resolver w) <> []) by (rewrite Hsrv; discriminate).
    unfold Dial.
    destruct (dialLoop_attempts (dnsServers (resolver w)) w None Hne Hr)
      as (k & _ & Hsnd & _).
    rewrite Hsnd. split; [reflexivity|apply afterAttempts_range].
  - unfold runSpawned. destruct (spawned w !! i) as [host|];
      [|split; [reflexivity|exact Hr]].
    cbn [snd].
    apply (resolveDNS_config (set_spawned (delete i (spawned w)) w) host).
    exact Hr.
Qed.

Lemma run_invariants (os : list op) (w : World) :
  hostsNotLiteral w ->
  entriesNonEmpty w ->
  uint32_range (serverIndex (resolver w)) ->
  hostsNotLiteral (run os w)
  /\ entriesNonEmpty (run os w)
  /\ dnsServers (resolver (run os w)) = dnsServers (resolver w)
  /\ uint32_range (serverIndex (resolver (run os w))).
Proof.
  revert w. induction os as [|o os IH]; intros w Hh He Hr.
  - split; [exact Hh|]. split; [exact He|]. split; [reflexivity|exact Hr].
  - rewrite run_cons. destruct (exec_config o w Hr) as [Es Hr'].
    destruct (IH (exec o w) (exec_hosts o w Hh) (exec_entriesNonEmpty o w He)
                Hr') as (H1 & H2 & H3 & H4).
    split; [exact H1|]. split; [exact H2|]. split; [|exact H4].
    rewrite H3. exact Es.
Qed.

Lemma initWorld_invariants (d : time.Duration) (servers : list string)
    (t0 : time.Time) (lookup : string -> time.Time -> reply)
    (took : string -> time.Time -> N) (dial : string -> option error)
    (dials : string -> time.Time -> nat) :
  hostsNotLiteral (initWorld d servers t0 lookup took dial dials)
  /\ entriesNonEmpty (initWorld d servers t0 lookup took dial dials)
  /\ uint32_range
       (serverIndex (resolver
                       (initWorld d servers t0 lookup took dial dials))).
Proof.
  split; [split|split].
  - intros h [e He]. simpl in He. rewrite lookup_empty in He. discriminate.
  - constructor.
  - intros h e He. simpl in He. rewrite lookup_empty in He. discriminate.
  - simpl. unfold uint32_range. lia.
Qed.

(** X13. Whatever is done with a resolver made by [NewResolver]: the cache
    never holds an entry for a host that parses as a literal address, nor
    is a goroutine ever launched for one; no entry is ever empty; the
    list of servers is the one given to [NewResolver]. *)
Theorem fresh_resolver_cache_sound (os : list op) (d : time.Duration)
    (servers : list string) (t0 : time.Time)
    (lookup : string -> time.Time -> reply)
    (took : string -> time.Time -> N) (dial : string -> option error)
    (dials : string -> time.Time -> nat) :
  let w := run os (initWorld d servers t0 lookup took dial dials) in
  (forall h ip, net.ParseIP h = Some ip -> cache (resolver w) !! h = None)
  /\ (forall h ip, net.ParseIP h = Some ip -> h ∉ spawned w)
  /\ (forall h e, cache (resolver w) !! h = Some e -> ips e <> [])
  /\ dnsServers (resolver w) = servers.
Proof.
  intros w. subst w.
  destruct (initWorld_invariants d servers t0 lookup took dial dials)
    as (Hh & He & Hr).
  destruct (run_invariants os _ Hh He Hr) as ([Hk Hs] & H2 & H3 & _).
  split; [|split; [|split]].
  - intros h ip Hip.
    destruct (cache (resolver (run os (initWorld d servers t0 lookup took
                                         dial dials))) !! h) as [e|] eqn:Hc;
      [|reflexivity].
    rewrite (Hk h) in Hip by eauto. discriminate.
  - intros h ip Hip Hin. rewrite Forall_forall in Hs.
    rewrite (Hs h Hin) in Hip. discriminate.
  - exact H2.
  - exact H3.
Qed.

Lemma lookupHost_never_empty (w : World) (host : string) :
  entriesNonEmpty w ->
  fst (lookupHost host w) <> Ok [] /\ fst (lookupHost host w) <> Panic.
Proof.
  intros Hw.
  assert (R : forall w1, fst (resolveDNS host w1) <> Ok []
                         /\ fst (resolveDNS host w1) <> Panic).
  { intros w1. rewrite resolveDNS_result.
    destruct (lookupIP w1 host (clock w1)) as [[|a addrs]|err];
      split; discriminate. }
  destruct (net.ParseIP host) as [ip|] eqn:Hip.
  { rewrite (lookupHost_literal w host ip Hip). split; discriminate. }
  destruct (cache (resolver w) !! host) as [ce|] eqn:Hce.
  - destruct (Z_lt_le_dec (clock w) (expires ce)) as [Hlt|Hge].
    + rewrite (lookupHost_hit w host ce Hip Hce Hlt). cbn [fst].
      pose proof (Hw host ce Hce) as Hne.
      split; [congruence|discriminate].
    + rewrite (lookupHost_expired w host ce Hip Hce Hge). apply R.
  - rewrite (lookupHost_miss w host Hip Hce). apply R.
Qed.

Lemma resolveAddr_index_in_range (w : World) (network address : string) :
  entriesNonEmpty w -> fst (resolveAddr network address w) <> Panic.
Proof.
  intros Hw. unfold_resolveAddr.
  pose proof (SplitHostPort_no_panic address) as Hs.
  destruct (net.SplitHostPort address) as [[host port]|err|];
    [|discriminate|congruence].
  pose proof (Atoi_no_panic port) as Ha.
  destruct (strconv.Atoi port) as [portNum|err|]; [|discriminate|congruence].
  unfold bind. destruct (lookupHost_never_empty w host Hw) as [H1 H2].
  destruct (lookupHost host w) as [[[|ip addrs]|err|] w']; cbn [fst] in *;
    try congruence; try discriminate.
  destruct (String.eqb network "tcp4" || String.eqb network "udp4").
  { destruct (selectIPv4 (ip :: addrs)); discriminate. }
  destruct (String.eqb network "tcp6" || String.eqb network "udp6").
  { destruct (selectIPv6 (ip :: addrs)); discriminate. }
  discriminate.
Qed.

(** X14. Whatever is done, one call after the other, with a resolver made
    by [NewResolver], no call panics where [int] has 64 bits: [ips[0]] in
    [resolveAddr] is always within range, and so is [dnsServers[...]] in
    [Dial], in the calls the standard library makes during a lookup
    included. *)
Theorem fresh_resolver_never_panics (os : list op) (d : time.Duration)
    (servers : list string) (t0 : time.Time)
    (lookup : string -> time.Time -> reply)
    (took : string -> time.Time -> N) (dial : string -> option error)
    (dials : string -> time.Time -> nat)
    (network address : string) :
  let w := run os (initWorld d servers t0 lookup took dial dials) in
  fst (ResolveTCPAddr network address w) <> Panic
  /\ fst (ResolveUDPAddr network address w) <> Panic
  /\ fst (Dial w) <> Panic.
Proof.
  intros w. subst w.
  destruct (initWorld_invariants d servers t0 lookup took dial dials)
    as (Hh & He & Hr).
  destruct (run_invariants os _ Hh He Hr) as (_ & H2 & _ & H4).
  set (w := run os (initWorld d servers t0 lookup took dial dials)) in *.
  pose proof (resolveAddr_index_in_range w network address H2) as Hra.
  split; [|split].
  - unfold_Resolve. unfold bind.
    destruct (resolveAddr network address w) as [[[ip port]|err|] w'];
      cbn [fst] in *; [discriminate|discriminate|congruence].
  - unfold_Resolve. unfold bind.
    destruct (resolveAddr network address w) as [[[ip port]|err|] w'];
      cbn [fst] in *; [discriminate|discriminate|congruence].
  - destruct (dnsServers (resolver w)) as [|x l] eqn:Hsrv.
    + unfold Dial. rewrite Hsrv. discriminate.
    + assert (Hne : dnsServers (resolver w) <> [])
        by (rewrite Hsrv; discriminate).
      unfold Dial.
      destruct (dialLoop_attempts (dnsServers (resolver w)) w None Hne H4)
        as (k & _ & _ & Hnp & _).
      exact Hnp.
Qed.

(** *** The two entry points *)

(** X15. [ResolveTCPAddr] and [ResolveUDPAddr] differ in the type of their
    result only: on the same network and address they leave the same
    world and return the same address and port, or the same error.
    Neither checks that the network is one of its protocol. *)
Theorem ResolveTCPAddr_ResolveUDPAddr_agree (w : World)
    (network address : string) :
  snd (ResolveTCPAddr network address w)
  = snd (ResolveUDPAddr network address w)
  /\ match fst (ResolveTCPAddr network address w),
           fst (ResolveUDPAddr network address w) with
     | Ok a, Ok b =>
         tcpIP a = udpIP b /\ tcpPort a = udpPort b
         /\ fst (resolveAddr network address w) = Ok (tcpIP a, tcpPort a)
     | Err e1, Err e2 =>
         e1 = e2 /\ fst (resolveAddr network address w) = Err e1
     | Panic, Panic => True
     | _, _ => False
     end.
Proof.
  unfold_Resolve. unfold bind.
  destruct (resolveAddr network address w) as [[[ip port]|err|] w'];
    cbn [fst snd ret tcpIP tcpPort udpIP udpPort]; auto.
Qed.

(** X16. An address without a colon has no port: [resolveAddr] fails with
    [InvalidAddressFormat] around "missing port in address", whatever the
    network, and neither the cache nor the backend is consulted. *)
Theorem resolveAddr_missing_port (w : World) (network address : string) :
  net.has_byte address ":" = false ->
  resolveAddr network address w
  = (Err (InvalidAddressFormat address
            (net.mkAddrError net.missingPort address)),
     w).
Proof.
  intros H.
  assert (L : forall s, net.has_byte s ":" = false ->
                        LastIndexByte s ":" = None).
  { unfold net.has_byte. intros s0.
    induction s0 as [|c s0 IH]; simpl; [reflexivity|].
    destruct (Ascii.eqb c ":"); [discriminate|].
    destruct (IndexByte s0 ":"); [discriminate|].
    intros _. rewrite IH by reflexivity. reflexivity. }
  unfold_resolveAddr. unfold net.SplitHostPort. rewrite (L address H). reflexivity.
Qed.

Lemma resolveAddr_missing_port_witness :
  net.has_byte "example.com" ":" = false
  /\ resolveAddr "tcp" "example.com" dualStackWorld
     = (Err (InvalidAddressFormat "example.com"
               (net.mkAddrError net.missingPort "example.com")),
        dualStackWorld).
Proof.
  assert (H : net.has_byte "example.com" ":" = false) by reflexivity.
  exact (conj H (resolveAddr_missing_port dualStackWorld "tcp"
                   "example.com" H)).
Defined.

(** *** The TTL and the entries *)

(** X17. [SetTTL] acts on the entries created after it only: the entry of the
    next successful resolution carries the new TTL, and every other entry
    of the cache is as it was before [SetTTL]. *)
Theorem SetTTL_only_new_entries (w : World) (d : time.Duration)
    (host : string) (addrs : list net.IP) :
  lookupIP w host (clock w) = Answer addrs ->
  addrs <> [] ->
  cache (resolver (snd (SetTTL d w))) = cache (resolver w)
  /\ cache (resolver (snd (resolveDNS host (snd (SetTTL d w))))) !! host
     = Some (newEntry addrs (lookupDone w host) d)
  /\ forall h, h <> host ->
       cache (resolver (snd (resolveDNS host (snd (SetTTL d w))))) !! h
       = cache (resolver w) !! h.
Proof.
  intros Hrp Hne. split; [reflexivity|].
  rewrite (resolveDNS_success (snd (SetTTL d w)) host addrs Hrp Hne).
  simpl. split; [apply lookup_insert_eq|].
  intros h Hh. rewrite afterLookup_cache. apply lookup_insert_ne. congruence.
Qed.

Lemma SetTTL_only_new_entries_witness :
  lookupIP (refreshingWorld 50) "example.org" (clock (refreshingWorld 50))
  = Answer dualStackIPs
  /\ dualStackIPs <> []
  /\ cache (resolver (snd (resolveDNS "example.org"
                             (snd (SetTTL 7 (refreshingWorld 50))))))
       !! "example.org"
     = Some (newEntry dualStackIPs 50 7)
  /\ cache (resolver (snd (resolveDNS "example.org"
                             (snd (SetTTL 7 (refreshingWorld 50))))))
       !! "example.com"
     = Some (newEntry exampleIPs 0 100).
Proof.
  assert (Hrp : lookupIP (refreshingWorld 50) "example.org"
                  (clock (refreshingWorld 50)) = Answer dualStackIPs)
    by reflexivity.
  assert (Hne : dualStackIPs <> []) by discriminate.
  destruct (SetTTL_only_new_entries (refreshingWorld 50) 7 "example.org"
              dualStackIPs Hrp Hne) as (_ & H2 & H3).
  refine (conj Hrp (conj Hne (conj H2 _))).
  rewrite (H3 "example.com") by discriminate. reflexivity.
Defined.

Lemma staleAfter_overflow (T : time.Duration) :
  2 ^ 63 <= T * 80 < 2 ^ 64 -> staleAfter T <= 0.
Proof.
  unfold staleAfter, refreshThreshold, wrap64. intros [Hlo Hhi].
  replace ((T * 80 + 2 ^ 63) mod 2 ^ 64) with (T * 80 + 2 ^ 63 - 2 ^ 64).
  - pose proof (Z.quot_rem' (T * 80 + 2 ^ 63 - 2 ^ 64 - 2 ^ 63) 100) as E.
    pose proof (Z.rem_bound_pos_neg (T * 80 + 2 ^ 63 - 2 ^ 64 - 2 ^ 63) 100
                  ltac:(lia) ltac:(lia)).
    lia.
  - apply (Z.mod_unique_pos _ _ 1); lia.
Qed.

(** X18. A TTL so long that 80 times it leaves [int64] (from about 3.65 years
    on) makes the product wrap around to a negative number: the entry is
    stale from its creation, and every read of it before it expires, though
    served from the cache, launches a refresh. *)
Theorem overflowing_ttl_always_stale (w : World) (host : string)
    (addrs : list net.IP) (t : time.Time) :
  net.ParseIP host = None ->
  lookupIP w host (clock w) = Answer addrs ->
  addrs <> [] ->
  2 ^ 63 <= ttl (resolver w) * 80 < 2 ^ 64 ->
  lookupDone w host < t < lookupDone w host + ttl (resolver w) ->
  let w1 := set_clock t (snd (resolveDNS host w)) in
  lookupHost host w1 = (Ok addrs, set_spawned (spawned w1 ++ [host]) w1).
Proof.
  intros Hip Hrp Hne Hov [Hlo Hhi] w1. subst w1.
  rewrite (resolveDNS_success w host addrs Hrp Hne). cbn [snd].
  set (e := newEntry addrs (lookupDone w host) (ttl (resolver w))).
  set (w1 := set_clock t _).
  assert (He : cache (resolver w1) !! host = Some e)
    by (simpl; apply lookup_insert_eq).
  assert (Hlt : clock w1 < expires e)
    by (subst e w1; cbn [clock set_clock expires newEntry];
        unfold time.Add; lia).
  rewrite (lookupHost_hit w1 host e Hip He Hlt).
  pose proof (staleAfter_overflow _ Hov) as Hs.
  assert (Ha : time.After (clock w1) (stale e) = true)
    by (apply time_After_true; subst e w1;
        cbn [clock set_clock stale newEntry]; unfold time.Add; lia).
  rewrite Ha. reflexivity.
Qed.

Lemma overflowing_ttl_always_stale_witness :
  net.ParseIP "example.com" = None
  /\ 2 ^ 63 <= ttl (resolver (answeringWorld overflowingTTL)) * 80 < 2 ^ 64
  /\ spawned (snd (lookupHost "example.com"
                     (set_clock 1
                        (snd (resolveDNS "example.com"
                                (answeringWorld overflowingTTL))))))
     = ["example.com"].
Proof.
  assert (Hip : net.ParseIP "example.com" = None) by reflexivity.
  assert (Hrp : lookupIP (answeringWorld overflowingTTL) "example.com"
                  (clock (answeringWorld overflowingTTL)) = Answer exampleIPs)
    by reflexivity.
  assert (Hne : exampleIPs <> []) by discriminate.
  assert (Hov : 2 ^ 63 <= ttl (resolver (answeringWorld overflowingTTL)) * 80
                < 2 ^ 64)
    by (vm_compute; split; [discriminate|reflexivity]).
  assert (Ht : lookupDone (answeringWorld overflowingTTL) "example.com" < 1
               < lookupDone (answeringWorld overflowingTTL) "example.com"
                 + ttl (resolver (answeringWorld overflowingTTL)))
    by (vm_compute; split; reflexivity).
  refine (conj Hip (conj Hov _)).
  rewrite (overflowing_ttl_always_stale (answeringWorld overflowingTTL)
             "example.com" exampleIPs 1 Hip Hrp Hne Hov Ht).
  reflexivity.
Defined.
